(** * ReqCapReplay: the request capture-and-replay engine of [injected.js]

    A shallow embedding of the script's engine: the path extractor
    [getValueByPath], the [BrowserUtils] object (configuration, fetch
    interception, replay, pagination collector) and the three
    [XMLHttpRequest] overrides, together with the parts of the JavaScript
    platform the script calls ([String.prototype.includes], [split],
    [trim], [parseInt], [JSON.parse], [JSON.stringify], truthiness and
    string conversion).

    Conventions of the embedding:
    - a JavaScript string is its sequence of UTF-16 code units ([list N]);
    - a JavaScript value is a tree of plain data ([value]); objects carry
      their own properties in property-enumeration order.  Members
      inherited from a prototype ([toString], [constructor], ...) and
      callable values are not part of the model;
    - a number inside a value is an IEEE-754 binary64 ([spec_float]);
    - the numbers of the page arithmetic ([parseInt] results, [pageSize],
      the loop counter) are mathematical integers or [NaN] ([number]).
      The code holds them in doubles, which agree with the integers up
      to 2^53 in magnitude; the theorems about these numbers carry that
      bound as a hypothesis ([precise]);
    - an operation that may throw returns a [completion]. *)

From Stdlib Require Import String Ascii.
From Stdlib Require Import ZArith NArith List Bool Lia.
From Stdlib Require Import Floats.SpecFloat Sorting.Sorted.
Import ListNotations.
Open Scope list_scope.

Set Implicit Arguments.

(* ================================================================== *)
(** * Strings *)
(* ================================================================== *)

Module Str.

(** A string is the list of its UTF-16 code units. *)
Definition jsstring := list N.

(** Code units of a Rocq string literal (one unit per character). *)
Definition lit (s : string) : jsstring :=
  map N_of_ascii (list_ascii_of_string s).

Definition eqb (a b : jsstring) : bool :=
  if list_eq_dec N.eq_dec a b then true else false.

(** [prefix p s]: [s] starts with [p]. *)
Fixpoint prefix (p s : jsstring) : bool :=
  match p, s with
  | [], _ => true
  | _ :: _, [] => false
  | a :: p', b :: s' => N.eqb a b && prefix p' s'
  end.

(** [String.prototype.includes]: case-sensitive substring test. *)
Fixpoint includes (s sub : jsstring) : bool :=
  prefix sub s ||
  match s with
  | [] => false
  | _ :: s' => includes s' sub
  end.

(** [String.prototype.split] with a one-unit separator. *)
Fixpoint split (sep : N) (s : jsstring) : list jsstring :=
  match s with
  | [] => [[]]
  | c :: s' =>
      if N.eqb c sep then [] :: split sep s'
      else match split sep s' with
           | seg :: rest => (c :: seg) :: rest
           | [] => [[c]]
           end
  end.

(** WhiteSpace and LineTerminator code units, as [trim] and [parseInt]
    strip them. *)
Definition is_space (c : N) : bool :=
  existsb (N.eqb c)
    [9; 10; 11; 12; 13; 32; 160; 5760; 8232; 8233; 8239; 8287; 12288; 65279]%N
  || (N.leb 8192 c && N.leb c 8202).

Fixpoint trim_start (s : jsstring) : jsstring :=
  match s with
  | c :: s' => if is_space c then trim_start s' else s
  | [] => []
  end.

Definition trim (s : jsstring) : jsstring :=
  rev (trim_start (rev (trim_start s))).

Definition is_digit (c : N) : bool := N.leb 48 c && N.leb c 57.

Definition digit_val (c : N) : Z := Z.of_N c - 48.

(** Longest prefix of decimal digits, and the rest. *)
Fixpoint span_digits (s : jsstring) : jsstring * jsstring :=
  match s with
  | c :: s' =>
      if is_digit c then let '(d, r) := span_digits s' in (c :: d, r)
      else ([], s)
  | [] => ([], [])
  end.

(** Value of a digit string, most significant digit first. *)
Definition digits_val (ds : jsstring) : Z :=
  fold_left (fun acc c => 10 * acc + digit_val c)%Z ds 0%Z.

(** Decimal digits of a non-negative integer, most significant first. *)
Fixpoint digits_fuel (fuel : nat) (z : Z) (acc : jsstring) : jsstring :=
  match fuel with
  | O => acc
  | S f =>
      let acc' := Z.to_N (48 + z mod 10) :: acc in
      if (z <? 10)%Z then acc' else digits_fuel f (z / 10)%Z acc'
  end.

Definition of_Z_nonneg (z : Z) : jsstring :=
  digits_fuel (S (Z.to_nat (Z.log2 z))) z [].

Definition of_Z (z : Z) : jsstring :=
  if (z <? 0)%Z then 45%N :: of_Z_nonneg (- z) else of_Z_nonneg z.

End Str.

Abbreviation jsstring := Str.jsstring.
Abbreviation lit := Str.lit.

(* ================================================================== *)
(** * Numbers inside values: IEEE-754 binary64 *)
(* ================================================================== *)

Module Dbl.

Open Scope Z_scope.
Open Scope list_scope.

Definition prec : Z := 53.
Definition emax : Z := 1024.

(** Structural equality of two doubles (it tells [+0] from [-0]). *)
Definition eqb (x y : spec_float) : bool :=
  match x, y with
  | S754_zero a, S754_zero b => Bool.eqb a b
  | S754_infinity a, S754_infinity b => Bool.eqb a b
  | S754_nan, S754_nan => true
  | S754_finite a m e, S754_finite b m' e' =>
      Bool.eqb a b && Pos.eqb m m' && Z.eqb e e'
  | _, _ => false
  end.

(** The double nearest to [num / den] (ties to even), for [0 <= num] and
    [0 < den]; the quotient too large for a double is an infinity. *)
Definition of_ratio (neg : bool) (num den : Z) : spec_float :=
  if num =? 0 then S754_zero neg
  else
    let '(q, e, l) := SFdiv_core_binary prec emax num 0 den 0 in
    binary_round_aux prec emax neg q e l.

(** The double nearest to [m * 10 ^ e], for [0 <= m]. *)
Definition of_decimal (neg : bool) (m e : Z) : spec_float :=
  if 0 <=? e then of_ratio neg (m * 10 ^ e) 1
  else of_ratio neg m (10 ^ (- e)).

Definition of_Z (z : Z) : spec_float :=
  of_ratio (z <? 0) (Z.abs z) 1.

(** ** [Number::toString] (radix 10) *)

(** The positive double [m * 2 ^ e] as a fraction. *)
Definition ratio_of (m : positive) (e : Z) : Z * Z :=
  if 0 <=? e then (Zpos m * 2 ^ e, 1) else (Zpos m, 2 ^ (- e)).

Fixpoint count_digits (fuel : nat) (z : Z) : Z :=
  match fuel with
  | O => 0
  | S f => if z <? 10 then 1 else 1 + count_digits f (z / 10)
  end.

(** Least [j >= from] with [den <= num * 10 ^ j]. *)
Fixpoint first_scale (fuel : nat) (num den from : Z) : Z :=
  match fuel with
  | O => from
  | S f =>
      if den <=? num * 10 ^ from then from
      else first_scale f num den (from + 1)
  end.

(** The [n] with [10 ^ (n - 1) <= num / den < 10 ^ n]. *)
Definition dec_exponent (num den : Z) : Z :=
  if den <=? num
  then count_digits (S (Z.to_nat (Z.log2 num))) (num / den)
  else 1 - first_scale 400 num den 1.

(** [cmp_scaled num den c p] compares [num / den] with [c * 10 ^ p]. *)
Definition cmp_scaled (num den c p : Z) : comparison :=
  if 0 <=? p then num ?= c * 10 ^ p * den
  else num * 10 ^ (- p) ?= c * den.

(** The shortest decimal [s * 10 ^ p] that reads back as [x]: the digit
    count [k] grows from 1 until one of the two [k]-digit neighbours of
    [num / den] rounds to [x]; of two that do, the nearer, and on a tie
    the even one. *)
Fixpoint shortest (fuel : nat) (x : spec_float) (num den n k : Z)
  : Z * Z :=
  match fuel with
  | O => (0, 0)
  | S f =>
      let p := n - k in
      let lo := if 0 <=? p then num / (den * 10 ^ p)
                else num * 10 ^ (- p) / den in
      let hi := lo + 1 in
      let ok_lo := (0 <? lo) && eqb (of_decimal false lo p) x in
      let ok_hi := eqb (of_decimal false hi p) x in
      match ok_lo, ok_hi with
      | true, true =>
          match cmp_scaled (2 * num) den (2 * lo + 1) p with
          | Lt => (lo, p)
          | Gt => (hi, p)
          | Eq => if Z.even lo then (lo, p) else (hi, p)
          end
      | true, false => (lo, p)
      | false, true => (hi, p)
      | false, false => shortest f x num den n (k + 1)
      end
  end.

(** Drop the zeros a carry leaves at the end of [s]. *)
Fixpoint strip_zeros (fuel : nat) (s p : Z) : Z * Z :=
  match fuel with
  | O => (s, p)
  | S f => if (s mod 10 =? 0) && (0 <? s) then strip_zeros f (s / 10) (p + 1)
           else (s, p)
  end.

Definition zeros (n : Z) : jsstring := repeat 48%N (Z.to_nat n).

(** The digits [ds] of [s] and the exponent [n] laid out as the language
    prints them: plain digits, a decimal point, or exponent notation. *)
Definition layout (ds : jsstring) (n : Z) : jsstring :=
  let k := Z.of_nat (length ds) in
  if (k <=? n) && (n <=? 21) then ds ++ zeros (n - k)
  else if (0 <? n) && (n <=? 21) then
    firstn (Z.to_nat n) ds ++ [46%N] ++ skipn (Z.to_nat n) ds
  else if (-6 <? n) && (n <=? 0) then
    [48%N; 46%N] ++ zeros (- n) ++ ds
  else
    let e := n - 1 in
    let sign := if e <? 0 then 45%N else 43%N in
    let mant := match ds with
                | [d] => [d]
                | d :: rest => d :: 46%N :: rest
                | [] => []
                end in
    mant ++ [101%N; sign] ++ Str.of_Z_nonneg (Z.abs e).

Definition pos_to_string (x : spec_float) (m : positive) (e : Z) : jsstring :=
  let '(num, den) := ratio_of m e in
  let n := dec_exponent num den in
  let '(s0, p0) := shortest 25 x num den n 1 in
  let '(s, p) := strip_zeros 25 s0 p0 in
  let ds := Str.of_Z_nonneg s in
  layout ds (p + Z.of_nat (length ds)).

Definition to_string (x : spec_float) : jsstring :=
  match x with
  | S754_nan => lit "NaN"
  | S754_zero _ => lit "0"
  | S754_infinity false => lit "Infinity"
  | S754_infinity true => lit "-Infinity"
  | S754_finite false m e => pos_to_string x m e
  | S754_finite true m e => 45%N :: pos_to_string (S754_finite false m e) m e
  end.

Definition is_finite (x : spec_float) : bool :=
  match x with
  | S754_zero _ | S754_finite _ _ _ => true
  | _ => false
  end.

Close Scope Z_scope.

End Dbl.

(* ================================================================== *)
(** * Values and completions *)
(* ================================================================== *)

(** What a [throw] carries. *)
Inductive error : Type :=
| TypeError
| SyntaxError
| ErrorMsg (message : jsstring)
| Rejection (reason : jsstring).

(** The outcome of an operation that may throw. *)
Inductive completion (A : Type) : Type :=
| Normal (a : A)
| Throw (e : error).

Arguments Normal {A} a.
Arguments Throw {A} e.

Definition bind {A B : Type} (c : completion A) (k : A -> completion B)
  : completion B :=
  match c with
  | Normal a => k a
  | Throw e => Throw e
  end.

Notation "x <- c ;; k" := (bind c (fun x => k))
  (at level 61, c at next level, right associativity).

(** Plain data: what [JSON.parse] builds, plus [undefined].  The
    properties of an object are listed in enumeration order. *)
Unset Elimination Schemes.
Inductive value : Type :=
| VUndefined
| VNull
| VBool (b : bool)
| VNum (d : spec_float)
| VStr (s : jsstring)
| VArr (elems : list value)
| VObj (props : list (jsstring * value)).
Set Elimination Schemes.

Definition is_undefined (v : value) : bool :=
  match v with VUndefined => true | _ => false end.

(** [ToBoolean]. *)
Definition truthy (v : value) : bool :=
  match v with
  | VUndefined | VNull => false
  | VBool b => b
  | VNum (S754_zero _) | VNum S754_nan => false
  | VNum _ => true
  | VStr [] => false
  | VStr _ => true
  | VArr _ | VObj _ => true
  end.

(** [a || b] on values. *)
Definition or_else (a b : value) : value := if truthy a then a else b.

Fixpoint lookup (k : jsstring) (props : list (jsstring * value))
  : option value :=
  match props with
  | [] => None
  | (k', v) :: rest => if Str.eqb k' k then Some v else lookup k rest
  end.

Definition has_key (k : jsstring) (props : list (jsstring * value)) : bool :=
  match lookup k props with Some _ => true | None => false end.

(** An array index: the canonical decimal spelling of an integer below
    [2^32 - 1]. *)
Definition array_index (k : jsstring) : option N :=
  match k with
  | [] => None
  | c :: rest =>
      if forallb Str.is_digit k
         && (negb (N.eqb c 48) || match rest with [] => true | _ => false end)
      then
        let n := Z.to_N (Str.digits_val k) in
        if N.ltb n 4294967295 then Some n else None
      else None
  end.

Definition length_key : jsstring := lit "length".

Definition length_value {A : Type} (l : list A) : value :=
  VNum (Dbl.of_Z (Z.of_nat (length l))).

(** [ToString]. An object whose own [toString] is not callable cannot be
    converted. *)
Fixpoint to_string (v : value) : completion jsstring :=
  match v with
  | VUndefined => Normal (lit "undefined")
  | VNull => Normal (lit "null")
  | VBool true => Normal (lit "true")
  | VBool false => Normal (lit "false")
  | VNum d => Normal (Dbl.to_string d)
  | VStr s => Normal s
  | VArr vs =>
      (fix join (l : list value) : completion jsstring :=
         match l with
         | [] => Normal []
         | x :: l' =>
             sx <- match x with
                   | VUndefined | VNull => Normal []
                   | _ => to_string x
                   end ;;
             rest <- join l' ;;
             Normal (sx ++ match l' with [] => [] | _ => [44%N] end ++ rest)
         end) vs
  | VObj ps =>
      if has_key (lit "toString") ps then Throw TypeError
      else Normal (lit "[object Object]")
  end.

(** Property read [o[k]] (own properties only). *)
Definition get (o : value) (k : jsstring) : completion value :=
  match o with
  | VUndefined | VNull => Throw TypeError
  | VBool _ | VNum _ => Normal VUndefined
  | VStr s =>
      if Str.eqb k length_key then Normal (length_value s)
      else match array_index k with
           | Some i => match nth_error s (N.to_nat i) with
                       | Some c => Normal (VStr [c])
                       | None => Normal VUndefined
                       end
           | None => Normal VUndefined
           end
  | VArr vs =>
      if Str.eqb k length_key then Normal (length_value vs)
      else match array_index k with
           | Some i => match nth_error vs (N.to_nat i) with
                       | Some x => Normal x
                       | None => Normal VUndefined
                       end
           | None => Normal VUndefined
           end
  | VObj ps =>
      match lookup k ps with
      | Some x => Normal x
      | None => Normal VUndefined
      end
  end.

(** The operator [k in o]: a [TypeError] unless [o] is an object. *)
Definition has_property (k : jsstring) (o : value) : completion bool :=
  match o with
  | VArr vs =>
      if Str.eqb k length_key then Normal true
      else match array_index k with
           | Some i => Normal (N.to_nat i <? length vs)
           | None => Normal false
           end
  | VObj ps => Normal (has_key k ps)
  | _ => Throw TypeError
  end.

(** The call [recv.includes(arg)] with a string argument: substring test
    on a string, membership on an array, a [TypeError] on anything else
    (no such method). *)
Definition call_includes (recv : value) (arg : jsstring) : completion bool :=
  match recv with
  | VStr s => Normal (Str.includes s arg)
  | VArr vs =>
      Normal (existsb (fun x => match x with
                                | VStr t => Str.eqb t arg
                                | _ => false
                                end) vs)
  | _ => Throw TypeError
  end.

(** [CreateDataProperty] on an ordinary object, keeping enumeration
    order: an existing key keeps its place, a new array index goes among
    the indices in ascending order, any other new key goes last. *)
Fixpoint replace_value (k : jsstring) (v : value)
  (props : list (jsstring * value)) : list (jsstring * value) :=
  match props with
  | [] => []
  | (k', v') :: rest =>
      if Str.eqb k' k then (k', v) :: rest
      else (k', v') :: replace_value k v rest
  end.

Fixpoint insert_index (i : N) (k : jsstring) (v : value)
  (props : list (jsstring * value)) : list (jsstring * value) :=
  match props with
  | [] => [(k, v)]
  | (k', v') :: rest =>
      match array_index k' with
      | Some j => if N.leb j i then (k', v') :: insert_index i k v rest
                  else (k, v) :: props
      | None => (k, v) :: props
      end
  end.

Definition set_prop (k : jsstring) (v : value)
  (props : list (jsstring * value)) : list (jsstring * value) :=
  if has_key k props then replace_value k v props
  else match array_index k with
       | Some i => insert_index i k v props
       | None => props ++ [(k, v)]
       end.

(* ================================================================== *)
(** * [JSON.parse] and [JSON.stringify] *)
(* ================================================================== *)

Module JSON.

Open Scope N_scope.

(** ** Reading *)

Definition is_ws (c : N) : bool :=
  (c =? 32) || (c =? 9) || (c =? 10) || (c =? 13).

Fixpoint skip_ws (s : jsstring) : jsstring :=
  match s with
  | c :: s' => if is_ws c then skip_ws s' else s
  | [] => []
  end.

Definition hex_val (c : N) : option N :=
  if (48 <=? c) && (c <=? 57) then Some (c - 48)
  else if (97 <=? c) && (c <=? 102) then Some (c - 87)
  else if (65 <=? c) && (c <=? 70) then Some (c - 55)
  else None.

Definition hex4 (a b c d : N) : option N :=
  match hex_val a, hex_val b, hex_val c, hex_val d with
  | Some x, Some y, Some z, Some w => Some (((x * 16 + y) * 16 + z) * 16 + w)
  | _, _, _, _ => None
  end.

(** The unit a one-letter escape stands for. *)
Definition unescape (e : N) : option N :=
  if e =? 34 then Some 34 else if e =? 92 then Some 92
  else if e =? 47 then Some 47 else if e =? 98 then Some 8
  else if e =? 102 then Some 12 else if e =? 110 then Some 10
  else if e =? 114 then Some 13 else if e =? 116 then Some 9
  else None.

Definition push (c : N) (r : option (jsstring * jsstring))
  : option (jsstring * jsstring) :=
  match r with
  | Some (str, rest) => Some (c :: str, rest)
  | None => None
  end.

(** The characters of a string literal after its opening quote, up to
    and including the closing quote. *)
Fixpoint read_string (s : jsstring) : option (jsstring * jsstring) :=
  match s with
  | [] => None
  | c :: r =>
      if c =? 34 then Some ([], r)
      else if c =? 92 then
        match r with
        | [] => None
        | e :: r1 =>
            if e =? 117 then
              match r1 with
              | h1 :: h2 :: h3 :: h4 :: r2 =>
                  match hex4 h1 h2 h3 h4 with
                  | Some u => push u (read_string r2)
                  | None => None
                  end
              | _ => None
              end
            else
              match unescape e with
              | Some u => push u (read_string r1)
              | None => None
              end
        end
      else if c <? 32 then None
      else push c (read_string r)
  end.

Definition is_number_char (c : N) : bool :=
  Str.is_digit c || (c =? 43) || (c =? 45) || (c =? 46)
  || (c =? 69) || (c =? 101).

Fixpoint span_number (s : jsstring) : jsstring * jsstring :=
  match s with
  | c :: s' =>
      if is_number_char c
      then let '(t, r) := span_number s' in (c :: t, r)
      else ([], s)
  | [] => ([], [])
  end.

(** [expect c s]: the rest of [s] after its first unit [c]. *)
Definition expect (c : N) (s : jsstring) : option jsstring :=
  match s with
  | x :: r => if x =? c then Some r else None
  | [] => None
  end.

(** A leading minus sign, and the rest. *)
Definition read_minus (s : jsstring) : bool * jsstring :=
  match expect 45 s with
  | Some r => (true, r)
  | None => (false, s)
  end.

(** A leading sign of an exponent, and the rest. *)
Definition read_sign (s : jsstring) : bool * jsstring :=
  match expect 45 s with
  | Some r => (true, r)
  | None => match expect 43 s with
            | Some r => (false, r)
            | None => (false, s)
            end
  end.

(** The exponent part of a number token: nothing, or [e]/[E], an
    optional sign and at least one digit, up to the end of the token. *)
Definition read_exponent (t : jsstring) : option Z :=
  match t with
  | [] => Some 0%Z
  | c :: t1 =>
      if (c =? 101) || (c =? 69) then
        let '(neg, t2) := read_sign t1 in
        match Str.span_digits t2 with
        | (d :: ds, []) =>
            Some (if neg then (- Str.digits_val (d :: ds))%Z
                  else Str.digits_val (d :: ds))
        | _ => None
        end
      else None
  end.

(** The fraction of a number token: nothing, or a point and digits. *)
Definition read_fraction (t : jsstring) : option jsstring * jsstring :=
  match expect 46 t with
  | Some t' => let '(f, r) := Str.span_digits t' in (Some f, r)
  | None => (None, t)
  end.

(** A whole number token: an optional minus sign, an integer part with
    no leading zero, an optional fraction (a point and at least one
    digit) and an optional exponent; read as the nearest double. *)
Definition read_number (tok : jsstring) : option spec_float :=
  let '(neg, t1) := read_minus tok in
  let '(ip, t2) := Str.span_digits t1 in
  match ip with
  | [] => None
  | d :: more =>
      if (d =? 48) && negb (match more with [] => true | _ => false end)
      then None
      else
        let '(fp, t3) := read_fraction t2 in
        match fp with
        | Some [] => None
        | _ =>
            let fd := match fp with Some f => f | None => [] end in
            match read_exponent t3 with
            | Some x =>
                Some (Dbl.of_decimal neg (Str.digits_val (ip ++ fd))
                        (x - Z.of_nat (length fd)))
            | None => None
            end
        end
  end.

(** The value at the head of [s] and what follows it.  [fuel] bounds the
    nesting; every call consumes input, so the length of the text is
    enough (lemma [parse_fuel_adequate]). *)
Fixpoint parse_value (fuel : nat) (s : jsstring)
  : option (value * jsstring) :=
  match fuel with
  | O => None
  | S f =>
      match skip_ws s with
      | [] => None
      | c :: r =>
          if c =? 91 then
            match expect 93 (skip_ws r) with
            | Some r' => Some (VArr [], r')
            | None => parse_elems f r []
            end
          else if c =? 123 then
            match expect 125 (skip_ws r) with
            | Some r' => Some (VObj [], r')
            | None => parse_members f r []
            end
          else if c =? 34 then
            match read_string r with
            | Some (str, r') => Some (VStr str, r')
            | None => None
            end
          else if Str.prefix (lit "true") (c :: r)
          then Some (VBool true, skipn 4 (c :: r))
          else if Str.prefix (lit "false") (c :: r)
          then Some (VBool false, skipn 5 (c :: r))
          else if Str.prefix (lit "null") (c :: r)
          then Some (VNull, skipn 4 (c :: r))
          else
            let '(tok, r') := span_number (c :: r) in
            match read_number tok with
            | Some d => Some (VNum d, r')
            | None => None
            end
      end
  end
with parse_elems (fuel : nat) (s : jsstring) (acc : list value)
  : option (value * jsstring) :=
  match fuel with
  | O => None
  | S f =>
      match parse_value f s with
      | Some (v, r) =>
          match skip_ws r with
          | c :: r' =>
              if c =? 44 then parse_elems f r' (acc ++ [v])
              else if c =? 93 then Some (VArr (acc ++ [v]), r')
              else None
          | [] => None
          end
      | None => None
      end
  end
with parse_members (fuel : nat) (s : jsstring)
  (acc : list (jsstring * value)) : option (value * jsstring) :=
  match fuel with
  | O => None
  | S f =>
      match expect 34 (skip_ws s) with
      | Some r =>
          match read_string r with
          | Some (k, r1) =>
              match expect 58 (skip_ws r1) with
              | Some r2 =>
                  match parse_value f r2 with
                  | Some (v, r3) =>
                      match skip_ws r3 with
                      | c :: r4 =>
                          if c =? 44 then parse_members f r4 (set_prop k v acc)
                          else if c =? 125
                          then Some (VObj (set_prop k v acc), r4)
                          else None
                      | [] => None
                      end
                  | None => None
                  end
              | None => None
              end
          | None => None
          end
      | None => None
      end
  end.

(** [JSON.parse] on a string: [None] stands for the [SyntaxError]. *)
Definition parse (s : jsstring) : option value :=
  match parse_value (S (length s)) s with
  | Some (v, rest) =>
      match skip_ws rest with
      | [] => Some v
      | _ => None
      end
  | None => None
  end.

(** ** Writing *)

Definition hex_digit (n : N) : N := if n <? 10 then 48 + n else 87 + n.

Definition escape_u (c : N) : jsstring :=
  [92; 117; hex_digit (c / 4096); hex_digit ((c / 256) mod 16);
   hex_digit ((c / 16) mod 16); hex_digit (c mod 16)].

Definition is_high (c : N) : bool := (55296 <=? c) && (c <=? 56319).
Definition is_low (c : N) : bool := (56320 <=? c) && (c <=? 57343).

Definition escape_unit (c : N) : jsstring :=
  if c =? 8 then [92; 98] else if c =? 9 then [92; 116]
  else if c =? 10 then [92; 110] else if c =? 12 then [92; 102]
  else if c =? 13 then [92; 114] else if c =? 34 then [92; 34]
  else if c =? 92 then [92; 92]
  else if c <? 32 then escape_u c
  else [c].

(** [QuoteJSONString] without the quotes: a surrogate pair is kept, a
    lone surrogate is escaped. *)
Fixpoint quote_units (s : jsstring) : jsstring :=
  match s with
  | [] => []
  | c :: r =>
      if is_high c then
        match r with
        | d :: r' =>
            if is_low d then c :: d :: quote_units r'
            else escape_u c ++ quote_units r
        | [] => escape_u c
        end
      else if is_low c then escape_u c ++ quote_units r
      else escape_unit c ++ quote_units r
  end.

Definition quote (s : jsstring) : jsstring := 34 :: quote_units s ++ [34].

Fixpoint join (sep : jsstring) (parts : list jsstring) : jsstring :=
  match parts with
  | [] => []
  | [p] => p
  | p :: rest => p ++ sep ++ join sep rest
  end.

(** The brackets around the serialized parts of an array or object. *)
Definition wrap (opening closing : N) (gap indent inner : jsstring)
  (parts : list jsstring) : jsstring :=
  match parts with
  | [] => [opening; closing]
  | _ =>
      match gap with
      | [] => opening :: join [44] parts ++ [closing]
      | _ => opening :: 10 :: inner ++ join (44 :: 10 :: inner) parts
             ++ 10 :: indent ++ [closing]
      end
  end.

Definition member (gap k t : jsstring) : jsstring :=
  quote k ++ 58 :: match gap with [] => t | _ => 32 :: t end.

Definition number_text (d : spec_float) : jsstring :=
  if Dbl.is_finite d then Dbl.to_string d else lit "null".

(** [SerializeJSONProperty]: [None] stands for [undefined]. *)
Fixpoint ser (gap indent : jsstring) (v : value) : option jsstring :=
  match v with
  | VUndefined => None
  | VNull => Some (lit "null")
  | VBool true => Some (lit "true")
  | VBool false => Some (lit "false")
  | VNum d => Some (number_text d)
  | VStr s => Some (quote s)
  | VArr vs =>
      let inner := indent ++ gap in
      Some (wrap 91 93 gap indent inner
              ((fix items (l : list value) : list jsstring :=
                  match l with
                  | [] => []
                  | x :: l' =>
                      match ser gap inner x with
                      | Some t => t
                      | None => lit "null"
                      end :: items l'
                  end) vs))
  | VObj ps =>
      let inner := indent ++ gap in
      Some (wrap 123 125 gap indent inner
              ((fix members (l : list (jsstring * value)) : list jsstring :=
                  match l with
                  | [] => []
                  | (k, x) :: l' =>
                      match ser gap inner x with
                      | Some t => member gap k t :: members l'
                      | None => members l'
                      end
                  end) ps))
  end.

(** [JSON.stringify(v)] and [JSON.stringify(v, null, 2)]. *)
Definition stringify (v : value) : option jsstring := ser [] [] v.
Definition stringify2 (v : value) : option jsstring := ser [32; 32] [] v.

Close Scope N_scope.

End JSON.

(** ** Values that [JSON.parse] can build *)

(** A number survives when its printed form reads back as the same
    double. *)
Definition number_survives (d : spec_float) : bool :=
  match JSON.read_number (JSON.number_text d) with
  | Some d' => Dbl.eqb d' d
  | None => false
  end.

(** Every number inside the value survives. *)
Fixpoint numbers_survive (v : value) : bool :=
  match v with
  | VNum d => number_survives d
  | VArr vs => forallb numbers_survive vs
  | VObj ps => forallb (fun kv => numbers_survive (snd kv)) ps
  | _ => true
  end.

(** Two distinct keys in enumeration order: array indices first, in
    ascending order, then the other keys. *)
Definition key_before (a b : jsstring) : Prop :=
  a <> b
  /\ match array_index a, array_index b with
     | Some i, Some j => (i <= j)%N
     | Some _, None => True
     | None, Some _ => False
     | None, None => True
     end.

(** Plain JSON data: no [undefined] anywhere, and the keys of every
    object in enumeration order without repetition. *)
#[warnings="-register-all"]
Inductive json_data : value -> Prop :=
| data_null : json_data VNull
| data_bool (b : bool) : json_data (VBool b)
| data_num (d : spec_float) : json_data (VNum d)
| data_str (s : jsstring) : json_data (VStr s)
| data_arr (vs : list value) :
    Forall json_data vs -> json_data (VArr vs)
| data_obj (ps : list (jsstring * value)) :
    StronglySorted key_before (map fst ps) ->
    Forall (fun kv => json_data (snd kv)) ps ->
    json_data (VObj ps).


(** ** Vocabulary of the round trip through [JSON.stringify] *)

Module Text.

Import JSON.
Open Scope N_scope.

(** Made of JSON white space only. *)
Definition blank (ws : jsstring) : Prop := Forall (fun c => is_ws c = true) ws.

(** What may follow a number token: the end, or a character that is not
    part of a number. *)
Definition delimited (rest : jsstring) : Prop :=
  match rest with
  | [] => True
  | c :: _ => is_number_char c = false
  end.

(** The text [JSON.stringify] writes for a value ([null] for
    [undefined], as inside an array). *)
Definition text_of (gap indent : jsstring) (v : value) : jsstring :=
  match ser gap indent v with
  | Some t => t
  | None => lit "null"
  end.

Definition sep_of (gap inner : jsstring) : jsstring :=
  match gap with [] => [] | _ => 10 :: inner end.

(** The character that starts the text of a value is neither blank nor
    a closing bracket nor a comma. *)
Definition opens (c : N) : Prop :=
  is_ws c = false /\ c <> 93 /\ c <> 125 /\ c <> 44.

(** [reads_back gap v]: at any indentation, the text of [v] followed by
    a delimited rest reads as [v] and leaves the rest. *)
Definition reads_back (gap : jsstring) (v : value) : Prop :=
  forall (indent : jsstring) (fuel : nat) (rest : jsstring),
    blank indent ->
    (length (text_of gap indent v) <= fuel)%nat ->
    delimited rest ->
    parse_value fuel (text_of gap indent v ++ rest) = Some (v, rest).

(** The blank after the colon of a member. *)
Definition space_of (gap : jsstring) : jsstring :=
  match gap with [] => [] | _ => [32] end.

Close Scope N_scope.

End Text.

(** [JSON.parse(x)]: the argument is converted to a string first. *)
Definition JSON_parse (x : value) : completion value :=
  text <- to_string x ;;
  match JSON.parse text with
  | Some v => Normal v
  | None => Throw SyntaxError
  end.

(** The result of [JSON.stringify] as a value. *)
Definition text_value (t : option jsstring) : value :=
  match t with
  | Some s => VStr s
  | None => VUndefined
  end.

(* ================================================================== *)
(** * Helper function: [getValueByPath] *)
(* ================================================================== *)

(** The loop over the segments of the path. *)
Fixpoint walk (val : value) (parts : list jsstring) : completion value :=
  match parts with
  | [] => Normal val
  | p :: rest =>
      if truthy val then
        found <- has_property p val ;;
        if found then
          next <- get val p ;;
          walk next rest
        else Normal VUndefined
      else Normal VUndefined
  end.

Definition getValueByPath (obj : value) (path : jsstring) : completion value :=
  walk obj (Str.split 46%N path).

(** [reaches v parts r]: every segment of [parts] in turn is a key of
    the container reached so far, and the last one holds [r]. *)
Inductive reaches : value -> list jsstring -> value -> Prop :=
| reaches_here (v : value) : reaches v [] v
| reaches_down (v : value) (p : jsstring) (rest : list jsstring)
    (x r : value) :
    has_property p v = Normal true ->
    get v p = Normal x ->
    reaches x rest r ->
    reaches v (p :: rest) r.

(* ================================================================== *)
(** * Page arithmetic *)
(* ================================================================== *)

(** The numbers of the configuration and of the collector's loop, as
    mathematical values: [NaN] or an integer.  The code holds them in
    doubles; up to 2^53 in magnitude the double is the integer (see
    [precise]). *)
Inductive number : Type :=
| NaN
| Int (z : Z).

Definition num_truthy (n : number) : bool :=
  match n with
  | NaN => false
  | Int z => negb (z =? 0)%Z
  end.

Definition num_add (a b : number) : number :=
  match a, b with
  | Int x, Int y => Int (x + y)
  | _, _ => NaN
  end.

Definition num_mul (a b : number) : number :=
  match a, b with
  | Int x, Int y => Int (x * y)
  | _, _ => NaN
  end.

(** [i < n]: false when either side is [NaN]. *)
Definition num_ltb (a b : number) : bool :=
  match a, b with
  | Int x, Int y => (x <? y)%Z
  | _, _ => false
  end.

(** [parseInt(s, 10)]: leading white space, an optional sign, then the
    longest run of digits; [NaN] when there is no digit.  The result is
    the integer the digits spell; the code's double is that integer
    when it is [precise], and otherwise the double nearest to it or an
    infinity. *)
Definition parseInt (s : jsstring) : number :=
  let t := Str.trim_start s in
  let '(neg, t1) := match t with
                    | 45%N :: r => (true, r)
                    | 43%N :: r => (false, r)
                    | _ => (false, t)
                    end in
  match Str.span_digits t1 with
  | ([], _) => NaN
  | (ds, _) => Int (if neg then - Str.digits_val ds else Str.digits_val ds)
  end.

(** [precise n]: the double of the code is the number [n] itself.  Every
    integer up to 2^53 in magnitude is a double; sums and products of
    such integers are computed without rounding as long as the result
    is one of them. *)
Definition precise (n : number) : Prop :=
  match n with
  | NaN => True
  | Int z => (Z.abs z <= 2 ^ 53)%Z
  end.

(* ================================================================== *)
(** * [BrowserUtils] *)
(* ================================================================== *)

Record Config : Type := {
  filter : jsstring;
  paramName : jsstring;
  pageSize : number;
  jsonPath : jsstring
}.

Definition defaultConfig : Config := {|
  filter := lit "opendata.rdw.nl/api/catalog/v1";
  paramName := lit "page";
  pageSize := Int 20;
  jsonPath := lit "data.recipeSearchV2.result"
|}.

(** The stored capture [{ url, config }]. *)
Record Template : Type := {
  url : value;
  config : value
}.

(** What the engine reads and writes on the page: its own fields, which
    function [window.fetch] currently is, the text of the [#fetch-status]
    element ([None] when the element is absent), and the two strings the
    referer falls back to. *)
Record State : Type := {
  cfg : Config;
  firstCapture : option Template;
  proxied : bool;
  status : option jsstring;
  doc_referrer : jsstring;
  location_href : jsstring
}.

Definition initial (referrer href : jsstring) : State := {|
  cfg := defaultConfig;
  firstCapture := None;
  proxied := false;
  status := Some (lit "No capture");
  doc_referrer := referrer;
  location_href := href
|}.

Definition with_cfg (st : State) (c : Config) : State := {|
  cfg := c;
  firstCapture := firstCapture st;
  proxied := proxied st;
  status := status st;
  doc_referrer := doc_referrer st;
  location_href := location_href st
|}.

Definition with_capture (st : State) (t : option Template) : State := {|
  cfg := cfg st;
  firstCapture := t;
  proxied := proxied st;
  status := status st;
  doc_referrer := doc_referrer st;
  location_href := location_href st
|}.

Definition with_proxied (st : State) (b : bool) : State := {|
  cfg := cfg st;
  firstCapture := firstCapture st;
  proxied := b;
  status := status st;
  doc_referrer := doc_referrer st;
  location_href := location_href st
|}.

(** [textContent = text] on the status element, when there is one. *)
Definition with_status (st : State) (text : jsstring) : State := {|
  cfg := cfg st;
  firstCapture := firstCapture st;
  proxied := proxied st;
  status := match status st with Some _ => Some text | None => None end;
  doc_referrer := doc_referrer st;
  location_href := location_href st
|}.

(** The values of the four panel inputs. *)
Record Panel : Type := {
  in_filter : jsstring;
  in_paramName : jsstring;
  in_pageSize : jsstring;
  in_jsonPath : jsstring
}.

Definition updateConfigFromPanel (st : State) (panel : Panel) : State :=
  with_cfg st {|
    filter := Str.trim (in_filter panel);
    paramName := Str.trim (in_paramName panel);
    pageSize := let n := parseInt (in_pageSize panel) in
                if num_truthy n then n else pageSize defaultConfig;
    jsonPath := Str.trim (in_jsonPath panel)
  |}.

Definition monitorGQL (st : State) : State := with_proxied st true.

Definition clearCapture (st : State) : State :=
  with_status (with_capture st None) (lit "No capture").

(** [window.fetch] is the native function again, and the panel, with the
    status element inside it, leaves the document.  The state is the one
    the page has until [window.location.reload()] unloads it. *)
Definition disableMonitoring (st : State) : State := {|
  cfg := cfg st;
  firstCapture := firstCapture st;
  proxied := false;
  status := None;
  doc_referrer := doc_referrer st;
  location_href := location_href st
|}.

(** ** The capture block, as both interception paths write it *)

(** [if (body) { try { ... } catch (e) { ... } }] on [cleanConfig]. *)
Definition normalize_body (body : value) (cleanConfig : list (jsstring * value))
  : list (jsstring * value) :=
  if truthy body then
    match JSON_parse body with
    | Normal bodyObj =>
        set_prop (lit "body") (text_value (JSON.stringify2 bodyObj)) cleanConfig
    | Throw _ => set_prop (lit "body") body cleanConfig
    end
  else cleanConfig.

(** [headers['referer'] || headers['Referer'] || document.referrer ||
    window.location.href]. *)
Definition resolve_referer (st : State) (headers : value) : completion value :=
  lower <- get headers (lit "referer") ;;
  upper <- get headers (lit "Referer") ;;
  Normal (or_else lower
            (or_else upper
               (or_else (VStr (doc_referrer st)) (VStr (location_href st))))).

(** The preview, cut to 50 units. *)
Definition preview (method url : value) : completion jsstring :=
  m <- to_string (or_else method (VStr (lit "GET"))) ;;
  u <- to_string url ;;
  let text := m ++ 32%N :: u in
  Normal (if (50 <? length text)%nat then firstn 50 text ++ lit "..." else text).

(** The text written to the status element. *)
Definition status_text (method url referer : value) : completion jsstring :=
  p <- preview method url ;;
  r <- to_string referer ;;
  Normal (lit "Captured: " ++ p ++ lit " (Referer: " ++ r ++ lit ")").

(** The part of the capture block after the template is stored. *)
Definition notify (st : State) (t : Template) : State * completion unit :=
  match (headers <- get (config t) (lit "headers") ;;
         resolve_referer st headers) with
  | Throw e => (st, Throw e)
  | Normal referer =>
      match status st with
      | None => (st, Normal tt)
      | Some _ =>
          match (method <- get (config t) (lit "method") ;;
                 status_text method (url t) referer) with
          | Throw e => (st, Throw e)
          | Normal text => (with_status st text, Normal tt)
          end
      end
  end.

(** Store the template, then notify. *)
Definition store (st : State) (t : Template) : State * completion unit :=
  notify (with_capture st (Some t)) t.

(** ** Fetch interception *)

Definition arg (n : nat) (args : list value) : value :=
  nth n args VUndefined.

(** The template of a matching call, [None] for a call that does not
    match; the body of the [try] up to the assignment. *)
Definition fetch_template (st : State) (args : list value)
  : completion (option Template) :=
  let resource := arg 0 args in
  let config := match arg 1 args with
                | VUndefined => VObj []
                | c => c
                end in
  url <- match resource with
         | VStr _ => Normal resource
         | _ => get resource (lit "url")
         end ;;
  matched <- match filter (cfg st) with
             | [] => Normal false
             | _ => call_includes url (filter (cfg st))
             end ;;
  if matched then
    headers <- get config (lit "headers") ;;
    method <- get config (lit "method") ;;
    mode <- get config (lit "mode") ;;
    credentials <- get config (lit "credentials") ;;
    body <- get config (lit "body") ;;
    let cleanConfig :=
      [ (lit "headers", or_else headers (VObj []));
        (lit "method", or_else method (VStr (lit "GET")));
        (lit "mode", or_else mode (VStr (lit "cors")));
        (lit "credentials", or_else credentials (VStr (lit "same-origin"))) ] in
    Normal (Some {| url := url;
                    config := VObj (normalize_body body cleanConfig) |})
  else Normal None.

(** The whole [try] block of the proxy's [apply] trap. *)
Definition fetch_hook (st : State) (args : list value)
  : State * completion unit :=
  match fetch_template st args with
  | Throw e => (st, Throw e)
  | Normal None => (st, Normal tt)
  | Normal (Some t) => store st t
  end.

(** ** The platform around the engine *)

(** What [await fetch(...)] yields: a response, of which the engine only
    calls [json()]. *)
Record Response : Type := {
  json : completion value
}.

(** The fields the overrides keep on an [XMLHttpRequest] instance;
    [_xhrHeaders] is [None] until [open] or [setRequestHeader] creates
    the accumulator object. *)
Record XHR : Type := {
  _xhrMethod : value;
  _xhrUrl : value;
  _xhrHeaders : option (list (jsstring * value))
}.

Definition new_XHR : XHR := {|
  _xhrMethod := VUndefined;
  _xhrUrl := VUndefined;
  _xhrHeaders := None
|}.

(** What the collector does besides calling the network. *)
Inductive event : Type :=
| Sleep (ms : Z)
| Replay (newValue : number)
| Download (filename : jsstring) (data : list value).

Section Engine.

(** Everything outside the script: the network and the native
    primitives, acting on a state [World] of their own. *)
Variable World : Type.

(** The native [fetch], saved as [nativeFetch] before any wrapping. *)
Variable nativeFetch : World -> list value -> World * completion Response.

(** [new URL(u)], [searchParams.set(name, v)], [toString()]: the
    rewritten URL, or [None] when the constructor throws. *)
Variable url_with_param : value -> jsstring -> number -> option jsstring.

(** The three native [XMLHttpRequest] methods, saved before overriding. *)
Variable originalXHROpen : World -> XHR -> list value -> World * completion value.
Variable originalXHRSetRequestHeader :
  World -> XHR -> list value -> World * completion value.
Variable originalXHRSend : World -> XHR -> list value -> World * completion value.

(** The [apply] trap of the proxy: the hook inside [try]/[catch], then
    [Reflect.apply(target, thisArg, args)]. *)
Definition proxy_apply (st : State) (w : World) (args : list value)
  : State * World * completion Response :=
  let st' := fst (fetch_hook st args) in
  let '(w', r) := nativeFetch w args in
  (st', w', r).

(** A call of the global [fetch]: the proxy once monitoring is on. *)
Definition window_fetch (st : State) (w : World) (args : list value)
  : State * World * completion Response :=
  if proxied st then proxy_apply st w args
  else let '(w', r) := nativeFetch w args in (st, w', r).

Definition no_capture : error :=
  ErrorMsg (lit "No request captured. Please browse to capture a request.").

Definition executeRequest (st : State) (w : World) (newValue : number)
  : State * World * completion value :=
  match firstCapture st with
  | None => (st, w, Throw no_capture)
  | Some capture =>
      match JSON_parse (text_value (JSON.stringify (config capture))) with
      | Throw e => (st, w, Throw e)
      | Normal config =>
          let origUrl := url capture in
          let updatedUrl :=
            match url_with_param origUrl (paramName (cfg st)) newValue with
            | Some u => VStr u
            | None => origUrl
            end in
          let '(st', w', r) := window_fetch st w [updatedUrl; config] in
          (st', w', response <- r ;; json response)
      end
  end.

(** ** The collector *)

Record Run : Type := {
  final : State;
  world : World;
  result : list value;
  events : list event
}.

(** [startValue + i * pageSize], computed on the mathematical values;
    the code's doubles give the same number as long as the product and
    the sum are [precise]. *)
Definition page_value (startValue pageSize : number) (i : Z) : number :=
  num_add startValue (num_mul (Int i) pageSize).

(** What one page contributes to [result]: the extracted value, or
    nothing when the replay or the extraction threw or the value is
    [undefined]. *)
Definition extracted_of (path : jsstring) (r : completion value)
  : option value :=
  match r with
  | Normal data =>
      match getValueByPath data path with
      | Normal extracted => if is_undefined extracted then None else Some extracted
      | Throw _ => None
      end
  | Throw _ => None
  end.

Definition push (result : list value) (x : option value) : list value :=
  match x with
  | Some v => result ++ [v]
  | None => result
  end.

(** The [for] loop, [count] iterations from index [i] on. *)
Fixpoint pages (count : nat) (i : Z) (startValue pageSize : number)
  (st : State) (w : World) (result : list value) (log : list event) : Run :=
  match count with
  | O => {| final := st; world := w; result := result; events := log |}
  | S count' =>
      let newValue := page_value startValue pageSize i in
      let log1 := if (0 <? i)%Z then log ++ [Sleep 1000] else log in
      let '(st', w', r) := executeRequest st w newValue in
      pages count' (i + 1) startValue pageSize st' w'
        (push result (extracted_of (jsonPath (cfg st')) r))
        (log1 ++ [Replay newValue])
  end.

(** How often [i < totalPages] holds from [i = 0] on. *)
Definition iterations (totalPages : number) : nat :=
  match totalPages with
  | NaN => O
  | Int n => Z.to_nat n
  end.

Definition collectAndDownload (st : State) (w : World)
  (startValue totalPages : number) : Run :=
  match firstCapture st with
  | None => {| final := st; world := w; result := []; events := [] |}
  | Some _ =>
      let run := pages (iterations totalPages) 0 startValue
                   (pageSize (cfg st)) st w [] [] in
      match result run with
      | [] => run
      | _ :: _ =>
          {| final := final run; world := world run; result := result run;
             events := events run ++ [Download (lit "data.json") (result run)] |}
      end
  end.

(** ** The [XMLHttpRequest] overrides *)

Definition XHR_open (w : World) (this : XHR) (args : list value)
  : XHR * World * completion value :=
  let this' := {| _xhrMethod := arg 0 args;
                  _xhrUrl := arg 1 args;
                  _xhrHeaders := Some [] |} in
  let '(w', r) := originalXHROpen w this' args in
  (this', w', r).

(** [headers[key] = v] on the accumulator: the key [__proto__] reaches
    the inherited setter and adds no property. *)
Definition assign (key : jsstring) (v : value)
  (headers : list (jsstring * value)) : list (jsstring * value) :=
  if Str.eqb key (lit "__proto__") then headers else set_prop key v headers.

Definition XHR_setRequestHeader (w : World) (this : XHR) (args : list value)
  : XHR * World * completion value :=
  let headers := match _xhrHeaders this with
                 | Some h => h
                 | None => []
                 end in
  match to_string (arg 0 args) with
  | Throw e =>
      ({| _xhrMethod := _xhrMethod this; _xhrUrl := _xhrUrl this;
          _xhrHeaders := Some headers |}, w, Throw e)
  | Normal key =>
      let this' := {| _xhrMethod := _xhrMethod this;
                      _xhrUrl := _xhrUrl this;
                      _xhrHeaders := Some (assign key (arg 1 args) headers) |} in
      let '(w', r) := originalXHRSetRequestHeader w this' args in
      (this', w', r)
  end.

(** The template of a matching [send], [None] when it does not match. *)
Definition xhr_template (st : State) (this : XHR) (body : value)
  : completion (option Template) :=
  matched <- (if truthy (_xhrUrl this) then
                match filter (cfg st) with
                | [] => Normal false
                | _ => call_includes (_xhrUrl this) (filter (cfg st))
                end
              else Normal false) ;;
  if matched then
    let cleanConfig :=
      [ (lit "headers", VObj match _xhrHeaders this with
                             | Some h => h
                             | None => []
                             end);
        (lit "method", or_else (_xhrMethod this) (VStr (lit "GET"))) ] in
    Normal (Some {| url := _xhrUrl this;
                    config := VObj (normalize_body body cleanConfig) |})
  else Normal None.

(** There is no [try] around the capture block of [send]. *)
Definition XHR_send (st : State) (w : World) (this : XHR) (args : list value)
  : State * World * completion value :=
  match xhr_template st this (arg 0 args) with
  | Throw e => (st, w, Throw e)
  | Normal None =>
      let '(w', r) := originalXHRSend w this args in (st, w', r)
  | Normal (Some t) =>
      match store st t with
      | (st', Throw e) => (st', w, Throw e)
      | (st', Normal _) =>
          let '(w', r) := originalXHRSend w this args in (st', w', r)
      end
  end.

End Engine.

(** ** The collector's run, described page by page *)

(** The events the loop owes for [n] pages: a replay per index in
    increasing order, and a one-second sleep before every replay but
    the first. *)
Definition schedule_from (startValue pageSize : number) (first n : nat)
  : list event :=
  flat_map
    (fun i => (if (0 <? Z.of_nat i)%Z then [Sleep 1000] else [])
              ++ [Replay (page_value startValue pageSize (Z.of_nat i))])
    (seq first n).

Definition schedule (startValue pageSize : number) (n : nat) : list event :=
  schedule_from startValue pageSize 0 n.

(** The downloads among the events. *)
Definition exports (log : list event) : list (jsstring * list value) :=
  flat_map (fun e => match e with
                     | Download name data => [(name, data)]
                     | _ => []
                     end) log.


Section Outcomes.

Variable World : Type.
Variable nativeFetch : World -> list value -> World * completion Response.
Variable url_with_param : value -> jsstring -> number -> option jsstring.


(** The calls [executeRequest(v)] for the page values [values], in this
    order: each call starts in the state and the world the call before
    it left; the outcomes are listed call by call. *)
Fixpoint replay_all (values : list number) (st : State) (w : World)
  : State * World * list (completion value) :=
  match values with
  | [] => (st, w, [])
  | v :: rest =>
      let '(st', w', r) := executeRequest nativeFetch url_with_param st w v in
      let '(st'', w'', rs) := replay_all rest st' w' in
      (st'', w'', r :: rs)
  end.

End Outcomes.

(** The page values of [n] pages. *)
Definition page_values (startValue pageSize : number) (n : nat) : list number :=
  map (fun i => page_value startValue pageSize (Z.of_nat i)) (seq 0 n).

(** A replay per page value, and a sleep of 1000 ms before each replay
    but the first. *)
Definition paced (values : list number) : list event :=
  match values with
  | [] => []
  | v :: rest => Replay v :: flat_map (fun v' => [Sleep 1000; Replay v']) rest
  end.

(* ================================================================== *)
(** * The export: [encodeURIComponent] and [download] *)
(* ================================================================== *)

Module URI.

Open Scope N_scope.

(** The units [encodeURIComponent] writes as they are: the ASCII letters
    and digits and the marks [- _ . ! ~ * ' ( )]. *)
Definition unreserved (c : N) : bool :=
  ((65 <=? c) && (c <=? 90)) || ((97 <=? c) && (c <=? 122))
  || Str.is_digit c
  || existsb (N.eqb c) [45; 95; 46; 33; 126; 42; 39; 40; 41].

Definition hex_upper (n : N) : N := if n <? 10 then 48 + n else 55 + n.

(** One octet as a percent sign and two upper-case hexadecimal digits. *)
Definition escape_octet (b : N) : jsstring :=
  [37; hex_upper (b / 16); hex_upper (b mod 16)].

(** The UTF-8 octets of a code point. *)
Definition utf8 (cp : N) : list N :=
  if cp <? 128 then [cp]
  else if cp <? 2048 then [192 + cp / 64; 128 + cp mod 64]
  else if cp <? 65536 then
    [224 + cp / 4096; 128 + (cp / 64) mod 64; 128 + cp mod 64]
  else
    [240 + cp / 262144; 128 + (cp / 4096) mod 64; 128 + (cp / 64) mod 64;
     128 + cp mod 64].

(** The code point a surrogate pair stands for. *)
Definition pair_point (hi lo : N) : N :=
  65536 + (hi - 55296) * 1024 + (lo - 56320).

Definition escape_point (cp : N) : jsstring :=
  flat_map escape_octet (utf8 cp).

Definition after (head : jsstring) (tail : option jsstring) : option jsstring :=
  match tail with
  | Some t => Some (head ++ t)
  | None => None
  end.

(** [encodeURIComponent] on a string: [None] stands for the [URIError]
    a surrogate without its partner raises. *)
Fixpoint encode (s : jsstring) : option jsstring :=
  match s with
  | [] => Some []
  | c :: r =>
      if unreserved c then after [c] (encode r)
      else if JSON.is_low c then None
      else if JSON.is_high c then
        match r with
        | d :: r' =>
            if JSON.is_low d
            then after (escape_point (pair_point c d)) (encode r')
            else None
        | [] => None
        end
      else after (escape_point c) (encode r)
  end.

(** ** What a data URL holds *)

(** The code points of a string, [None] for a surrogate without its
    partner. *)
Fixpoint code_points (s : jsstring) : option (list N) :=
  match s with
  | [] => Some []
  | c :: r =>
      if JSON.is_low c then None
      else if JSON.is_high c then
        match r with
        | d :: r' =>
            if JSON.is_low d
            then option_map (cons (pair_point c d)) (code_points r')
            else None
        | [] => None
        end
      else option_map (cons c) (code_points r)
  end.

(** The octets of a percent-encoded text: an escape stands for its
    octet, any other unit for itself. *)
Fixpoint percent_decode (s : jsstring) : option (list N) :=
  match s with
  | [] => Some []
  | c :: r =>
      if c =? 37 then
        match r with
        | h :: l :: r' =>
            match JSON.hex_val h, JSON.hex_val l with
            | Some x, Some y => option_map (cons (x * 16 + y)) (percent_decode r')
            | _, _ => None
            end
        | _ => None
        end
      else option_map (cons c) (percent_decode r)
  end.

(** The units a percent-encoded text is made of. *)
Definition url_safe (c : N) : bool :=
  unreserved c || (c =? 37).

(** No surrogate without its partner. *)
Fixpoint well_formed (s : jsstring) : bool :=
  match s with
  | [] => true
  | c :: r =>
      if JSON.is_low c then false
      else if JSON.is_high c then
        match r with
        | d :: r' => JSON.is_low d && well_formed r'
        | [] => false
        end
      else well_formed r
  end.

(** A code unit has 16 bits. *)
Definition is_unit (c : N) : bool := c <? 65536.

Close Scope N_scope.

End URI.

(** The link [download] builds: its [href] and [download] attributes and
    its [style.display]. *)
Record Anchor : Type := {
  href : jsstring;
  download_name : jsstring;
  display : jsstring
}.

(** How a call of [download] ends. *)
Inductive download_outcome : Type :=
| Clicked (element : Anchor)
| Malformed
| NoBody.

(** [JSON.stringify(data, null, 2)] as [encodeURIComponent] receives it:
    the text, or [undefined] converted to a string. *)
Definition export_text (data : value) : jsstring :=
  match JSON.stringify2 data with
  | Some t => t
  | None => lit "undefined"
  end.

Definition data_url_prefix : jsstring := lit "data:text/plain;charset=utf-8,".

(** [download(filename, data)]: the link is built, appended to
    [document.body], clicked and removed again, which leaves the
    document as it was.  [Malformed] is the [URIError] of
    [encodeURIComponent], [NoBody] the [TypeError] of
    [document.body.appendChild] on a document without a body. *)
Definition download (has_body : bool) (filename : jsstring) (data : value)
  : download_outcome :=
  match URI.encode (export_text data) with
  | None => Malformed
  | Some payload =>
      if has_body
      then Clicked {| href := data_url_prefix ++ payload;
                      download_name := filename;
                      display := lit "none" |}
      else NoBody
  end.

Section Callers.

Variable World : Type.
Variable nativeFetch : World -> list value -> World * completion Response.
Variable url_with_param : value -> jsstring -> number -> option jsstring.

(** The click listener of the [download-btn]: both arguments are read
    from the panel's [startValue] and [count] inputs with [parseInt]. *)
Definition download_btn_click (st : State) (w : World)
  (startValue_input count_input : jsstring) : Run World :=
  collectAndDownload nativeFetch url_with_param st w
    (parseInt startValue_input) (parseInt count_input).

(** A sequence of [setRequestHeader] calls on one request. *)
Fixpoint setRequestHeaders
  (native : World -> XHR -> list value -> World * completion value)
  (w : World) (this : XHR) (headers : list (jsstring * value)) : XHR * World :=
  match headers with
  | [] => (this, w)
  | (name, v) :: rest =>
      let '(this', w', _) := XHR_setRequestHeader native w this [VStr name; v] in
      setRequestHeaders native w' this' rest
  end.

End Callers.

(* ================================================================== *)
(** * Vocabulary of the properties *)
(* ================================================================== *)

(** Made of white space only, as [trim] and [parseInt] see it. *)
Definition blank_text (s : jsstring) : Prop :=
  Forall (fun c => Str.is_space c = true) s.

(** [trimmed input stored]: [stored] is [input] without the white space
    at its two ends, and nothing else is missing. *)
Definition trimmed (input stored : jsstring) : Prop :=
  (exists a b, input = a ++ stored ++ b /\ blank_text a /\ blank_text b)
  /\ (forall c r, stored = c :: r -> Str.is_space c = false)
  /\ (forall r c, stored = r ++ [c] -> Str.is_space c = false).

(** No digit at the head. *)
Definition no_digit_ahead (s : jsstring) : Prop :=
  match s with
  | [] => True
  | c :: _ => Str.is_digit c = false
  end.

(** [contains s sub]: [sub] occurs in [s], unit for unit. *)
Definition contains (s sub : jsstring) : Prop :=
  exists a b, s = a ++ sub ++ b.

(** [kept st st']: going from [st] to [st'] changed neither the
    configuration nor which function [window.fetch] is, and nothing at
    all while [window.fetch] is the native function. *)
Definition kept (st st' : State) : Prop :=
  cfg st' = cfg st /\ proxied st' = proxied st
  /\ (proxied st = false -> st' = st).

(** [settled b]: normalizing the body [b] once more stores [b] again. *)
Definition settled (b : value) : Prop :=
  forall v, JSON_parse b = Normal v -> text_value (JSON.stringify2 v) = b.

(** The four settings of a fetch template, as a record. *)
Definition settings (h m mo cr : value) : list (jsstring * value) :=
  [ (lit "headers", h); (lit "method", m); (lit "mode", mo);
    (lit "credentials", cr) ].

(** What is found under [k] once the headers [hs] were set, in this
    order, on an accumulator that held [h0]. *)
Definition header_after (h0 hs : list (jsstring * value)) (k : jsstring)
  : option value :=
  if Str.eqb k (lit "__proto__") then lookup k h0
  else match lookup k (rev hs) with
       | Some v => Some v
       | None => lookup k h0
       end.


(** [all_units q v]: every code unit of every string and key inside
    [v] passes [q]. *)
Fixpoint all_units (q : N -> bool) (v : value) : bool :=
  match v with
  | VStr s => forallb q s
  | VArr vs => forallb (all_units q) vs
  | VObj ps => forallb (fun kv => forallb q (fst kv) && all_units q (snd kv)) ps
  | _ => true
  end.

(* ================================================================== *)
(** * A concrete platform for the worked examples *)
(* ================================================================== *)

Module Demo.

(** The calls that reached the native primitives, and the replies the
    network still holds, first request first. *)
Record World : Type := {
  requests : list (list value);
  replies : list (completion Response);
  xhr_calls : list (jsstring * list value)
}.

Definition quiet (rs : list (completion Response)) : World :=
  {| requests := []; replies := rs; xhr_calls := [] |}.

Definition nativeFetch (w : World) (args : list value)
  : World * completion Response :=
  match replies w with
  | r :: rest =>
      ({| requests := requests w ++ [args]; replies := rest;
          xhr_calls := xhr_calls w |}, r)
  | [] =>
      ({| requests := requests w ++ [args]; replies := [];
          xhr_calls := xhr_calls w |},
       Throw (Rejection (lit "Failed to fetch")))
  end.

Definition native_xhr (name : jsstring) (w : World) (this : XHR)
  (args : list value) : World * completion value :=
  ({| requests := requests w; replies := replies w;
      xhr_calls := xhr_calls w ++ [(name, args)] |}, Normal VUndefined).

Fixpoint before_query (s : jsstring) : jsstring :=
  match s with
  | [] => []
  | c :: s' => if N.eqb c 63 then [] else c :: before_query s'
  end.

Definition number_text (v : number) : jsstring :=
  match v with
  | NaN => lit "NaN"
  | Int z => Str.of_Z z
  end.

(** A stand-in for the URL interface, right on the absolute URLs of the
    examples, whose query holds at most the one parameter [name]. *)
Definition url_with_param (u : value) (name : jsstring) (v : number)
  : option jsstring :=
  match u with
  | VStr s =>
      if Str.includes s (lit "://")
      then Some (before_query s ++ 63%N :: name ++ 61%N :: number_text v)
      else None
  | _ => None
  end.

Definition ok (v : value) : completion Response :=
  Normal {| json := Normal v |}.

(** A page on which monitoring is on and the filter is [f]. *)
Definition page (f : jsstring) : State :=
  monitorGQL
    (with_cfg (initial [] (lit "https://x/"))
       {| filter := f; paramName := lit "page"; pageSize := Int 20;
          jsonPath := lit "data.items" |}).

(** The request of the specification's example:
    [fetch("https://x/api/data?page=1", { body: '{"q":1}' })]. *)
Definition example_url : jsstring := lit "https://x/api/data?page=1".

Definition example_call : list value :=
  [VStr example_url;
   VObj [(lit "body", VStr [123; 34; 113; 34; 58; 49; 125]%N)]].

(** An [XMLHttpRequest] after [open("POST", url)] and one header. *)
Definition example_xhr : XHR := {|
  _xhrMethod := VStr (lit "POST");
  _xhrUrl := VStr example_url;
  _xhrHeaders := Some [(lit "Accept", VStr (lit "application/json"))]
|}.

(** The template the example call leaves in the slot: the body is the
    2-space print of [{"q":1}]. *)
Definition example_template : Template := {|
  url := VStr example_url;
  config :=
    VObj [ (lit "headers", VObj []);
           (lit "method", VStr (lit "GET"));
           (lit "mode", VStr (lit "cors"));
           (lit "credentials", VStr (lit "same-origin"));
           (lit "body",
            VStr [123; 10; 32; 32; 34; 113; 34; 58; 32; 49; 10; 125]%N) ]
|}.

(** A [URL] object: it has an [href], and no [includes] method. *)
Definition url_object : value :=
  VObj [(lit "href", VStr example_url)].

End Demo.

(* ================================================================== *)
(** * Properties *)
(* ================================================================== *)

(** ** Induction on values *)

Section ValueInd.

Variable P : value -> Prop.
Hypothesis Hundef : P VUndefined.
Hypothesis Hnull : P VNull.
Hypothesis Hbool : forall b, P (VBool b).
Hypothesis Hnum : forall d, P (VNum d).
Hypothesis Hstr : forall s, P (VStr s).
Hypothesis Harr : forall vs, Forall P vs -> P (VArr vs).
Hypothesis Hobj : forall ps, Forall (fun kv => P (snd kv)) ps -> P (VObj ps).

Fixpoint value_ind (v : value) : P v :=
  match v with
  | VUndefined => Hundef
  | VNull => Hnull
  | VBool b => Hbool b
  | VNum d => Hnum d
  | VStr s => Hstr s
  | VArr vs =>
      Harr ((fix all (l : list value) : Forall P l :=
               match l with
               | [] => Forall_nil _
               | x :: l' => Forall_cons x (value_ind x) (all l')
               end) vs)
  | VObj ps =>
      Hobj ((fix all (l : list (jsstring * value))
               : Forall (fun kv => P (snd kv)) l :=
               match l with
               | [] => Forall_nil _
               | kv :: l' =>
                   Forall_cons (P := fun kv => P (snd kv)) kv
                     (value_ind (snd kv)) (all l')
               end) ps)
  end.

End ValueInd.

(** ** Equality of strings *)

Lemma Str_eqb_eq (a b : jsstring) : Str.eqb a b = true <-> a = b.
Proof.
  unfold Str.eqb. destruct (list_eq_dec N.eq_dec a b); split; congruence.
Qed.

Lemma Str_eqb_refl (a : jsstring) : Str.eqb a a = true.
Proof. apply Str_eqb_eq. reflexivity. Qed.

Lemma Str_eqb_neq (a b : jsstring) : Str.eqb a b = false <-> a <> b.
Proof.
  unfold Str.eqb. destruct (list_eq_dec N.eq_dec a b); split; congruence.
Qed.

(** ** Frame facts about the capture block *)

Lemma notify_keeps_capture (st : State) (t : Template) :
  firstCapture (fst (notify st t)) = firstCapture st.
Proof.
  unfold notify.
  destruct (bind (get (config t) (lit "headers")) _) as [referer | e]; [ | reflexivity ].
  destruct (status st); [ | reflexivity ].
  destruct (bind (get (config t) (lit "method")) _); reflexivity.
Qed.

Lemma notify_keeps_cfg (st : State) (t : Template) :
  cfg (fst (notify st t)) = cfg st /\ proxied (fst (notify st t)) = proxied st.
Proof.
  unfold notify.
  destruct (bind (get (config t) (lit "headers")) _) as [referer | e];
    [ | split; reflexivity ].
  destruct (status st); [ | split; reflexivity ].
  destruct (bind (get (config t) (lit "method")) _); split; reflexivity.
Qed.

Lemma store_sets_capture (st : State) (t : Template) :
  firstCapture (fst (store st t)) = Some t.
Proof. unfold store. rewrite notify_keeps_capture. reflexivity. Qed.

Lemma store_keeps_cfg (st : State) (t : Template) :
  cfg (fst (store st t)) = cfg st /\ proxied (fst (store st t)) = proxied st.
Proof. unfold store. apply (notify_keeps_cfg (with_capture st (Some t)) t). Qed.

(** The hook changes the stored capture only by storing the template of
    the call. *)
Lemma fetch_hook_capture (st : State) (args : list value) :
  firstCapture (fst (fetch_hook st args)) =
  match fetch_template st args with
  | Normal (Some t) => Some t
  | _ => firstCapture st
  end.
Proof.
  unfold fetch_hook.
  destruct (fetch_template st args) as [[t | ] | e]; try reflexivity.
  apply store_sets_capture.
Qed.

Lemma fetch_hook_keeps_cfg (st : State) (args : list value) :
  cfg (fst (fetch_hook st args)) = cfg st
  /\ proxied (fst (fetch_hook st args)) = proxied st.
Proof.
  unfold fetch_hook.
  destruct (fetch_template st args) as [[t | ] | e];
    try (split; reflexivity).
  apply store_keeps_cfg.
Qed.

(** The keys the body normalizer leaves on a record that has no [body]
    key yet. *)
Lemma normalize_body_keys (body : value) (cleanConfig : list (jsstring * value)) :
  has_key (lit "body") cleanConfig = false ->
  map fst (normalize_body body cleanConfig) =
  map fst cleanConfig ++ (if truthy body then [lit "body"] else []).
Proof.
  intros Hno. unfold normalize_body.
  destruct (truthy body).
  - assert (Hset : forall v, map fst (set_prop (lit "body") v cleanConfig)
                             = map fst cleanConfig ++ [lit "body"]).
    { intros v. unfold set_prop. rewrite Hno.
      change (array_index (lit "body")) with (@None N).
      cbv beta iota. rewrite map_app. reflexivity. }
    destruct (JSON_parse body); apply Hset.
  - rewrite app_nil_r. reflexivity.
Qed.

(** ** C2: the path extractor *)

(** C2 (the code departs from the claim).  The claim has [getValueByPath]
    return [undefined], and never throw, whenever a segment is missing.
    Below a number that is not zero the operator [in] throws instead:
    on [{ a: 1 }] and the path [a.b] the call ends in a [TypeError]. *)
Example getValueByPath_throws_below_a_number :
  getValueByPath (VObj [(lit "a", VNum (Dbl.of_Z 1))]) (lit "a.b")
  = Throw TypeError.
Proof. vm_compute. reflexivity. Qed.

(** ** C5: the page size after a configuration update *)

(** C5, counterexample.  The stored page size is not always positive:
    the input [-5] parses to a number that is truthy, so it is stored. *)
Lemma pageSize_can_be_negative :
  ~ (forall (st : State) (panel : Panel),
        exists z : Z,
          pageSize (cfg (updateConfigFromPanel st panel)) = Int z /\ (0 < z)%Z).
Proof.
  intros H.
  destruct (H (initial [] [])
              {| in_filter := []; in_paramName := []; in_pageSize := lit "-5";
                 in_jsonPath := [] |}) as [z [Hz Hpos]].
  vm_compute in Hz. injection Hz as Hz. subst z. discriminate Hpos.
Qed.

(** C5, amended.  After a configuration update whose page-size input
    reads as a number the code holds exactly (at most 2^53 in magnitude,
    or [NaN]), the stored page size is an integer other than zero: the
    parsed input when that is a non-zero integer (negative ones
    included), and the default 20 when the input parses to [NaN] or
    to 0. *)
Theorem pageSize_after_update (st : State) (panel : Panel) :
  precise (parseInt (in_pageSize panel)) ->
  pageSize (cfg (updateConfigFromPanel st panel)) =
    match parseInt (in_pageSize panel) with
    | NaN => Int 20
    | Int z => if (z =? 0)%Z then Int 20 else Int z
    end
  /\ exists z : Z,
       pageSize (cfg (updateConfigFromPanel st panel)) = Int z
       /\ z <> 0%Z /\ (Z.abs z <= 2 ^ 53)%Z.
Proof.
  unfold updateConfigFromPanel. simpl. intros Hp.
  destruct (parseInt (in_pageSize panel)) as [ | z]; simpl.
  - split; [ reflexivity | exists 20%Z; repeat split; [ discriminate | lia ] ].
  - destruct (Z.eqb_spec z 0) as [-> | Hz]; simpl.
    + split; [ reflexivity | exists 20%Z; repeat split; [ discriminate | lia ] ].
    + split; [ reflexivity | exists z; repeat split; [ exact Hz | exact Hp ] ].
Qed.

(** The input [-5] of the counterexample: it is stored as it is. *)
Lemma pageSize_after_update_witness :
  pageSize (cfg (updateConfigFromPanel (initial [] [])
                   {| in_filter := []; in_paramName := [];
                      in_pageSize := lit "-5"; in_jsonPath := [] |}))
  = Int (-5).
Proof.
  refine (proj1 (@pageSize_after_update (initial [] [])
                   {| in_filter := []; in_paramName := [];
                      in_pageSize := lit "-5"; in_jsonPath := [] |} _)).
  simpl. lia.
Defined.

(** ** C3: the empty filter *)

(** C3, counterexample.  With the empty filter the request of the
    specification's example matches on neither path. *)
Lemma empty_filter_matches_nothing :
  fetch_template (Demo.page []) Demo.example_call = Normal None
  /\ xhr_template (Demo.page []) Demo.example_xhr VUndefined = Normal None.
Proof. split; vm_compute; reflexivity. Qed.

(** C3, amended.  When the configured filter is the empty string no call
    matches on either path: the test of the filter itself fails before
    the substring test is reached, no template is built, and both hooks
    leave the page state as it was. *)
Theorem empty_filter_never_captures
  (World : Type)
  (send : World -> XHR -> list value -> World * completion value)
  (st : State) (w : World) (this : XHR) (args : list value) :
  filter (cfg st) = [] ->
  (forall t, fetch_template st args <> Normal (Some t))
  /\ fst (fetch_hook st args) = st
  /\ xhr_template st this (arg 0 args) = Normal None
  /\ XHR_send send st w this args
     = (st, fst (send w this args), snd (send w this args)).
Proof.
  intros Hf.
  assert (Hx : xhr_template st this (arg 0 args) = Normal None).
  { unfold xhr_template. rewrite Hf. destruct (truthy (_xhrUrl this)); reflexivity. }
  assert (Hno : forall t, fetch_template st args <> Normal (Some t)).
  { intros t. unfold fetch_template. rewrite Hf.
    destruct (match arg 0 args with VStr _ => Normal (arg 0 args)
              | _ => get (arg 0 args) (lit "url") end); simpl; discriminate. }
  repeat split.
  - exact Hno.
  - unfold fetch_hook.
    destruct (fetch_template st args) as [[t | ] | e]; try reflexivity.
    exfalso. exact (Hno t eq_refl).
  - exact Hx.
  - unfold XHR_send. rewrite Hx. destruct (send w this args). reflexivity.
Qed.

Lemma empty_filter_never_captures_witness :
  filter (cfg (Demo.page [])) = []
  /\ fst (fetch_hook (Demo.page []) Demo.example_call) = Demo.page [].
Proof.
  split; [ reflexivity | ].
  apply (empty_filter_never_captures (Demo.native_xhr (lit "send"))
           (Demo.page []) (Demo.quiet []) Demo.example_xhr Demo.example_call).
  reflexivity.
Defined.

(** ** C4: the shape of a template captured from an XHR *)

Lemma lookup_snoc (k k' : jsstring) (v : value) (l : list (jsstring * value)) :
  lookup k (l ++ [(k', v)]) =
  match lookup k l with
  | Some x => Some x
  | None => if Str.eqb k' k then Some v else None
  end.
Proof.
  induction l as [ | [k0 v0] l IH]; simpl.
  - reflexivity.
  - destruct (Str.eqb k0 k); [ reflexivity | exact IH ].
Qed.

(** What the body normalizer leaves under each key of a record that has
    no [body] key yet. *)
Lemma normalize_body_lookup (body : value) (cleanConfig : list (jsstring * value))
  (k : jsstring) :
  has_key (lit "body") cleanConfig = false ->
  lookup k (normalize_body body cleanConfig) =
  match lookup k cleanConfig with
  | Some x => Some x
  | None =>
      if Str.eqb (lit "body") k && truthy body then
        Some match JSON_parse body with
             | Normal bodyObj => text_value (JSON.stringify2 bodyObj)
             | Throw _ => body
             end
      else None
  end.
Proof.
  intros Hno. unfold normalize_body.
  assert (Hset : forall v, set_prop (lit "body") v cleanConfig
                           = cleanConfig ++ [(lit "body", v)]).
  { intros v. unfold set_prop. rewrite Hno. reflexivity. }
  destruct (truthy body).
  - rewrite andb_true_r.
    destruct (JSON_parse body); rewrite Hset, lookup_snoc; reflexivity.
  - rewrite andb_false_r. destruct (lookup k cleanConfig); reflexivity.
Qed.

(** C4, counterexample.  The template captured from the XHR of the
    example has neither a [mode] nor a [credentials] key, while the
    fetch path stores [mode: "cors"] for the same URL. *)
Lemma xhr_config_lacks_mode :
  exists t : Template,
    xhr_template (Demo.page (lit "api/data")) Demo.example_xhr VUndefined
    = Normal (Some t)
    /\ get (config t) (lit "mode") = Normal VUndefined
    /\ get (config t) (lit "credentials") = Normal VUndefined
    /\ exists t' : Template,
         fetch_template (Demo.page (lit "api/data")) [VStr Demo.example_url]
         = Normal (Some t')
         /\ get (config t') (lit "mode") = Normal (VStr (lit "cors")).
Proof.
  eexists. split; [ vm_compute; reflexivity | ].
  split; [ vm_compute; reflexivity | ].
  split; [ vm_compute; reflexivity | ].
  eexists. split; vm_compute; reflexivity.
Qed.

(** C4, amended.  Every capture made through the XHR path stores a
    template whose config is the record [{headers, method, body?}]:
    [headers] is the accumulated header object (empty when no header was
    set), [method] defaults to [GET], [body] is present exactly when a
    truthy raw body was supplied (pretty-printed when it parses as JSON,
    raw otherwise), and there is no [mode] and no [credentials] key. *)
Theorem xhr_template_shape (st : State) (this : XHR) (body : value)
  (t : Template) :
  xhr_template st this body = Normal (Some t) ->
  url t = _xhrUrl this
  /\ exists ps : list (jsstring * value),
       config t = VObj ps
       /\ map fst ps = [lit "headers"; lit "method"]
                       ++ (if truthy body then [lit "body"] else [])
       /\ lookup (lit "headers") ps
          = Some (VObj match _xhrHeaders this with Some h => h | None => [] end)
       /\ lookup (lit "method") ps
          = Some (or_else (_xhrMethod this) (VStr (lit "GET")))
       /\ lookup (lit "body") ps
          = (if truthy body
             then Some match JSON_parse body with
                       | Normal bodyObj => text_value (JSON.stringify2 bodyObj)
                       | Throw _ => body
                       end
             else None)
       /\ lookup (lit "mode") ps = None
       /\ lookup (lit "credentials") ps = None.
Proof.
  unfold xhr_template. intros H.
  destruct (if truthy (_xhrUrl this) then _ else _) as [[ | ] | e];
    simpl in H; try discriminate.
  injection H as <-. simpl.
  split; [ reflexivity | ].
  eexists. split; [ reflexivity | ].
  split; [ apply normalize_body_keys; reflexivity | ].
  repeat split; rewrite normalize_body_lookup by reflexivity;
    reflexivity.
Qed.

Lemma xhr_template_shape_witness :
  exists t : Template,
    xhr_template (Demo.page (lit "api/data")) Demo.example_xhr VUndefined
    = Normal (Some t)
    /\ url t = _xhrUrl Demo.example_xhr.
Proof.
  eexists. split; [ vm_compute; reflexivity | ].
  apply (@xhr_template_shape (Demo.page (lit "api/data")) Demo.example_xhr
           VUndefined).
  vm_compute. reflexivity.
Defined.

(** The fetch path, for comparison: its config always has the four keys
    [headers], [method], [mode], [credentials], then [body] for a truthy
    raw body. *)
Lemma fetch_template_shape (st : State) (args : list value) (t : Template) :
  fetch_template st args = Normal (Some t) ->
  exists ps : list (jsstring * value),
    config t = VObj ps
    /\ map fst ps = [lit "headers"; lit "method"; lit "mode"; lit "credentials"]
                    ++ match get (match arg 1 args with
                                  | VUndefined => VObj []
                                  | c => c
                                  end) (lit "body") with
                       | Normal body => if truthy body then [lit "body"] else []
                       | Throw _ => []
                       end.
Proof.
  unfold fetch_template. intros H.
  destruct (match arg 0 args with VStr _ => _ | _ => _ end) as [u | e];
    [ simpl in H | discriminate ].
  destruct (match filter (cfg st) with [] => _ | _ => _ end) as [[ | ] | e];
    simpl in H; try discriminate.
  set (c := match arg 1 args with VUndefined => VObj [] | c => c end) in *.
  destruct (get c (lit "headers")); simpl in H; [ | discriminate ].
  destruct (get c (lit "method")); simpl in H; [ | discriminate ].
  destruct (get c (lit "mode")); simpl in H; [ | discriminate ].
  destruct (get c (lit "credentials")); simpl in H; [ | discriminate ].
  destruct (get c (lit "body")) as [body | e]; simpl in H; [ | discriminate ].
  injection H as <-. simpl.
  eexists. split; [ reflexivity | ].
  apply normalize_body_keys. reflexivity.
Qed.

(** ** C8: the single slot *)

(** C8.  A capture replaces the stored template as a whole.  On either
    path the template of a matching call is computed without looking at
    the stored one (here: in the state whose slot is empty), and after
    the call the slot holds exactly that template; a call that does not
    match, or whose matching throws, leaves the slot as it was. *)
Theorem second_capture_replaces
  (World : Type)
  (send : World -> XHR -> list value -> World * completion value)
  (st : State) (first : option Template) (w : World) (this : XHR)
  (args : list value) :
  firstCapture (fst (fetch_hook (with_capture st first) args))
  = match fetch_template (with_capture st None) args with
    | Normal (Some second) => Some second
    | _ => first
    end
  /\ firstCapture (fst (fst (XHR_send send (with_capture st first) w this args)))
     = match xhr_template (with_capture st None) this (arg 0 args) with
       | Normal (Some second) => Some second
       | _ => first
       end.
Proof.
  split.
  - rewrite fetch_hook_capture. reflexivity.
  - unfold XHR_send.
    change (xhr_template (with_capture st first) this (arg 0 args))
      with (xhr_template (with_capture st None) this (arg 0 args)).
    destruct (xhr_template (with_capture st None) this (arg 0 args))
      as [[second | ] | e].
    + pose proof (store_sets_capture (with_capture st first) second) as Hs.
      destruct (store (with_capture st first) second) as [st' [[] | e]];
        simpl in Hs |- *.
      * destruct (send w this args). exact Hs.
      * exact Hs.
    + destruct (send w this args). reflexivity.
    + reflexivity.
Qed.

(** ** C1: interception never stands in the way of the real call *)

(** The fetch path keeps its promise: whatever the hook does, the native
    [fetch] is called with the caller's arguments and its outcome is
    handed back. *)
Lemma proxy_apply_performs_the_call
  (World : Type)
  (nativeFetch : World -> list value -> World * completion Response)
  (st : State) (w : World) (args : list value) :
  snd (fst (proxy_apply nativeFetch st w args)) = fst (nativeFetch w args)
  /\ snd (proxy_apply nativeFetch st w args) = snd (nativeFetch w args).
Proof.
  unfold proxy_apply. destruct (nativeFetch w args). split; reflexivity.
Qed.

(** C1 (the code departs from the claim).  The capture block of [send]
    has no [try] around it.  An XHR opened with a [URL] object, which
    the native [open] accepts, makes [this._xhrUrl.includes] a call of
    [undefined]: [send] throws a [TypeError], and the native [send] is
    never reached (no call is recorded in the world). *)
Example xhr_send_blocked_by_url_object :
  XHR_send (Demo.native_xhr (lit "send"))
    (Demo.page (lit "api/data")) (Demo.quiet [])
    {| _xhrMethod := VStr (lit "GET"); _xhrUrl := Demo.url_object;
       _xhrHeaders := Some [] |} [VNull]
  = (Demo.page (lit "api/data"), Demo.quiet [], Throw TypeError).
Proof. vm_compute. reflexivity. Qed.

(** ** C9: the schedule of a collection *)

Section Collector.

Variable World : Type.
Variable nativeFetch : World -> list value -> World * completion Response.
Variable url_with_param : value -> jsstring -> number -> option jsstring.

Lemma pages_events (count k : nat) (startValue pageSize : number)
  (st : State) (w : World) (res : list value) (log : list event) :
  events (pages nativeFetch url_with_param count (Z.of_nat k)
            startValue pageSize st w res log)
  = log ++ schedule_from startValue pageSize k count.
Proof.
  revert k st w res log.
  induction count as [ | count IH]; intros k st w res log.
  - unfold schedule_from. simpl. rewrite app_nil_r. reflexivity.
  - cbn [pages].
    destruct (executeRequest nativeFetch url_with_param st w
                (page_value startValue pageSize (Z.of_nat k)))
      as [[st' w'] r].
    replace (Z.of_nat k + 1)%Z with (Z.of_nat (S k)) by lia.
    rewrite IH. unfold schedule_from. cbn [seq flat_map].
    destruct (0 <? Z.of_nat k)%Z; rewrite <- !app_assoc; reflexivity.
Qed.




(** The events of a whole collection. *)
Lemma collectAndDownload_events (st : State) (w : World)
  (startValue totalPages : number) :
  events (collectAndDownload nativeFetch url_with_param st w
            startValue totalPages)
  = match firstCapture st with
    | None => []
    | Some _ =>
        schedule startValue (pageSize (cfg st)) (iterations totalPages)
        ++ match result (collectAndDownload nativeFetch url_with_param st w
                           startValue totalPages) with
           | [] => []
           | data => [Download (lit "data.json") data]
           end
    end.
Proof.
  unfold collectAndDownload.
  destruct (firstCapture st); [ | reflexivity ].
  pose proof (pages_events (iterations totalPages) 0 startValue
                (pageSize (cfg st)) st w [] []) as He.
  change (Z.of_nat 0) with 0%Z in He. simpl app in He.
  destruct (result (pages nativeFetch url_with_param (iterations totalPages)
                      0 startValue (pageSize (cfg st)) st w [] [])) eqn:Er.
  - rewrite Er. rewrite He. rewrite app_nil_r. reflexivity.
  - cbn [events result]. rewrite He. reflexivity.
Qed.

(** The loop calls [executeRequest] once per page value, in order. *)
Lemma pages_calls (count k : nat) (startValue pageSize : number)
  (st : State) (w : World) (res : list value) (log : list event) :
  (final (pages nativeFetch url_with_param count (Z.of_nat k)
            startValue pageSize st w res log),
   world (pages nativeFetch url_with_param count (Z.of_nat k)
            startValue pageSize st w res log))
  = fst (replay_all nativeFetch url_with_param
           (map (fun i => page_value startValue pageSize (Z.of_nat i))
              (seq k count)) st w).
Proof.
  revert k st w res log.
  induction count as [ | count IH]; intros k st w res log; [ reflexivity | ].
  cbn [pages seq map replay_all].
  destruct (executeRequest nativeFetch url_with_param st w
              (page_value startValue pageSize (Z.of_nat k)))
    as [[st' w'] r].
  replace (Z.of_nat k + 1)%Z with (Z.of_nat (S k)) by lia.
  rewrite IH.
  destruct (replay_all nativeFetch url_with_param _ st' w') as [[st'' w''] rs].
  reflexivity.
Qed.

Lemma collectAndDownload_calls (st : State) (w : World) (capture : Template)
  (startValue totalPages : number) :
  firstCapture st = Some capture ->
  (final (collectAndDownload nativeFetch url_with_param st w
            startValue totalPages),
   world (collectAndDownload nativeFetch url_with_param st w
            startValue totalPages))
  = fst (replay_all nativeFetch url_with_param
           (page_values startValue (pageSize (cfg st)) (iterations totalPages))
           st w).
Proof.
  intros Hc. unfold collectAndDownload. rewrite Hc.
  pose proof (pages_calls (iterations totalPages) 0 startValue
                (pageSize (cfg st)) st w [] []) as H.
  change (Z.of_nat 0) with 0%Z in H. unfold page_values.
  destruct (result _); exact H.
Qed.

Lemma schedule_from_succ (startValue pageSize : number) (k n : nat) :
  schedule_from startValue pageSize (S k) n
  = flat_map (fun v => [Sleep 1000; Replay v])
      (map (fun i => page_value startValue pageSize (Z.of_nat i)) (seq (S k) n)).
Proof.
  unfold schedule_from. revert k.
  induction n as [ | n IH]; intros k; [ reflexivity | ].
  cbn [seq flat_map map]. rewrite IH.
  replace (0 <? Z.of_nat (S k))%Z with true by (symmetry; apply Z.ltb_lt; lia).
  reflexivity.
Qed.

Lemma schedule_paced (startValue pageSize : number) (n : nat) :
  schedule startValue pageSize n = paced (page_values startValue pageSize n).
Proof.
  unfold schedule, page_values. destruct n as [ | n]; [ reflexivity | ].
  cbn [seq map paced].
  rewrite <- schedule_from_succ. reflexivity.
Qed.



(** ** C6: failed pages are skipped *)



End Collector.


(** The specification's example: of three pages the second fails (its
    response is not JSON); the other two are collected in page order,
    with nothing in between, and exported. *)
Example page_one_of_three_fails :
  let first := VObj [(lit "data", VObj [(lit "items", VStr (lit "p0"))])] in
  let third := VObj [(lit "data", VObj [(lit "items", VStr (lit "p2"))])] in
  let st := fst (fetch_hook (Demo.page (lit "api/data")) Demo.example_call) in
  let w := Demo.quiet [Demo.ok first;
                       Normal {| json := Throw SyntaxError |};
                       Demo.ok third] in
  let run := collectAndDownload Demo.nativeFetch Demo.url_with_param
               st w (Int 0) (Int 3) in
  result run = [VStr (lit "p0"); VStr (lit "p2")]
  /\ exports (events run)
     = [(lit "data.json", [VStr (lit "p0"); VStr (lit "p2")])]
  /\ map (fun args => arg 0 args) (Demo.requests (world run))
     = [VStr (lit "https://x/api/data?page=0");
        VStr (lit "https://x/api/data?page=20");
        VStr (lit "https://x/api/data?page=40")].
Proof. vm_compute. repeat split; reflexivity. Qed.

(** ** C10: a replay passes through the proxy *)







Section Replay.

Variable World : Type.
Variable nativeFetch : World -> list value -> World * completion Response.
Variable url_with_param : value -> jsstring -> number -> option jsstring.


End Replay.


(** ** C7: the body normalizer and the JSON round trip *)

Module JSONFacts.
Import JSON Text.
Open Scope N_scope.

Lemma skip_ws_blank (ws s : jsstring) :
  blank ws -> skip_ws (ws ++ s) = skip_ws s.
Proof.
  induction 1 as [ | c ws Hc _ IH]; [ reflexivity | ].
  simpl. rewrite Hc. exact IH.
Qed.

Lemma skip_ws_solid (c : N) (s : jsstring) :
  is_ws c = false -> skip_ws (c :: s) = c :: s.
Proof. intros H. simpl. rewrite H. reflexivity. Qed.

Lemma hex_digit_val (n : N) : n < 16 -> hex_val (hex_digit n) = Some n.
Proof.
  intros H. destruct n as [ | p]; [ reflexivity | ].
  do 4 (destruct p as [p | p | ]; try reflexivity); exfalso; lia.
Qed.

Lemma hex4_escape (c : N) :
  c < 65536 ->
  hex4 (hex_digit (c / 4096)) (hex_digit ((c / 256) mod 16))
       (hex_digit ((c / 16) mod 16)) (hex_digit (c mod 16)) = Some c.
Proof.
  intros H. unfold hex4.
  rewrite !hex_digit_val.
  - f_equal.
    pose proof (N.Div0.div_mod c 16) as H1.
    pose proof (N.Div0.div_mod (c / 16) 16) as H2.
    pose proof (N.Div0.div_mod (c / 16 / 16) 16) as H3.
    replace (c / 256) with (c / 16 / 16) by (rewrite N.Div0.div_div; reflexivity).
    replace (c / 4096) with (c / 16 / 16 / 16)
      by (rewrite !N.Div0.div_div; reflexivity).
    lia.
  - apply N.mod_lt. discriminate.
  - apply N.mod_lt. discriminate.
  - apply N.mod_lt. discriminate.
  - apply N.Div0.div_lt_upper_bound. exact H.
Qed.

Lemma read_escape_u (c : N) (x : jsstring) :
  c < 65536 -> read_string (escape_u c ++ x) = push c (read_string x).
Proof.
  intros H. unfold escape_u. cbn [app read_string].
  change (92 =? 34) with false. change (92 =? 92) with true.
  change (117 =? 117) with true. cbv beta iota.
  rewrite hex4_escape by exact H. reflexivity.
Qed.

Lemma read_plain (c : N) (x : jsstring) :
  (c =? 34) = false -> (c =? 92) = false -> (c <? 32) = false ->
  read_string (c :: x) = push c (read_string x).
Proof.
  intros H1 H2 H3. cbn [read_string]. rewrite H1, H2, H3. reflexivity.
Qed.

Lemma read_escape_unit (c : N) (x : jsstring) :
  read_string (escape_unit c ++ x) = push c (read_string x).
Proof.
  unfold escape_unit.
  destruct (N.eqb_spec c 8) as [-> | _]; [ reflexivity | ].
  destruct (N.eqb_spec c 9) as [-> | _]; [ reflexivity | ].
  destruct (N.eqb_spec c 10) as [-> | _]; [ reflexivity | ].
  destruct (N.eqb_spec c 12) as [-> | _]; [ reflexivity | ].
  destruct (N.eqb_spec c 13) as [-> | _]; [ reflexivity | ].
  destruct (N.eqb_spec c 34) as [-> | H34]; [ reflexivity | ].
  destruct (N.eqb_spec c 92) as [-> | H92]; [ reflexivity | ].
  destruct (c <? 32) eqn:H32.
  - apply read_escape_u. apply N.ltb_lt in H32. lia.
  - apply read_plain; [ apply N.eqb_neq; exact H34
                      | apply N.eqb_neq; exact H92 | exact H32 ].
Qed.

Lemma read_surrogate (c : N) (x : jsstring) :
  is_high c || is_low c = true ->
  read_string (c :: x) = push c (read_string x)
  /\ read_string (escape_u c ++ x) = push c (read_string x).
Proof.
  unfold is_high, is_low. intros H.
  assert (Hr : 55296 <= c <= 57343).
  { apply orb_true_iff in H.
    destruct H as [H | H]; apply andb_true_iff in H; destruct H as [H1 H2];
      apply N.leb_le in H1, H2; lia. }
  split.
  - apply read_plain; [ apply N.eqb_neq | apply N.eqb_neq | apply N.ltb_ge ]; lia.
  - apply read_escape_u. lia.
Qed.

Lemma read_string_quote_upto (n : nat) (s rest : jsstring) :
  (length s <= n)%nat ->
  read_string (quote_units s ++ 34 :: rest) = Some (s, rest).
Proof.
  revert s. induction n as [ | n IH]; intros s Hlen.
  - destruct s; [ reflexivity | simpl in Hlen; lia ].
  - destruct s as [ | c r]; [ reflexivity | ].
    simpl in Hlen. cbn [quote_units].
    destruct (is_high c) eqn:Hh.
    + assert (Hs : is_high c || is_low c = true) by (rewrite Hh; reflexivity).
      destruct (@read_surrogate c (quote_units r ++ 34 :: rest) Hs)
        as [_ Hesc].
      destruct r as [ | d r'].
      * rewrite (proj2 (@read_surrogate c (34 :: rest) Hs)). reflexivity.
      * destruct (is_low d) eqn:Hl.
        -- cbn [app].
           rewrite (proj1 (@read_surrogate c _ Hs)).
           assert (Hd : is_high d || is_low d = true)
             by (rewrite Hl; apply orb_true_r).
           rewrite (proj1 (@read_surrogate d _ Hd)).
           rewrite IH by (simpl in Hlen; lia). reflexivity.
        -- rewrite <- app_assoc, Hesc, IH by lia. reflexivity.
    + destruct (is_low c) eqn:Hl.
      * assert (Hs : is_high c || is_low c = true)
          by (rewrite Hl; apply orb_true_r).
        rewrite <- app_assoc, (proj2 (@read_surrogate c _ Hs)), IH by lia.
        reflexivity.
      * rewrite <- app_assoc, read_escape_unit, IH by lia. reflexivity.
Qed.

Lemma read_string_quote (s rest : jsstring) :
  read_string (quote_units s ++ 34 :: rest) = Some (s, rest).
Proof. apply (@read_string_quote_upto (length s)). apply Nat.le_refl. Qed.


(** *** Number tokens *)

Lemma span_digits_spec (s d r : jsstring) :
  Str.span_digits s = (d, r) ->
  s = d ++ r /\ forallb Str.is_digit d = true.
Proof.
  revert d r. induction s as [ | c s IH]; intros d r H; simpl in H.
  - injection H as <- <-. split; reflexivity.
  - destruct (Str.is_digit c) eqn:Hc.
    + destruct (Str.span_digits s) as [d' r'].
      injection H as <- <-.
      destruct (IH d' r' eq_refl) as [-> Hd].
      split; [ reflexivity | simpl; rewrite Hc; exact Hd ].
    + injection H as <- <-. split; reflexivity.
Qed.

Lemma digits_are_number_chars (d : jsstring) :
  forallb Str.is_digit d = true -> forallb is_number_char d = true.
Proof.
  induction d as [ | c d IH]; [ reflexivity | ].
  simpl. intros H. apply andb_true_iff in H. destruct H as [Hc Hd].
  unfold is_number_char at 1. rewrite Hc. simpl. apply IH. exact Hd.
Qed.

Lemma expect_spec (c : N) (s r : jsstring) :
  expect c s = Some r -> s = c :: r.
Proof.
  destruct s as [ | x s]; [ discriminate | ].
  simpl. destruct (N.eqb_spec x c) as [-> | _]; [ | discriminate ].
  intros H. injection H as ->. reflexivity.
Qed.

Lemma read_exponent_chars (t : jsstring) (x : Z) :
  read_exponent t = Some x -> forallb is_number_char t = true.
Proof.
  destruct t as [ | c t1]; [ reflexivity | ].
  unfold read_exponent.
  destruct ((c =? 101) || (c =? 69)) eqn:Hc; [ | discriminate ].
  assert (Hcn : is_number_char c = true).
  { unfold is_number_char. apply orb_true_iff in Hc.
    destruct Hc as [Hc | Hc]; rewrite Hc; rewrite ?orb_true_r; reflexivity. }
  unfold read_sign.
  destruct (expect 45 t1) as [t2 | ] eqn:E1.
  - apply expect_spec in E1. subst t1.
    destruct (Str.span_digits t2) as [ds r] eqn:Es.
    destruct ds as [ | d ds]; [ discriminate | ].
    destruct r; [ | discriminate ]. intros _.
    apply span_digits_spec in Es. destruct Es as [-> Hd].
    rewrite app_nil_r.
    pose proof (@digits_are_number_chars _ Hd) as Hn.
    cbn [forallb] in Hn |- *. rewrite Hcn, Hn. reflexivity.
  - destruct (expect 43 t1) as [t2 | ] eqn:E2.
    + apply expect_spec in E2. subst t1.
      destruct (Str.span_digits t2) as [ds r] eqn:Es.
      destruct ds as [ | d ds]; [ discriminate | ].
      destruct r; [ | discriminate ]. intros _.
      apply span_digits_spec in Es. destruct Es as [-> Hd].
      rewrite app_nil_r.
      pose proof (@digits_are_number_chars _ Hd) as Hn.
      cbn [forallb] in Hn |- *. rewrite Hcn, Hn. reflexivity.
    + destruct (Str.span_digits t1) as [ds r] eqn:Es.
      destruct ds as [ | d ds]; [ discriminate | ].
      destruct r; [ | discriminate ]. intros _.
      apply span_digits_spec in Es. destruct Es as [-> Hd].
      rewrite app_nil_r.
      pose proof (@digits_are_number_chars _ Hd) as Hn.
      cbn [forallb] in Hn |- *. rewrite Hcn, Hn. reflexivity.
Qed.

(** A token that reads as a number consists of number characters and
    starts with a digit or a minus sign. *)
Lemma read_number_chars (tok : jsstring) (d : spec_float) :
  read_number tok = Some d ->
  forallb is_number_char tok = true
  /\ exists c t, tok = c :: t /\ (Str.is_digit c = true \/ c = 45).
Proof.
  unfold read_number, read_minus.
  assert (Hbody : forall t1,
    (let '(ip, t2) := Str.span_digits t1 in
     match ip with
     | [] => None
     | d0 :: more =>
         if (d0 =? 48) && negb match more with [] => true | _ => false end
         then None
         else
           let '(fp, t3) := read_fraction t2 in
           match fp with
           | Some [] => None
           | _ =>
               match read_exponent t3 with
               | Some x =>
                   Some (Dbl.of_decimal false
                           (Str.digits_val (ip ++ match fp with Some f => f | None => [] end))
                           (x - Z.of_nat (length match fp with Some f => f | None => [] end)))
               | None => None
               end
           end
     end) <> None ->
    forallb is_number_char t1 = true
    /\ exists c t, t1 = c :: t /\ Str.is_digit c = true).
  { intros t1.
    destruct (Str.span_digits t1) as [ip t2] eqn:Es.
    apply span_digits_spec in Es. destruct Es as [-> Hip].
    destruct ip as [ | d0 more]; [ congruence | ].
    destruct ((d0 =? 48) && _); [ congruence | ].
    assert (Hd0 : Str.is_digit d0 = true).
    { simpl in Hip. apply andb_true_iff in Hip. tauto. }
    intros H. split; [ | exists d0, (more ++ t2); split; [ reflexivity | exact Hd0 ] ].
    rewrite forallb_app. rewrite (@digits_are_number_chars _ Hip). simpl.
    unfold read_fraction in H.
    destruct (expect 46 t2) as [t' | ] eqn:E46.
    - apply expect_spec in E46. subst t2.
      destruct (Str.span_digits t') as [f r] eqn:Ef.
      apply span_digits_spec in Ef. destruct Ef as [-> Hf].
      destruct f as [ | f0 f]; [ congruence | ].
      destruct (read_exponent r) as [x | ] eqn:Ex; [ | congruence ].
      cbn [forallb]. change (is_number_char 46) with true.
      rewrite forallb_app, (@digits_are_number_chars _ Hf).
      rewrite (@read_exponent_chars _ _ Ex). reflexivity.
    - destruct (read_exponent t2) as [x | ] eqn:Ex; [ | congruence ].
      exact (@read_exponent_chars _ _ Ex). }
  destruct (expect 45 tok) as [t1 | ] eqn:E.
  - apply expect_spec in E. subst tok. intros H.
    destruct (Hbody t1) as [Hc _].
    { intros Hn. revert H.
      destruct (Str.span_digits t1) as [ip t2].
      destruct ip as [ | d0 more]; [ discriminate | ].
      destruct ((d0 =? 48) && _); [ discriminate | ].
      destruct (read_fraction t2) as [fp t3].
      destruct fp as [[ | f0 f] | ]; try discriminate;
        destruct (read_exponent t3); discriminate. }
    split; [ simpl; exact Hc | ].
    exists 45, t1. split; [ reflexivity | right; reflexivity ].
  - intros H.
    destruct (Hbody tok) as [Hc [c [t [-> Hd]]]].
    { intros Hn. revert H.
      destruct (Str.span_digits tok) as [ip t2].
      destruct ip as [ | d0 more]; [ discriminate | ].
      destruct ((d0 =? 48) && _); [ discriminate | ].
      destruct (read_fraction t2) as [fp t3].
      destruct fp as [[ | f0 f] | ]; try discriminate;
        destruct (read_exponent t3); discriminate. }
    split; [ exact Hc | ].
    exists c, t. split; [ reflexivity | left; exact Hd ].
Qed.

Lemma span_number_app (tok rest : jsstring) :
  forallb is_number_char tok = true -> delimited rest ->
  span_number (tok ++ rest) = (tok, rest).
Proof.
  intros Ht Hr. induction tok as [ | c tok IH].
  - destruct rest as [ | c rest]; [ reflexivity | ].
    simpl in *. rewrite Hr. reflexivity.
  - simpl in Ht. apply andb_true_iff in Ht. destruct Ht as [Hc Ht].
    simpl. rewrite Hc, (IH Ht). reflexivity.
Qed.


(** *** The text of a value *)

Lemma ser_arr (gap indent : jsstring) (vs : list value) :
  ser gap indent (VArr vs)
  = Some (wrap 91 93 gap indent (indent ++ gap)
            (map (text_of gap (indent ++ gap)) vs)).
Proof. reflexivity. Qed.

Lemma ser_obj (gap indent : jsstring) (ps : list (jsstring * value)) :
  Forall (fun kv => json_data (snd kv)) ps ->
  ser gap indent (VObj ps)
  = Some (wrap 123 125 gap indent (indent ++ gap)
            (map (fun kv => member gap (fst kv)
                              (text_of gap (indent ++ gap) (snd kv))) ps)).
Proof.
  intros Hd. cbn [ser]. do 2 f_equal.
  induction Hd as [ | [k x] ps Hx _ IH]; [ reflexivity | ].
  cbn [map fst snd] in Hx |- *. rewrite <- IH. unfold text_of.
  destruct Hx; try reflexivity. destruct b; reflexivity.
Qed.

Lemma join_cons (sep p q : jsstring) (parts : list jsstring) :
  join sep (p :: q :: parts) = p ++ sep ++ join sep (q :: parts).
Proof. reflexivity. Qed.

Lemma wrap_cons (opening closing : N) (gap indent inner p : jsstring)
  (parts : list jsstring) :
  wrap opening closing gap indent inner (p :: parts)
  = opening :: sep_of gap inner ++ join (44 :: sep_of gap inner) (p :: parts)
    ++ sep_of gap indent ++ [closing].
Proof.
  unfold wrap, sep_of. destruct gap; reflexivity.
Qed.

Lemma blank_sep (gap inner : jsstring) :
  blank inner -> blank (sep_of gap inner).
Proof.
  intros H. unfold sep_of. destruct gap; [ constructor | ].
  constructor; [ reflexivity | exact H ].
Qed.

Lemma blank_app (a b : jsstring) : blank a -> blank b -> blank (a ++ b).
Proof. intros Ha Hb. apply Forall_app. split; assumption. Qed.

Lemma ser_head (gap indent : jsstring) (v : value) (t : jsstring) :
  json_data v -> numbers_survive v = true ->
  ser gap indent v = Some t ->
  exists c t', t = c :: t' /\ opens c.
Proof.
  intros Hd Hn Hs. destruct Hd.
  - injection Hs as <-. eexists _, _. split; [ reflexivity | ].
    repeat split; discriminate.
  - destruct b; injection Hs as <-; eexists _, _;
      (split; [ reflexivity | repeat split; discriminate ]).
  - cbn [ser] in Hs. injection Hs as <-.
    cbn [numbers_survive] in Hn. unfold number_survives in Hn.
    destruct (read_number (number_text d)) as [d' | ] eqn:E; [ | discriminate ].
    destruct (read_number_chars _ E) as [_ [c [t [-> Hc]]]].
    exists c, t. split; [ reflexivity | ].
    unfold opens, is_ws.
    destruct Hc as [Hc | ->]; [ | repeat split; discriminate ].
    unfold Str.is_digit in Hc. apply andb_true_iff in Hc.
    destruct Hc as [H1 H2]. apply N.leb_le in H1, H2.
    repeat split; try lia.
    repeat (apply orb_false_iff; split); apply N.eqb_neq; lia.
  - injection Hs as <-. eexists _, _. split; [ reflexivity | ].
    repeat split; discriminate.
  - rewrite ser_arr in Hs. injection Hs as <-.
    unfold wrap. destruct vs; [ | destruct gap ];
      eexists _, _; (split; [ reflexivity | repeat split; discriminate ]).
  - rewrite ser_obj in Hs by assumption. injection Hs as <-.
    unfold wrap. destruct ps; [ | destruct gap ];
      eexists _, _; (split; [ reflexivity | repeat split; discriminate ]).
Qed.


Lemma dbl_eqb_eq (x y : spec_float) : Dbl.eqb x y = true -> x = y.
Proof.
  destruct x as [a | a | | a m e], y as [b | b | | b m' e']; simpl;
    try discriminate; try reflexivity.
  - intros H. apply Bool.eqb_prop in H. congruence.
  - intros H. apply Bool.eqb_prop in H. congruence.
  - intros H. apply andb_true_iff in H. destruct H as [H He].
    apply andb_true_iff in H. destruct H as [Hs Hm].
    apply Bool.eqb_prop in Hs. apply Pos.eqb_eq in Hm. apply Z.eqb_eq in He.
    congruence.
Qed.

Lemma ser_some (gap indent : jsstring) (v : value) :
  json_data v -> ser gap indent v = Some (text_of gap indent v).
Proof.
  intros Hd. unfold text_of. destruct Hd; try reflexivity.
  destruct b; reflexivity.
Qed.

Lemma parse_value_blank (fuel : nat) (ws s : jsstring) :
  blank ws -> parse_value fuel (ws ++ s) = parse_value fuel s.
Proof.
  intros H. destruct fuel; [ reflexivity | ].
  cbn [parse_value]. rewrite (@skip_ws_blank ws s H). reflexivity.
Qed.

Lemma blank_not_number (c : N) : is_ws c = true -> is_number_char c = false.
Proof.
  unfold is_ws. intros H.
  repeat (apply orb_true_iff in H; destruct H as [H | H]);
    apply N.eqb_eq in H; subst c; reflexivity.
Qed.

Lemma delimited_closing (close rest : jsstring) (c : N) :
  blank close -> is_number_char c = false -> delimited (close ++ c :: rest).
Proof.
  intros Hb Hc. destruct Hb as [ | x close Hx _]; simpl.
  - exact Hc.
  - apply blank_not_number. exact Hx.
Qed.

Lemma parse_value_number (tok rest : jsstring) (d : spec_float) (f : nat) :
  read_number tok = Some d -> delimited rest ->
  parse_value (S f) (tok ++ rest) = Some (VNum d, rest).
Proof.
  intros Hr Hd.
  destruct (read_number_chars _ Hr) as [Hall [c [t [-> Hc]]]].
  assert (Hspan := @span_number_app _ _ Hall Hd).
  assert (Hb : 48 <= c <= 57 \/ c = 45).
  { destruct Hc as [Hc | ->]; [ left | right; reflexivity ].
    unfold Str.is_digit in Hc. apply andb_true_iff in Hc.
    destruct Hc as [H1 H2]. apply N.leb_le in H1, H2. lia. }
  cbn [parse_value].
  assert (Hws : is_ws c = false).
  { unfold is_ws. repeat (apply orb_false_iff; split); apply N.eqb_neq; lia. }
  change ((c :: t) ++ rest) with (c :: t ++ rest) in *.
  rewrite (@skip_ws_solid _ _ Hws).
  replace (c =? 91) with false by (symmetry; apply N.eqb_neq; lia).
  replace (c =? 123) with false by (symmetry; apply N.eqb_neq; lia).
  replace (c =? 34) with false by (symmetry; apply N.eqb_neq; lia).
  assert (Hp : forall x l, x <> c -> Str.prefix (x :: l) (c :: t ++ rest) = false).
  { intros x l Hx. simpl. apply N.eqb_neq in Hx. rewrite Hx. reflexivity. }
  change (lit "true") with [116; 114; 117; 101].
  change (lit "false") with [102; 97; 108; 115; 101].
  change (lit "null") with [110; 117; 108; 108].
  rewrite !Hp by lia.
  rewrite Hspan, Hr. reflexivity.
Qed.

(** *** Arrays and objects *)

Lemma text_nonempty (gap indent : jsstring) (v : value) :
  json_data v -> numbers_survive v = true ->
  exists c t, text_of gap indent v = c :: t /\ opens c.
Proof.
  intros Hd Hn. exact (@ser_head gap indent v _ Hd Hn (@ser_some gap indent v Hd)).
Qed.

Lemma parse_elems_texts (gap inner sep close rest : jsstring)
  (vs : list value) :
  blank sep -> blank close ->
  Forall (reads_back gap) vs -> Forall json_data vs ->
  forallb numbers_survive vs = true -> blank inner ->
  vs <> [] ->
  forall (acc : list value) (f : nat),
    (length (join (44%N :: sep) (map (text_of gap inner) vs)) < f)%nat ->
    parse_elems f (sep ++ join (44 :: sep) (map (text_of gap inner) vs)
                   ++ close ++ 93 :: rest) acc
    = Some (VArr (acc ++ vs), rest).
Proof.
  intros Hsep Hclose Hrb Hd Hn Hinner.
  revert Hrb Hd Hn.
  induction vs as [ | x vs IH]; intros Hrb Hd Hn Hne acc f Hf; [ congruence | ].
  inversion Hrb as [ | ? ? Hx Hrb']; subst.
  inversion Hd as [ | ? ? Hdx Hd']; subst.
  cbn [forallb] in Hn. apply andb_true_iff in Hn. destruct Hn as [Hnx Hn'].
  destruct f as [ | f]; [ lia | ].
  cbn [parse_elems]. rewrite (@parse_value_blank _ _ _ Hsep).
  destruct vs as [ | y vs].
  - cbn [map join] in *.
    rewrite (Hx inner f (close ++ 93 :: rest) Hinner);
      [ | lia | apply delimited_closing; [ exact Hclose | reflexivity ] ].
    rewrite (@skip_ws_blank _ _ Hclose).
    reflexivity.
  - cbn [map] in *. rewrite join_cons in *.
    rewrite length_app in Hf. cbn [length app] in Hf.
    rewrite length_app in Hf.
    rewrite <- !app_assoc. cbn [app].
    rewrite (Hx inner f _ Hinner); [ | lia | reflexivity ].
    rewrite skip_ws_solid by reflexivity.
    change (44 =? 44) with true. cbv beta iota.
    rewrite (IH Hrb' Hd' Hn' ltac:(discriminate) (acc ++ [x]) f ltac:(lia)).
    rewrite <- app_assoc. reflexivity.
Qed.


Lemma sorted_app_before (l1 l2 : list jsstring) (k : jsstring) :
  StronglySorted key_before (l1 ++ k :: l2) ->
  Forall (fun a => key_before a k) l1.
Proof.
  induction l1 as [ | a l1 IH]; intros H; [ constructor | ].
  cbn [app] in H. inversion H as [ | ? ? Hs Hall]; subst.
  constructor; [ | exact (IH Hs) ].
  rewrite Forall_forall in Hall. apply Hall.
  apply in_or_app. right. left. reflexivity.
Qed.

Lemma lookup_before (k : jsstring) (acc : list (jsstring * value)) :
  Forall (fun a => key_before a k) (map fst acc) -> lookup k acc = None.
Proof.
  induction acc as [ | [k' v'] acc IH]; intros H; [ reflexivity | ].
  cbn [map fst] in H. inversion H as [ | ? ? [Hne _] Hrest]; subst.
  cbn [lookup]. rewrite (proj2 (Str_eqb_neq k' k) Hne). exact (IH Hrest).
Qed.

Lemma insert_index_last (i : N) (k : jsstring) (v : value)
  (acc : list (jsstring * value)) :
  array_index k = Some i ->
  Forall (fun a => key_before a k) (map fst acc) ->
  insert_index i k v acc = acc ++ [(k, v)].
Proof.
  intros Hk. induction acc as [ | [k' v'] acc IH]; intros H; [ reflexivity | ].
  cbn [map fst] in H. inversion H as [ | ? ? [_ Hord] Hrest]; subst.
  cbn [insert_index app]. rewrite Hk in Hord.
  destruct (array_index k') as [j | ]; [ | contradiction ].
  rewrite (proj2 (N.leb_le j i) Hord). rewrite (IH Hrest). reflexivity.
Qed.

(** Adding a key that enumerates after all present ones appends it. *)
Lemma set_prop_last (k : jsstring) (v : value) (acc : list (jsstring * value)) :
  Forall (fun a => key_before a k) (map fst acc) ->
  set_prop k v acc = acc ++ [(k, v)].
Proof.
  intros H. unfold set_prop, has_key. rewrite (@lookup_before k acc H).
  destruct (array_index k) as [i | ] eqn:Hk; [ | reflexivity ].
  exact (@insert_index_last i k v acc Hk H).
Qed.

Lemma member_app (gap k t rest : jsstring) :
  member gap k t ++ rest
  = 34 :: quote_units k ++ 34 :: 58 :: space_of gap ++ t ++ rest.
Proof.
  unfold member, quote, space_of.
  destruct gap; cbn [app]; rewrite <- !app_assoc; reflexivity.
Qed.

Lemma member_length (gap k t : jsstring) :
  (length t < length (member gap k t))%nat.
Proof.
  unfold member, quote. destruct gap; cbn [app length];
    rewrite !length_app; cbn [length]; lia.
Qed.

Lemma blank_space (gap : jsstring) : blank (space_of gap).
Proof.
  unfold space_of. destruct gap; [ constructor | ].
  constructor; [ reflexivity | constructor ].
Qed.

Lemma parse_members_texts (gap inner sep close rest : jsstring)
  (ps : list (jsstring * value)) :
  blank sep -> blank close -> blank inner ->
  Forall (fun kv => reads_back gap (snd kv)) ps ->
  Forall (fun kv => json_data (snd kv)) ps ->
  forallb (fun kv => numbers_survive (snd kv)) ps = true ->
  ps <> [] ->
  forall (acc : list (jsstring * value)) (f : nat),
    StronglySorted key_before (map fst (acc ++ ps)) ->
    (length (join (44%N :: sep)
               (map (fun kv => member gap (fst kv)
                                 (text_of gap inner (snd kv))) ps)) < f)%nat ->
    parse_members f
      (sep ++ join (44 :: sep)
                (map (fun kv => member gap (fst kv)
                                  (text_of gap inner (snd kv))) ps)
       ++ close ++ 125 :: rest) acc
    = Some (VObj (acc ++ ps), rest).
Proof.
  intros Hsep Hclose Hinner. 
  induction ps as [ | [k x] ps IH]; intros Hrb Hd Hn Hne acc f Hs Hf;
    [ congruence | ].
  inversion Hrb as [ | ? ? Hx Hrb']; subst.
  inversion Hd as [ | ? ? Hdx Hd']; subst.
  cbn [forallb] in Hn. apply andb_true_iff in Hn. destruct Hn as [Hnx Hn'].
  cbn [fst snd] in *.
  assert (Hset : set_prop k x acc = acc ++ [(k, x)]).
  { apply set_prop_last. rewrite map_app in Hs. cbn [map fst] in Hs.
    exact (@sorted_app_before _ _ _ Hs). }
  destruct f as [ | f]; [ lia | ].
  cbn [parse_members]. rewrite (@skip_ws_blank _ _ Hsep).
  pose proof (member_length gap k (text_of gap inner x)) as Hml.
  destruct ps as [ | [k2 y] ps].
  - cbn [map join fst snd] in *.
    rewrite member_app.
    rewrite skip_ws_solid by reflexivity.
    cbn [expect]. change (34 =? 34) with true. cbv beta iota.
    rewrite read_string_quote.
    rewrite skip_ws_solid by reflexivity.
    cbn [expect]. change (58 =? 58) with true. cbv beta iota.
    rewrite (@parse_value_blank _ _ _ (blank_space gap)).
    rewrite (Hx inner f (close ++ 125 :: rest) Hinner);
      [ | lia | apply delimited_closing; [ exact Hclose | reflexivity ] ].
    rewrite (@skip_ws_blank _ _ Hclose).
    change (125 =? 44) with false. change (125 =? 125) with true.
    cbv beta iota. rewrite Hset. reflexivity.
  - cbn [map fst snd] in *. rewrite join_cons in *.
    rewrite length_app in Hf. cbn [length app] in Hf.
    rewrite length_app in Hf.
    rewrite <- !app_assoc. cbn [app].
    rewrite member_app.
    rewrite skip_ws_solid by reflexivity.
    cbn [expect]. change (34 =? 34) with true. cbv beta iota.
    rewrite read_string_quote.
    rewrite skip_ws_solid by reflexivity.
    cbn [expect]. change (58 =? 58) with true. cbv beta iota.
    rewrite (@parse_value_blank _ _ _ (blank_space gap)).
    rewrite (Hx inner f _ Hinner); [ | lia | reflexivity ].
    rewrite skip_ws_solid by reflexivity.
    change (44 =? 44) with true. cbv beta iota.
    rewrite Hset.
    rewrite (IH Hrb' Hd' Hn' ltac:(discriminate) (acc ++ [(k, x)]) f);
      [ rewrite <- app_assoc; reflexivity
      | rewrite <- app_assoc; exact Hs
      | lia ].
Qed.


Lemma expect_join_none (closing : N) (sep p : jsstring)
  (parts : list jsstring) (x : jsstring) (c : N) (t : jsstring) :
  p = c :: t -> opens c -> closing = 93 \/ closing = 125 ->
  expect closing (skip_ws (join sep (p :: parts) ++ x)) = None.
Proof.
  intros -> [Hws [H93 [H125 _]]] Hc.
  assert (Hne : (c =? closing) = false).
  { apply N.eqb_neq. destruct Hc; congruence. }
  destruct parts; cbn [join app]; rewrite (@skip_ws_solid _ _ Hws);
    cbn [expect]; rewrite Hne; reflexivity.
Qed.

Lemma wrap_length (opening closing : N) (gap indent inner p : jsstring)
  (parts : list jsstring) :
  (length (join (44%N :: sep_of gap inner) (p :: parts)) + 2
   <= length (wrap opening closing gap indent inner (p :: parts)))%nat.
Proof.
  rewrite wrap_cons. cbn [length]. rewrite !length_app. cbn [length]. lia.
Qed.

Lemma wrap_app (opening closing : N) (gap indent inner p : jsstring)
  (parts : list jsstring) (rest : jsstring) :
  wrap opening closing gap indent inner (p :: parts) ++ rest
  = opening :: sep_of gap inner
               ++ join (44 :: sep_of gap inner) (p :: parts)
               ++ sep_of gap indent ++ closing :: rest.
Proof.
  rewrite wrap_cons. cbn [app]. rewrite <- !app_assoc. reflexivity.
Qed.

Lemma reads_back_all (gap : jsstring) :
  blank gap ->
  forall v : value,
    json_data v -> numbers_survive v = true -> reads_back gap v.
Proof.
  intros Hgap v.
  induction v as [ | | b | d | s | vs IH | ps IH] using value_ind;
    intros Hd Hn indent fuel rest Hind Hlen Hrest.
  - inversion Hd.
  - destruct fuel as [ | f]; [ cbn in Hlen; lia | ]. reflexivity.
  - destruct fuel as [ | f]; [ destruct b; cbn in Hlen; lia | ].
    destruct b; reflexivity.
  - unfold text_of in *. cbn [ser] in *.
    cbn [numbers_survive] in Hn. unfold number_survives in Hn.
    destruct (read_number (number_text d)) as [d' | ] eqn:E; [ | discriminate ].
    apply dbl_eqb_eq in Hn. subst d'.
    destruct fuel as [ | f].
    + destruct (read_number_chars _ E) as [_ [c [t [Ht _]]]].
      rewrite Ht in Hlen. cbn in Hlen. lia.
    + exact (@parse_value_number _ _ _ f E Hrest).
  - unfold text_of in *. cbn [ser] in *. unfold quote in *.
    destruct fuel as [ | f]; [ cbn in Hlen; lia | ].
    cbn [app parse_value]. rewrite skip_ws_solid by reflexivity.
    change (34 =? 91) with false. change (34 =? 123) with false.
    change (34 =? 34) with true. cbv beta iota.
    rewrite <- app_assoc. cbn [app]. rewrite read_string_quote. reflexivity.
  - inversion Hd as [ | | | | ? Hds | ]; subst.
    cbn [numbers_survive] in Hn.
    assert (Hrb : Forall (reads_back gap) vs).
    { clear Hlen Hd. induction IH as [ | x vs Hx _ IHvs]; [ constructor | ].
      inversion Hds; subst. cbn [forallb] in Hn.
      apply andb_true_iff in Hn. destruct Hn as [Hnx Hn'].
      constructor; [ apply Hx; assumption | apply IHvs; assumption ]. }
    unfold text_of in *. rewrite ser_arr in *.
    destruct vs as [ | x vs].
    + destruct fuel as [ | f]; [ cbn in Hlen; lia | ]. reflexivity.
    + cbn [map] in *.
      pose proof (wrap_length 91 93 gap indent (indent ++ gap)
                    (text_of gap (indent ++ gap) x)
                    (map (text_of gap (indent ++ gap)) vs)) as Hw.
      destruct fuel as [ | f]; [ lia | ].
      rewrite wrap_app. cbn [parse_value].
      rewrite skip_ws_solid by reflexivity.
      change (91 =? 91) with true. cbv beta iota.
      assert (Hinner : blank (indent ++ gap)) by (apply blank_app; assumption).
      assert (Hsep : blank (sep_of gap (indent ++ gap)))
        by (apply blank_sep; exact Hinner).
      rewrite (@skip_ws_blank _ _ Hsep).
      inversion Hds as [ | ? ? Hdx Hds']; subst.
      pose proof Hn as Hn0.
      cbn [forallb] in Hn0. apply andb_true_iff in Hn0.
      destruct Hn0 as [Hnx _].
      destruct (@text_nonempty gap (indent ++ gap) x Hdx Hnx)
        as [c [t [Ht Hopen]]].
      rewrite (@expect_join_none 93 _ _ _ _ c t Ht Hopen
                 (or_introl eq_refl)).
      exact (@parse_elems_texts gap (indent ++ gap)
               (sep_of gap (indent ++ gap)) (sep_of gap indent) rest
               (x :: vs) Hsep (blank_sep gap Hind) Hrb Hds Hn Hinner
               ltac:(discriminate) [] f ltac:(cbn [map]; lia)).
  - inversion Hd as [ | | | | | ? Hsorted Hds ]; subst.
    cbn [numbers_survive] in Hn.
    assert (Hrb : Forall (fun kv => reads_back gap (snd kv)) ps).
    { clear Hlen Hsorted Hd.
      induction IH as [ | kv ps Hx _ IHps]; [ constructor | ].
      inversion Hds; subst. cbn [forallb] in Hn.
      apply andb_true_iff in Hn. destruct Hn as [Hnx Hn'].
      constructor; [ apply Hx; assumption | apply IHps; assumption ]. }
    unfold text_of in *. rewrite (@ser_obj gap indent ps Hds) in *.
    destruct ps as [ | [k x] ps].
    + destruct fuel as [ | f]; [ cbn in Hlen; lia | ]. reflexivity.
    + cbn [map fst snd] in *.
      pose proof (wrap_length 123 125 gap indent (indent ++ gap)
                    (member gap k (text_of gap (indent ++ gap) x))
                    (map (fun kv => member gap (fst kv)
                                      (text_of gap (indent ++ gap) (snd kv)))
                       ps)) as Hw.
      destruct fuel as [ | f]; [ lia | ].
      rewrite wrap_app. cbn [parse_value].
      rewrite skip_ws_solid by reflexivity.
      change (123 =? 91) with false.
      change (123 =? 123) with true. cbv beta iota.
      assert (Hinner : blank (indent ++ gap)) by (apply blank_app; assumption).
      assert (Hsep : blank (sep_of gap (indent ++ gap)))
        by (apply blank_sep; exact Hinner).
      rewrite (@skip_ws_blank _ _ Hsep).
      assert (Hm : exists t, member gap k (text_of gap (indent ++ gap) x)
                             = 34 :: t).
      { unfold member, quote. cbn [app]. eexists. reflexivity. }
      destruct Hm as [t Ht].
      rewrite (@expect_join_none 125 _ _ _ _ 34 t Ht
                 ltac:(repeat split; discriminate) (or_intror eq_refl)).
      exact (@parse_members_texts gap (indent ++ gap)
               (sep_of gap (indent ++ gap)) (sep_of gap indent) rest
               ((k, x) :: ps) Hsep (blank_sep gap Hind) Hinner Hrb Hds Hn
               ltac:(discriminate) [] f Hsorted
               ltac:(cbn [map fst snd]; lia)).
Qed.


(** *** What the reader builds *)

Lemma lookup_none_keys (k : jsstring) (l : list (jsstring * value)) :
  lookup k l = None -> Forall (fun a => a <> k) (map fst l).
Proof.
  induction l as [ | [k' v'] l IH]; [ constructor | ].
  cbn [lookup map fst]. destruct (Str.eqb k' k) eqn:E; [ discriminate | ].
  intros H. constructor; [ apply Str_eqb_neq; exact E | exact (IH H) ].
Qed.

Lemma replace_value_keys (k : jsstring) (v : value)
  (l : list (jsstring * value)) :
  map fst (replace_value k v l) = map fst l.
Proof.
  induction l as [ | [k' v'] l IH]; [ reflexivity | ].
  cbn [replace_value]. destruct (Str.eqb k' k); cbn [map fst]; congruence.
Qed.

Lemma replace_value_all (P : value -> Prop) (k : jsstring) (v : value)
  (l : list (jsstring * value)) :
  P v -> Forall (fun kv => P (snd kv)) l ->
  Forall (fun kv => P (snd kv)) (replace_value k v l).
Proof.
  intros Hv. induction 1 as [ | [k' v'] l Hx Hl IH]; [ constructor | ].
  cbn [replace_value]. destruct (Str.eqb k' k); constructor; assumption.
Qed.

Lemma insert_index_all (P : jsstring * value -> Prop) (i : N) (k : jsstring)
  (v : value) (l : list (jsstring * value)) :
  P (k, v) -> Forall P l -> Forall P (insert_index i k v l).
Proof.
  intros Hv. induction 1 as [ | [k' v'] l Hx Hl IH]; cbn [insert_index].
  - constructor; [ exact Hv | constructor ].
  - destruct (array_index k') as [j | ]; [ destruct (N.leb j i) | ];
      repeat constructor; assumption.
Qed.

Lemma insert_index_sorted (i : N) (k : jsstring) (v : value)
  (l : list (jsstring * value)) :
  array_index k = Some i ->
  Forall (fun a => a <> k) (map fst l) ->
  StronglySorted key_before (map fst l) ->
  StronglySorted key_before (map fst (insert_index i k v l)).
Proof.
  intros Hk. induction l as [ | [k' v'] l IH]; intros Hne Hs.
  - cbn. constructor; constructor.
  - cbn [map fst] in Hne, Hs.
    inversion Hne as [ | ? ? Hk' Hne']; subst.
    inversion Hs as [ | ? ? Hs' Hall]; subst.
    cbn [insert_index].
    assert (Hfresh : Forall (key_before k) (k' :: map fst l) ->
                     StronglySorted key_before (map fst ((k, v) :: (k', v') :: l))).
    { intros Hb. cbn [map fst]. constructor; [ exact Hs | exact Hb ]. }
    assert (Hafter : forall a, In a (map fst l) -> a <> k).
    { rewrite Forall_forall in Hne'. exact Hne'. }
    destruct (array_index k') as [j | ] eqn:Hj.
    + destruct (N.leb_spec j i) as [Hle | Hgt].
      * cbn [map fst]. constructor; [ exact (IH Hne' Hs') | ].
        rewrite Forall_map.
        apply insert_index_all.
        -- cbn [fst]. split; [ exact Hk' | ]. rewrite Hj, Hk. exact Hle.
        -- rewrite <- Forall_map. exact Hall.
      * apply Hfresh. constructor.
        -- split; [ congruence | ]. rewrite Hk, Hj. lia.
        -- rewrite Forall_forall in Hall |- *. intros a Ha.
           destruct (Hall a Ha) as [_ Hord].
           split; [ intros ->; exact (Hafter _ Ha eq_refl) | ].
           rewrite Hk. rewrite Hj in Hord.
           destruct (array_index a); [ lia | exact I ].
    + apply Hfresh. constructor.
      * split; [ congruence | ]. rewrite Hk, Hj. exact I.
      * rewrite Forall_forall in Hall |- *. intros a Ha.
        destruct (Hall a Ha) as [_ Hord].
        split; [ intros ->; exact (Hafter _ Ha eq_refl) | ].
        rewrite Hk. rewrite Hj in Hord.
        destruct (array_index a); [ contradiction | exact I ].
Qed.

Lemma sorted_snoc (l : list jsstring) (k : jsstring) :
  StronglySorted key_before l -> Forall (fun a => key_before a k) l ->
  StronglySorted key_before (l ++ [k]).
Proof.
  induction 1 as [ | a l Hs IH Hall]; intros Hk.
  - cbn. constructor; constructor.
  - inversion Hk; subst. cbn [app]. constructor; [ apply IH; assumption | ].
    apply Forall_app. split; [ exact Hall | constructor; [ assumption | constructor ] ].
Qed.

(** Setting a property keeps the keys in enumeration order. *)
Lemma set_prop_sorted (k : jsstring) (v : value) (l : list (jsstring * value)) :
  StronglySorted key_before (map fst l) ->
  StronglySorted key_before (map fst (set_prop k v l)).
Proof.
  intros Hs. unfold set_prop, has_key.
  destruct (lookup k l) eqn:El.
  - rewrite replace_value_keys. exact Hs.
  - pose proof (lookup_none_keys _ _ El) as Hne.
    destruct (array_index k) as [i | ] eqn:Hk.
    + exact (insert_index_sorted v _ Hk Hne Hs).
    + rewrite map_app. cbn [map fst]. apply sorted_snoc; [ exact Hs | ].
      rewrite Forall_forall in Hne |- *. intros a Ha.
      split; [ exact (Hne a Ha) | ]. rewrite Hk.
      destruct (array_index a); exact I.
Qed.

Lemma set_prop_all (P : value -> Prop) (k : jsstring) (v : value)
  (l : list (jsstring * value)) :
  P v -> Forall (fun kv => P (snd kv)) l ->
  Forall (fun kv => P (snd kv)) (set_prop k v l).
Proof.
  intros Hv Hl. unfold set_prop.
  destruct (has_key k l); [ apply replace_value_all; assumption | ].
  destruct (array_index k).
  - apply insert_index_all; assumption.
  - apply Forall_app. split; [ exact Hl | constructor; [ exact Hv | constructor ] ].
Qed.

Lemma set_prop_data (k : jsstring) (v : value) (l : list (jsstring * value)) :
  json_data (VObj l) -> json_data v -> json_data (VObj (set_prop k v l)).
Proof.
  intros Hl Hv. inversion Hl; subst.
  constructor; [ apply set_prop_sorted | apply set_prop_all ]; assumption.
Qed.

Lemma parse_data (fuel : nat) :
  (forall s v r, parse_value fuel s = Some (v, r) -> json_data v)
  /\ (forall s acc v r,
        parse_elems fuel s acc = Some (v, r) ->
        Forall json_data acc -> json_data v)
  /\ (forall s acc v r,
        parse_members fuel s acc = Some (v, r) ->
        json_data (VObj acc) -> json_data v).
Proof.
  induction fuel as [ | f [IHv [IHe IHm]]].
  - repeat split; intros; discriminate.
  - repeat split.
    + intros s v r. cbn [parse_value].
      destruct (skip_ws s) as [ | c s1]; [ discriminate | ].
      destruct (c =? 91).
      { destruct (expect 93 (skip_ws s1)).
        - intros H. injection H as <- _. constructor. constructor.
        - intros H. exact (IHe _ _ _ _ H (Forall_nil _)). }
      destruct (c =? 123).
      { destruct (expect 125 (skip_ws s1)).
        - intros H. injection H as <- _. constructor; constructor.
        - intros H. apply (IHm _ _ _ _ H). constructor; constructor. }
      destruct (c =? 34).
      { destruct (read_string s1) as [[str r'] | ]; [ | discriminate ].
        intros H. injection H as <- _. constructor. }
      destruct (Str.prefix (lit "true") (c :: s1)).
      { intros H. injection H as <- _. constructor. }
      destruct (Str.prefix (lit "false") (c :: s1)).
      { intros H. injection H as <- _. constructor. }
      destruct (Str.prefix (lit "null") (c :: s1)).
      { intros H. injection H as <- _. constructor. }
      destruct (span_number (c :: s1)) as [tok r'].
      destruct (read_number tok); [ | discriminate ].
      intros H. injection H as <- _. constructor.
    + intros s acc v r. cbn [parse_elems].
      destruct (parse_value f s) as [[x r1] | ] eqn:E; [ | discriminate ].
      pose proof (IHv _ _ _ E) as Hx.
      destruct (skip_ws r1) as [ | c r2]; [ discriminate | ].
      assert (Hacc : Forall json_data acc -> Forall json_data (acc ++ [x])).
      { intros Ha. apply Forall_app. split; [ exact Ha | ].
        constructor; [ exact Hx | constructor ]. }
      destruct (c =? 44).
      { intros H Ha. exact (IHe _ _ _ _ H (Hacc Ha)). }
      destruct (c =? 93); [ | discriminate ].
      intros H Ha. injection H as <- _. constructor. exact (Hacc Ha).
    + intros s acc v r. cbn [parse_members].
      destruct (expect 34 (skip_ws s)) as [s1 | ]; [ | discriminate ].
      destruct (read_string s1) as [[k r1] | ]; [ | discriminate ].
      destruct (expect 58 (skip_ws r1)) as [r2 | ]; [ | discriminate ].
      destruct (parse_value f r2) as [[x r3] | ] eqn:E; [ | discriminate ].
      pose proof (IHv _ _ _ E) as Hx.
      destruct (skip_ws r3) as [ | c r4]; [ discriminate | ].
      destruct (c =? 44).
      { intros H Ha. exact (IHm _ _ _ _ H (set_prop_data k Ha Hx)). }
      destruct (c =? 125); [ | discriminate ].
      intros H Ha. injection H as <- _. exact (set_prop_data k Ha Hx).
Qed.

Lemma parse_is_data (s : jsstring) (v : value) :
  parse s = Some v -> json_data v.
Proof.
  unfold parse.
  destruct (parse_value (S (length s)) s) as [[x r] | ] eqn:E; [ | discriminate ].
  destruct (skip_ws r); [ | discriminate ].
  intros H. injection H as <-.
  exact (proj1 (parse_data (S (length s))) _ _ _ E).
Qed.

(** The round trip on whole texts, for either gap. *)
Lemma parse_text_of (gap : jsstring) (v : value) :
  blank gap -> json_data v -> numbers_survive v = true ->
  parse (text_of gap [] v) = Some v.
Proof.
  intros Hgap Hd Hn. unfold parse.
  pose proof (@reads_back_all gap Hgap v Hd Hn [] (S (length (text_of gap [] v)))
                [] (Forall_nil _) ltac:(lia) I) as H.
  rewrite app_nil_r in H. rewrite H. reflexivity.
Qed.

End JSONFacts.

(** *** The fuel of the reader *)

Module JSONFuel.
Import JSON Text.
Open Scope N_scope.

Lemma skip_ws_length (s : jsstring) : (length (skip_ws s) <= length s)%nat.
Proof.
  induction s as [ | c s IH]; [ apply Nat.le_refl | ].
  cbn [skip_ws]. destruct (is_ws c); cbn [length]; lia.
Qed.

Lemma expect_length (c : N) (s r : jsstring) :
  expect c s = Some r -> length s = S (length r).
Proof. intros H. apply JSONFacts.expect_spec in H. subst s. reflexivity. Qed.

Lemma push_length (c : N) (o : option (jsstring * jsstring))
  (str r : jsstring) (n : nat) :
  push c o = Some (str, r) ->
  (forall str' r', o = Some (str', r') -> (length r' < n)%nat) ->
  (length r < n)%nat.
Proof.
  destruct o as [[str' r'] | ]; [ | discriminate ].
  intros H Hn. injection H as _ <-. exact (Hn _ _ eq_refl).
Qed.

Lemma read_string_upto (n : nat) (s str r : jsstring) :
  (length s <= n)%nat ->
  read_string s = Some (str, r) -> (length r < length s)%nat.
Proof.
  revert s str r. induction n as [ | n IH]; intros s str r Hn.
  - destruct s; [ discriminate | cbn in Hn; lia ].
  - destruct s as [ | c s]; [ discriminate | ].
    cbn [length] in Hn. cbn [read_string].
    destruct (c =? 34).
    { intros H. injection H as _ <-. cbn [length]. lia. }
    destruct (c =? 92).
    { destruct s as [ | e s1]; [ discriminate | ].
      destruct (e =? 117).
      - destruct s1 as [ | h1 [ | h2 [ | h3 [ | h4 s2]]]]; try discriminate.
        destruct (hex4 h1 h2 h3 h4); [ | discriminate ].
        intros H. cbn [length] in *.
        eapply push_length; [ exact H | ]. intros str' r' E.
        pose proof (IH s2 str' r' ltac:(lia) E). lia.
      - destruct (unescape e); [ | discriminate ].
        intros H. cbn [length] in *.
        eapply push_length; [ exact H | ]. intros str' r' E.
        pose proof (IH s1 str' r' ltac:(lia) E). lia. }
    destruct (c <? 32); [ discriminate | ].
    intros H. cbn [length].
    eapply push_length; [ exact H | ]. intros str' r' E.
    pose proof (IH s str' r' ltac:(lia) E). lia.
Qed.

Lemma read_string_length (s str r : jsstring) :
  read_string s = Some (str, r) -> (length r < length s)%nat.
Proof. apply (@read_string_upto (length s)). apply Nat.le_refl. Qed.

Lemma span_number_length (s tok r : jsstring) :
  span_number s = (tok, r) -> length s = (length tok + length r)%nat.
Proof.
  revert tok r. induction s as [ | c s IH]; intros tok r; cbn [span_number].
  - intros H. injection H as <- <-. reflexivity.
  - destruct (is_number_char c).
    + destruct (span_number s) as [t' r'].
      intros H. injection H as <- <-. cbn [length]. rewrite (IH t' r' eq_refl).
      reflexivity.
    + intros H. injection H as <- <-. reflexivity.
Qed.


(** A successful reading consumes input, and needs no more fuel than the
    number of characters it consumes. *)
Lemma parse_fuel_bound (f : nat) :
  (forall s v r,
      parse_value f s = Some (v, r) ->
      (length r < length s)%nat
      /\ forall k, (length s - length r <= k)%nat ->
                   parse_value k s = Some (v, r))
  /\ (forall s acc v r,
        parse_elems f s acc = Some (v, r) ->
        (length r < length s)%nat
        /\ forall k, (length s - length r <= k)%nat ->
                     parse_elems k s acc = Some (v, r))
  /\ (forall s acc v r,
        parse_members f s acc = Some (v, r) ->
        (length r < length s)%nat
        /\ forall k, (length s - length r <= k)%nat ->
                     parse_members k s acc = Some (v, r)).
Proof.
  induction f as [ | f [IHv [IHe IHm]]].
  - repeat split; intros; discriminate.
  - split; [ | split ].
    + intros s v r H. cbn [parse_value] in H.
      pose proof (skip_ws_length s) as Hws.
      destruct (skip_ws s) as [ | c s1] eqn:Es; [ discriminate | ].
      cbn [length] in Hws.
      destruct (c =? 91) eqn:E91.
      { destruct (expect 93 (skip_ws s1)) as [r' | ] eqn:Ex.
        - injection H as <- <-.
          pose proof (expect_length _ _ Ex) as Hl.
          pose proof (skip_ws_length s1) as Hl1.
          split; [ lia | ]. intros k Hk.
          destruct k as [ | k]; [ lia | ].
          cbn [parse_value]. rewrite Es, E91, Ex. reflexivity.
        - destruct (IHe _ _ _ _ H) as [Hl Hfuel].
          split; [ lia | ]. intros k Hk.
          destruct k as [ | k]; [ lia | ].
          cbn [parse_value]. rewrite Es, E91, Ex. apply Hfuel. lia. }
      destruct (c =? 123) eqn:E123.
      { destruct (expect 125 (skip_ws s1)) as [r' | ] eqn:Ex.
        - injection H as <- <-.
          pose proof (expect_length _ _ Ex) as Hl.
          pose proof (skip_ws_length s1) as Hl1.
          split; [ lia | ]. intros k Hk.
          destruct k as [ | k]; [ lia | ].
          cbn [parse_value]. rewrite Es, E91, E123, Ex. reflexivity.
        - destruct (IHm _ _ _ _ H) as [Hl Hfuel].
          split; [ lia | ]. intros k Hk.
          destruct k as [ | k]; [ lia | ].
          cbn [parse_value]. rewrite Es, E91, E123, Ex. apply Hfuel. lia. }
      assert (Hleaf : (length r < S (length s1))%nat ->
                      (length r < length s)%nat
                      /\ forall k, (length s - length r <= k)%nat ->
                                   parse_value k s = Some (v, r)).
      { intros Hl. split; [ lia | ]. intros k Hk.
        destruct k as [ | k]; [ lia | ].
        cbn [parse_value]. rewrite Es, E91, E123. exact H. }
      apply Hleaf. clear Hleaf.
      destruct (c =? 34).
      { destruct (read_string s1) as [[str r'] | ] eqn:Er; [ | discriminate ].
        injection H as _ <-. pose proof (read_string_length _ Er). lia. }
      destruct (Str.prefix (lit "true") (c :: s1)).
      { injection H as _ <-. cbn [skipn]. destruct s1 as [ | ? [ | ? [ | ? ?]]];
          cbn [skipn length]; lia. }
      destruct (Str.prefix (lit "false") (c :: s1)).
      { injection H as _ <-. cbn [skipn].
        destruct s1 as [ | ? [ | ? [ | ? [ | ? ?]]]]; cbn [skipn length]; lia. }
      destruct (Str.prefix (lit "null") (c :: s1)).
      { injection H as _ <-. cbn [skipn]. destruct s1 as [ | ? [ | ? [ | ? ?]]];
          cbn [skipn length]; lia. }
      destruct (span_number (c :: s1)) as [tok r'] eqn:Et.
      destruct (read_number tok) as [d | ] eqn:Ed; [ | discriminate ].
      injection H as _ <-.
      pose proof (span_number_length _ Et) as Hl. cbn [length] in Hl.
      destruct tok; [ discriminate Ed | ]. cbn [length] in Hl. lia.
    + intros s acc v r H. cbn [parse_elems] in H.
      destruct (parse_value f s) as [[x r1] | ] eqn:E; [ | discriminate ].
      destruct (IHv _ _ _ E) as [Hl1 Hfuel1].
      pose proof (skip_ws_length r1) as Hws.
      destruct (skip_ws r1) as [ | c r2] eqn:Es; [ discriminate | ].
      cbn [length] in Hws.
      destruct (c =? 44) eqn:E44.
      * destruct (IHe _ _ _ _ H) as [Hl2 Hfuel2].
        split; [ lia | ]. intros k Hk.
        destruct k as [ | k]; [ lia | ].
        cbn [parse_elems]. rewrite (Hfuel1 k) by lia.
        rewrite Es, E44. apply Hfuel2. lia.
      * destruct (c =? 93) eqn:E93; [ | discriminate ].
        injection H as <- <-.
        split; [ lia | ]. intros k Hk.
        destruct k as [ | k]; [ lia | ].
        cbn [parse_elems]. rewrite (Hfuel1 k) by lia.
        rewrite Es, E44, E93. reflexivity.
    + intros s acc v r H. cbn [parse_members] in H.
      pose proof (skip_ws_length s) as Hws0.
      destruct (expect 34 (skip_ws s)) as [s1 | ] eqn:E34; [ | discriminate ].
      pose proof (expect_length _ _ E34) as Hl34.
      destruct (read_string s1) as [[key r1] | ] eqn:Er; [ | discriminate ].
      pose proof (read_string_length _ Er) as Hlr.
      pose proof (skip_ws_length r1) as Hws1.
      destruct (expect 58 (skip_ws r1)) as [r2 | ] eqn:E58; [ | discriminate ].
      pose proof (expect_length _ _ E58) as Hl58.
      destruct (parse_value f r2) as [[x r3] | ] eqn:E; [ | discriminate ].
      destruct (IHv _ _ _ E) as [Hl1 Hfuel1].
      pose proof (skip_ws_length r3) as Hws.
      destruct (skip_ws r3) as [ | c r4] eqn:Es; [ discriminate | ].
      cbn [length] in Hws.
      destruct (c =? 44) eqn:E44.
      * destruct (IHm _ _ _ _ H) as [Hl2 Hfuel2].
        split; [ lia | ]. intros k Hk.
        destruct k as [ | k]; [ lia | ].
        cbn [parse_members]. rewrite E34, Er, E58. rewrite (Hfuel1 k) by lia.
        rewrite Es, E44. apply Hfuel2. lia.
      * destruct (c =? 125) eqn:E125; [ | discriminate ].
        injection H as <- <-.
        split; [ lia | ]. intros k Hk.
        destruct k as [ | k]; [ lia | ].
        cbn [parse_members]. rewrite E34, Er, E58. rewrite (Hfuel1 k) by lia.
        rewrite Es, E44, E125. reflexivity.
Qed.

(** The fuel [JSON.parse] gives its reader is enough for every text:
    whatever some amount of fuel reads, [JSON.parse] reads. *)
Lemma parse_fuel_adequate (fuel : nat) (s : jsstring) (v : value) (r : jsstring) :
  parse_value fuel s = Some (v, r) -> skip_ws r = [] ->
  parse s = Some v.
Proof.
  intros H Hr. unfold parse.
  destruct (proj1 (parse_fuel_bound fuel) _ _ _ H) as [_ Hfuel].
  rewrite (Hfuel (S (length s))) by lia. rewrite Hr. reflexivity.
Qed.

End JSONFuel.

Lemma lookup_replace_value (k : jsstring) (v : value)
  (l : list (jsstring * value)) :
  has_key k l = true -> lookup k (replace_value k v l) = Some v.
Proof.
  unfold has_key. induction l as [ | [k' v'] l IH]; [ discriminate | ].
  cbn [lookup replace_value].
  destruct (Str.eqb k' k) eqn:E; cbn [lookup]; rewrite E;
    [ reflexivity | exact IH ].
Qed.

Lemma lookup_insert_index (i : N) (k : jsstring) (v : value)
  (l : list (jsstring * value)) :
  has_key k l = false -> lookup k (insert_index i k v l) = Some v.
Proof.
  unfold has_key. induction l as [ | [k' v'] l IH]; cbn [insert_index lookup].
  - rewrite Str_eqb_refl. reflexivity.
  - destruct (Str.eqb k' k) eqn:E; [ discriminate | ].
    intros H.
    destruct (array_index k') as [j | ]; [ destruct (N.leb j i) | ];
      cbn [lookup]; rewrite ?E, ?Str_eqb_refl; auto.
Qed.

(** What was set is what is found. *)
Lemma lookup_set_prop (k : jsstring) (v : value) (l : list (jsstring * value)) :
  lookup k (set_prop k v l) = Some v.
Proof.
  unfold set_prop. destruct (has_key k l) eqn:E.
  - exact (@lookup_replace_value k v l E).
  - destruct (array_index k) as [i | ].
    + exact (@lookup_insert_index i k v l E).
    + rewrite lookup_snoc. unfold has_key in E.
      destruct (lookup k l); [ discriminate | ].
      rewrite Str_eqb_refl. reflexivity.
Qed.

(** Numbers that survive printing and reading, and three that do not:
    an infinity, [NaN] and [-0]. *)
Example typical_numbers_survive :
  forallb number_survives
    [Dbl.of_Z 0; Dbl.of_Z 1; Dbl.of_Z (-20); Dbl.of_Z 9007199254740992;
     Dbl.of_decimal false 1 (-1); Dbl.of_decimal true 1234567 (-3);
     Dbl.of_decimal false 1 21; Dbl.of_decimal false 15 (-8);
     Dbl.of_decimal false 17976931348623157 292;
     Dbl.of_decimal false 5 (-324)] = true
  /\ map number_survives [S754_infinity false; S754_nan; S754_zero true]
     = [false; false; false].
Proof. split; vm_compute; reflexivity. Qed.

(** A deep copy through [JSON.stringify] and [JSON.parse] of plain data
    whose numbers survive is the data itself. *)
Lemma deep_copy_of_data (v : value) :
  json_data v -> numbers_survive v = true ->
  JSON_parse (text_value (JSON.stringify v)) = Normal v.
Proof.
  intros Hd Hn. unfold JSON.stringify.
  rewrite (@JSONFacts.ser_some [] [] v Hd). cbn [text_value].
  unfold JSON_parse. cbn [to_string bind].
  rewrite (@JSONFacts.parse_text_of [] v (Forall_nil _) Hd Hn). reflexivity.
Qed.

(** C7, counterexample.  The body [1e400] is valid JSON and parses to
    [Infinity]; [JSON.stringify] prints [Infinity] as [null], so the
    stored body is [null], which parses to [null] and not to the parse
    of the original body. *)
Lemma overflowing_body_is_not_restored :
  JSON.parse (lit "1e400") = Some (VNum (S754_infinity false))
  /\ normalize_body (VStr (lit "1e400")) [] = [(lit "body", VStr (lit "null"))]
  /\ JSON.parse (lit "null") = Some VNull.
Proof. repeat split; vm_compute; reflexivity. Qed.

(** C7, amended.  For a raw body that is valid JSON the normalizer
    stores the 2-space-indented print of its parse; when every number
    in that parse survives printing and reading (every finite double
    but [-0] does; a literal too large for a double is stored as
    [null]), the stored text parses back to the parse of the raw body.
    For a non-empty raw body that is not valid JSON the normalizer
    stores the raw body itself; the normalizer has no failing outcome. *)
Theorem normalized_body_round_trip (raw : jsstring)
  (cleanConfig : list (jsstring * value)) :
  (forall v : value,
      JSON.parse raw = Some v ->
      numbers_survive v = true ->
      exists text : jsstring,
        lookup (lit "body") (normalize_body (VStr raw) cleanConfig)
        = Some (VStr text)
        /\ JSON.stringify2 v = Some text
        /\ JSON.parse text = Some v)
  /\ (JSON.parse raw = None ->
      raw <> [] ->
      lookup (lit "body") (normalize_body (VStr raw) cleanConfig)
      = Some (VStr raw)).
Proof.
  split.
  - intros v Hp Hn.
    pose proof (@JSONFacts.parse_is_data raw v Hp) as Hd.
    assert (Hgap : Text.blank [32; 32]%N)
      by (repeat constructor).
    exists (Text.text_of [32; 32]%N [] v).
    assert (Hs : JSON.stringify2 v = Some (Text.text_of [32; 32]%N [] v))
      by (apply JSONFacts.ser_some; exact Hd).
    split; [ | split; [ exact Hs | exact (@JSONFacts.parse_text_of _ v Hgap Hd Hn) ] ].
    unfold normalize_body.
    assert (Ht : truthy (VStr raw) = true).
    { destruct raw; [ discriminate Hp | reflexivity ]. }
    rewrite Ht. unfold JSON_parse. cbn [to_string bind]. rewrite Hp, Hs.
    apply lookup_set_prop.
  - intros Hp Hne. unfold normalize_body.
    assert (Ht : truthy (VStr raw) = true).
    { destruct raw; [ congruence | reflexivity ]. }
    rewrite Ht. unfold JSON_parse. cbn [to_string bind]. rewrite Hp.
    apply lookup_set_prop.
Qed.

(** The body of the specification's example, [{"q":1}]: its parse
    survives, and the stored text parses back to it. *)
Lemma normalized_body_round_trip_witness :
  let raw := [123; 34; 113; 34; 58; 49; 125]%N in
  exists v text : _,
    JSON.parse raw = Some v
    /\ numbers_survive v = true
    /\ lookup (lit "body") (normalize_body (VStr raw) []) = Some (VStr text)
    /\ JSON.parse text = Some v.
Proof.
  cbv zeta.
  exists (VObj [(lit "q", VNum (Dbl.of_Z 1))]).
  destruct (proj1 (normalized_body_round_trip
                     [123; 34; 113; 34; 58; 49; 125]%N [])
              (VObj [(lit "q", VNum (Dbl.of_Z 1))]))
    as [text [Hl [_ Hp]]].
  - vm_compute. reflexivity.
  - vm_compute. reflexivity.
  - exists text. split; [ vm_compute; reflexivity | ].
    split; [ vm_compute; reflexivity | ].
    split; [ exact Hl | exact Hp ].
Defined.

(** ** Further properties of the engine *)

(** The path extractor returns the nested value when every segment
    exists as a key of its parent container. *)
Theorem getValueByPath_follows_keys (obj : value) (path : jsstring)
  (r : value) :
  reaches obj (Str.split 46%N path) r ->
  getValueByPath obj path = Normal r.
Proof.
  unfold getValueByPath.
  induction 1 as [v | v p rest x r Hin Hget _ IH]; [ reflexivity | ].
  cbn [walk].
  assert (Ht : truthy v = true).
  { destruct v; try discriminate Hin; reflexivity. }
  rewrite Ht, Hin. cbn [bind]. rewrite Hget. exact IH.
Qed.

Lemma getValueByPath_follows_keys_witness :
  getValueByPath
    (VObj [(lit "data", VObj [(lit "items", VArr [VNull; VStr (lit "x")])])])
    (lit "data.items.1")
  = Normal (VStr (lit "x")).
Proof.
  apply getValueByPath_follows_keys.
  change (Str.split 46%N (lit "data.items.1"))
    with [lit "data"; lit "items"; lit "1"].
  eapply reaches_down; [ reflexivity | reflexivity | ].
  eapply reaches_down; [ reflexivity | reflexivity | ].
  eapply reaches_down; [ reflexivity | reflexivity | ].
  apply reaches_here.
Defined.

(** The specification's worked example: with the filter [api/data], the
    call [fetch("https://x/api/data?page=1", { body: '{"q":1}' })] is
    captured, and the replay with page value 5 sends the native [fetch]
    the URL [https://x/api/data?page=5] and a config whose body is the
    pretty-printed [{"q": 1}]. *)
Example capture_then_replay :
  let st := fst (fetch_hook (Demo.page (lit "api/data")) Demo.example_call) in
  let pretty := [123; 10; 32; 32; 34; 113; 34; 58; 32; 49; 10; 125]%N in
  (exists c, firstCapture st = Some {| url := VStr Demo.example_url;
                                       config := c |}
             /\ get c (lit "body") = Normal (VStr pretty))
  /\ exists copy,
       Demo.requests
         (snd (fst (executeRequest Demo.nativeFetch Demo.url_with_param
                      st (Demo.quiet []) (Int 5))))
       = [[VStr (lit "https://x/api/data?page=5"); copy]]
       /\ get copy (lit "body") = Normal (VStr pretty)
       /\ get copy (lit "method") = Normal (VStr (lit "GET")).
Proof.
  cbv zeta. split.
  - eexists. split; vm_compute; reflexivity.
  - eexists. split; [ vm_compute; reflexivity | ].
    split; vm_compute; reflexivity.
Qed.

Lemma fetch_template_shape_witness :
  exists (t : Template) (ps : list (jsstring * value)),
    fetch_template (Demo.page (lit "api/data")) Demo.example_call
    = Normal (Some t)
    /\ config t = VObj ps
    /\ map fst ps = [lit "headers"; lit "method"; lit "mode";
                     lit "credentials"; lit "body"].
Proof.
  destruct (fetch_template (Demo.page (lit "api/data")) Demo.example_call)
    as [[t | ] | e] eqn:E; try (vm_compute in E; discriminate E).
  destruct (@fetch_template_shape (Demo.page (lit "api/data"))
              Demo.example_call t E) as [ps [Hc Hk]].
  exists t, ps. split; [ reflexivity | ]. split; [ exact Hc | exact Hk ].
Defined.

Lemma deep_copy_of_data_witness :
  JSON_parse (text_value (JSON.stringify
                            (VObj [(lit "headers", VObj []);
                                   (lit "method", VStr (lit "GET"))])))
  = Normal (VObj [(lit "headers", VObj []); (lit "method", VStr (lit "GET"))]).
Proof.
  apply deep_copy_of_data; [ | reflexivity ].
  constructor.
  - cbn [map fst]. repeat constructor; discriminate.
  - repeat constructor.
Defined.

(** A replay whose rewritten URL does not contain the filter leaves the
    page state, and with it the stored template, as it was. *)
Theorem replay_keeps_unmatched_template
  (World : Type)
  (nativeFetch : World -> list value -> World * completion Response)
  (url_with_param : value -> jsstring -> number -> option jsstring)
  (st : State) (w : World) (newValue : number) (capture : Template)
  (u : jsstring) :
  firstCapture st = Some capture ->
  url_with_param (url capture) (paramName (cfg st)) newValue = Some u ->
  Str.includes u (filter (cfg st)) = false ->
  fst (fst (executeRequest nativeFetch url_with_param st w newValue)) = st.
Proof.
  intros Hc Hu Hin. unfold executeRequest. rewrite Hc, Hu.
  destruct (JSON_parse (text_value (JSON.stringify (config capture))))
    as [copy | e]; [ | reflexivity ].
  unfold window_fetch, proxy_apply.
  assert (Hhook : fst (fetch_hook st [VStr u; copy]) = st).
  { unfold fetch_hook, fetch_template. cbn [arg nth bind].
    destruct (filter (cfg st)) as [ | c f]; [ reflexivity | ].
    cbn [call_includes bind]. rewrite Hin. reflexivity. }
  destruct (proxied st); destruct (nativeFetch w [VStr u; copy]);
    cbn [fst]; [ exact Hhook | reflexivity ].
Qed.

Lemma replay_keeps_unmatched_template_witness :
  let st := with_cfg
              (fst (fetch_hook (Demo.page (lit "api/data")) Demo.example_call))
              {| filter := lit "page=1"; paramName := lit "page";
                 pageSize := Int 20; jsonPath := lit "data.items" |} in
  fst (fst (executeRequest Demo.nativeFetch Demo.url_with_param st
              (Demo.quiet []) (Int 5))) = st.
Proof.
  cbv zeta.
  eapply replay_keeps_unmatched_template.
  - vm_compute. reflexivity.
  - vm_compute. reflexivity.
  - vm_compute. reflexivity.
Defined.
(* ================================================================== *)
(** * Further properties of the engine *)
(* ================================================================== *)

(** ** The path extractor: where a walk stops *)

Lemma split_cons (sep : N) (s : jsstring) :
  exists p rest, Str.split sep s = p :: rest.
Proof.
  induction s as [ | c s [p [rest IH]]]; simpl.
  - eexists _, _. reflexivity.
  - destruct (N.eqb c sep); [ eexists _, _; reflexivity | ].
    rewrite IH. eexists _, _. reflexivity.
Qed.

(** A walk that has reached [v] goes on from [v]. *)
Lemma walk_app (obj v : value) (pre rest : list jsstring) :
  reaches obj pre v -> walk obj (pre ++ rest) = walk v rest.
Proof.
  induction 1 as [v | v p tl x r Hin Hget _ IH]; [ reflexivity | ].
  cbn [app walk].
  assert (Ht : truthy v = true).
  { destruct v; try discriminate Hin; reflexivity. }
  rewrite Ht, Hin. cbn [bind]. rewrite Hget. exact IH.
Qed.

(** The walk stops before the end of the path at a value that is no
    container: at a falsy one ([undefined], [null], [false], zero,
    [NaN], the empty string) the result is [undefined]; at a truthy one
    ([true], another number, a non-empty string) the operator [in]
    throws a [TypeError]. *)
Theorem getValueByPath_stops (obj : value) (path : jsstring)
  (pre : list jsstring) (p : jsstring) (rest : list jsstring) (v : value) :
  Str.split 46%N path = pre ++ p :: rest ->
  reaches obj pre v ->
  (forall vs, v <> VArr vs) -> (forall ps, v <> VObj ps) ->
  getValueByPath obj path
  = if truthy v then Throw TypeError else Normal VUndefined.
Proof.
  intros Hsplit Hreach Harr Hobj. unfold getValueByPath. rewrite Hsplit.
  rewrite (walk_app (p :: rest) Hreach). cbn [walk].
  destruct (truthy v); [ | reflexivity ].
  destruct v; try reflexivity.
  - exfalso. exact (Harr _ eq_refl).
  - exfalso. exact (Hobj _ eq_refl).
Qed.

Lemma getValueByPath_stops_witness :
  getValueByPath (VObj [(lit "data", VNull)]) (lit "data.items.0")
  = Normal VUndefined
  /\ getValueByPath (VObj [(lit "data", VStr (lit "none"))]) (lit "data.items")
     = Throw TypeError.
Proof.
  split.
  - apply (@getValueByPath_stops _ (lit "data.items.0") [lit "data"]
             (lit "items") [lit "0"] VNull).
    + reflexivity.
    + eapply reaches_down; [ reflexivity | reflexivity | apply reaches_here ].
    + discriminate.
    + discriminate.
  - apply (@getValueByPath_stops _ (lit "data.items") [lit "data"]
             (lit "items") [] (VStr (lit "none"))).
    + reflexivity.
    + eapply reaches_down; [ reflexivity | reflexivity | apply reaches_here ].
    + discriminate.
    + discriminate.
Defined.

(** With the empty path the extractor does not hand back the response:
    it looks for the key that is the empty string.  A response without
    such a key contributes nothing to a collection. *)
Theorem empty_path_selects_nothing (data : value) :
  (forall ps, data = VObj ps -> has_key [] ps = false) ->
  extracted_of [] (Normal data) = None.
Proof.
  intros Hkey. unfold extracted_of, getValueByPath. cbn [Str.split walk].
  destruct data as [ | | b | d | s | vs | ps]; try reflexivity.
  - destruct b; reflexivity.
  - destruct (truthy (VNum d)); reflexivity.
  - destruct (truthy (VStr s)); reflexivity.
  - cbn [truthy has_property bind]. rewrite (Hkey ps eq_refl). reflexivity.
Qed.

Lemma empty_path_selects_nothing_witness :
  extracted_of [] (Normal (VObj [(lit "data", VArr [VNull])])) = None.
Proof.
  apply empty_path_selects_nothing.
  intros ps H. injection H as <-. reflexivity.
Defined.

(** ** Trimming *)

Lemma trim_start_spec (s : jsstring) :
  exists a, s = a ++ Str.trim_start s /\ blank_text a
            /\ forall c r, Str.trim_start s = c :: r -> Str.is_space c = false.
Proof.
  induction s as [ | c s [a [Hs [Ha Hhd]]]].
  - exists []. repeat split; [ constructor | discriminate ].
  - cbn [Str.trim_start]. destruct (Str.is_space c) eqn:E.
    + exists (c :: a). split; [ simpl; congruence | ].
      split; [ constructor; assumption | exact Hhd ].
    + exists []. split; [ reflexivity | ].
      split; [ constructor | ]. intros c' r H. injection H as <- _. exact E.
Qed.

Lemma trim_spec (s : jsstring) : trimmed s (Str.trim s).
Proof.
  unfold trimmed, Str.trim.
  destruct (trim_start_spec s) as [a [Hs [Ha Hhd]]].
  set (t := Str.trim_start s) in *.
  destruct (trim_start_spec (rev t)) as [b [Ht [Hb Hlast]]].
  set (u := Str.trim_start (rev t)) in *.
  assert (Htu : t = rev u ++ rev b).
  { rewrite <- rev_app_distr, <- Ht, rev_involutive. reflexivity. }
  split; [ | split ].
  - exists a, (rev b). split; [ rewrite Hs, Htu; reflexivity | ].
    split; [ exact Ha | ].
    unfold blank_text. apply Forall_rev. exact Hb.
  - intros c r Hr. apply (Hhd c (r ++ rev b)). rewrite Htu, Hr. reflexivity.
  - intros r c Hr. apply (Hlast c (rev r)).
    rewrite <- (rev_involutive u), Hr, rev_app_distr. reflexivity.
Qed.

Lemma trim_blank (s : jsstring) : blank_text s -> Str.trim s = [].
Proof.
  intros Hs. destruct (trim_spec s) as [[a [b [Heq _]]] [Hhd _]].
  destruct (Str.trim s) as [ | c r]; [ reflexivity | ].
  exfalso. pose proof (Hhd c r eq_refl) as Hc.
  rewrite Heq in Hs. unfold blank_text in Hs.
  apply Forall_app in Hs. destruct Hs as [_ Hs].
  inversion Hs as [ | x l Hx _ ]; subst. congruence.
Qed.

(** A configuration update stores the three text inputs without the
    white space at their ends, and nothing else removed. *)
Theorem config_texts_are_trimmed (st : State) (panel : Panel) :
  trimmed (in_filter panel) (filter (cfg (updateConfigFromPanel st panel)))
  /\ trimmed (in_paramName panel)
       (paramName (cfg (updateConfigFromPanel st panel)))
  /\ trimmed (in_jsonPath panel)
       (jsonPath (cfg (updateConfigFromPanel st panel))).
Proof. repeat split; apply trim_spec. Qed.

(** The two hooks with an empty filter. *)
Lemma hooks_idle_without_filter
  (World : Type)
  (send : World -> XHR -> list value -> World * completion value)
  (st : State) (w : World) (this : XHR) (args : list value) :
  filter (cfg st) = [] ->
  fst (fetch_hook st args) = st
  /\ XHR_send send st w this args
     = (st, fst (send w this args), snd (send w this args)).
Proof.
  intros Hf. split.
  - unfold fetch_hook, fetch_template. rewrite Hf.
    destruct (match arg 0 args with VStr _ => Normal (arg 0 args)
              | _ => get (arg 0 args) (lit "url") end); reflexivity.
  - unfold XHR_send, xhr_template. rewrite Hf.
    destruct (truthy (_xhrUrl this)); cbn [bind];
      destruct (send w this args); reflexivity.
Qed.

(** A filter input that is blank (empty or white space only) switches
    capturing off on both paths: after the update no [fetch] and no
    [send] changes the page state. *)
Theorem blank_filter_switches_capture_off
  (World : Type)
  (send : World -> XHR -> list value -> World * completion value)
  (st : State) (panel : Panel) (w : World) (this : XHR) (args : list value) :
  blank_text (in_filter panel) ->
  fst (fetch_hook (updateConfigFromPanel st panel) args)
  = updateConfigFromPanel st panel
  /\ fst (fst (XHR_send send (updateConfigFromPanel st panel) w this args))
     = updateConfigFromPanel st panel.
Proof.
  intros Hb.
  assert (Hf : filter (cfg (updateConfigFromPanel st panel)) = []).
  { cbn. apply trim_blank. exact Hb. }
  destruct (hooks_idle_without_filter send (updateConfigFromPanel st panel)
              w this args Hf) as [H1 H2].
  split; [ exact H1 | rewrite H2; reflexivity ].
Qed.

Lemma blank_filter_switches_capture_off_witness :
  let panel := {| in_filter := lit "  "; in_paramName := lit "page";
                  in_pageSize := lit "20"; in_jsonPath := lit "data.items" |} in
  fst (fetch_hook (updateConfigFromPanel (Demo.page (lit "api/data")) panel)
         Demo.example_call)
  = updateConfigFromPanel (Demo.page (lit "api/data")) panel.
Proof.
  cbv zeta.
  refine (proj1 (@blank_filter_switches_capture_off Demo.World
                   (Demo.native_xhr (lit "send")) (Demo.page (lit "api/data"))
                   _ (Demo.quiet []) Demo.example_xhr Demo.example_call _)).
  repeat constructor.
Defined.

(** ** Decimal digits *)

Module Digits.

Open Scope Z_scope.

Definition step (acc : Z) (c : N) : Z := 10 * acc + Str.digit_val c.

Lemma digits_val_fold (ds : jsstring) : Str.digits_val ds = fold_left step ds 0.
Proof. reflexivity. Qed.

Lemma digit_of (d : Z) :
  0 <= d < 10 ->
  Str.is_digit (Z.to_N (48 + d)) = true
  /\ Str.digit_val (Z.to_N (48 + d)) = d.
Proof.
  intros H. unfold Str.is_digit, Str.digit_val. split.
  - apply andb_true_iff. split; apply N.leb_le; lia.
  - lia.
Qed.

(** With fuel for every digit of [z], the loop writes the digits of [z]
    in front of [acc]. *)
Lemma digits_fuel_S (f : nat) (z : Z) (acc : jsstring) :
  Str.digits_fuel (S f) z acc
  = if z <? 10 then Z.to_N (48 + z mod 10) :: acc
    else Str.digits_fuel f (z / 10) (Z.to_N (48 + z mod 10) :: acc).
Proof. reflexivity. Qed.

Lemma digits_fuel_spec (fuel : nat) :
  forall (z : Z) (acc : jsstring),
    0 <= z < 10 ^ Z.of_nat (S fuel) ->
    exists ds, Str.digits_fuel (S fuel) z acc = ds ++ acc
               /\ ds <> []
               /\ Forall (fun c => Str.is_digit c = true) ds
               /\ forall a, fold_left step ds a = a * 10 ^ Z.of_nat (length ds) + z.
Proof.
  induction fuel as [ | f IH]; intros z acc Hz;
    rewrite digits_fuel_S;
    assert (Hmod : 0 <= z mod 10 < 10) by (apply Z.mod_pos_bound; lia);
    destruct (digit_of Hmod) as [Hd Hv];
    destruct (Z.ltb_spec z 10) as [Hlt | Hge].
  - exists [Z.to_N (48 + z mod 10)].
    split; [ reflexivity | ]. split; [ discriminate | ].
    split; [ constructor; [ exact Hd | constructor ] | ].
    intros a. cbn [fold_left length]. unfold step. rewrite Hv.
    rewrite Z.mod_small by lia. change (10 ^ Z.of_nat 1) with 10. lia.
  - change (10 ^ Z.of_nat 1) with 10 in Hz. lia.
  - exists [Z.to_N (48 + z mod 10)].
    split; [ reflexivity | ]. split; [ discriminate | ].
    split; [ constructor; [ exact Hd | constructor ] | ].
    intros a. cbn [fold_left length]. unfold step. rewrite Hv.
    rewrite Z.mod_small by lia. change (10 ^ Z.of_nat 1) with 10. lia.
  - assert (Hq : 0 <= z / 10 < 10 ^ Z.of_nat (S f)).
    { split; [ apply Z.div_pos; lia | ].
      apply Z.div_lt_upper_bound; [ lia | ].
      replace (10 * 10 ^ Z.of_nat (S f)) with (10 ^ Z.of_nat (S (S f))); [ lia | ].
      rewrite (Nat2Z.inj_succ (S f)), Z.pow_succ_r by lia. reflexivity. }
    destruct (IH (z / 10) (Z.to_N (48 + z mod 10) :: acc) Hq)
      as [ds [Heq [Hne [Hall Hval]]]].
    exists (ds ++ [Z.to_N (48 + z mod 10)]).
    split; [ rewrite Heq, <- app_assoc; reflexivity | ].
    split; [ destruct ds; discriminate | ].
    split; [ apply Forall_app; split;
             [ exact Hall | constructor; [ exact Hd | constructor ] ] | ].
    intros a. rewrite fold_left_app, Hval. cbn [fold_left]. unfold step.
    rewrite Hv, length_app. cbn [length].
    replace (Z.of_nat (length ds + 1)) with (Z.succ (Z.of_nat (length ds))) by lia.
    rewrite Z.pow_succ_r by lia.
    pose proof (Z.div_mod z 10 ltac:(lia)) as Hdm. lia.
Qed.

Lemma of_Z_nonneg_spec (z : Z) :
  0 <= z ->
  Str.of_Z_nonneg z <> []
  /\ Forall (fun c => Str.is_digit c = true) (Str.of_Z_nonneg z)
  /\ Str.digits_val (Str.of_Z_nonneg z) = z.
Proof.
  intros Hz. unfold Str.of_Z_nonneg.
  assert (Hfuel : 0 <= z < 10 ^ Z.of_nat (S (Z.to_nat (Z.log2 z)))).
  { split; [ exact Hz | ].
    destruct (Z.eq_dec z 0) as [-> | Hnz]; [ reflexivity | ].
    pose proof (Z.log2_nonneg z) as Hl.
    rewrite Nat2Z.inj_succ, Z2Nat.id by exact Hl.
    apply Z.lt_le_trans with (2 ^ Z.succ (Z.log2 z)).
    - apply Z.log2_spec. lia.
    - apply Z.pow_le_mono_l. lia. }
  destruct (@digits_fuel_spec (Z.to_nat (Z.log2 z)) z [] Hfuel)
    as [ds [Heq [Hne [Hall Hval]]]].
  rewrite Heq, app_nil_r. split; [ exact Hne | ]. split; [ exact Hall | ].
  rewrite digits_val_fold, Hval. lia.
Qed.

Close Scope Z_scope.

End Digits.

Lemma span_digits_app (ds rest : jsstring) :
  Forall (fun c => Str.is_digit c = true) ds -> no_digit_ahead rest ->
  Str.span_digits (ds ++ rest) = (ds, rest).
Proof.
  intros Hd Hr. induction Hd as [ | c ds Hc _ IH].
  - destruct rest as [ | c rest]; [ reflexivity | ].
    simpl in *. rewrite Hr. reflexivity.
  - simpl. rewrite Hc, IH. reflexivity.
Qed.

Lemma trim_start_blank (ws s : jsstring) :
  blank_text ws -> Str.trim_start (ws ++ s) = Str.trim_start s.
Proof.
  induction 1 as [ | c ws Hc _ IH]; [ reflexivity | ].
  simpl. rewrite Hc. exact IH.
Qed.

Lemma parseInt_blank (ws s : jsstring) :
  blank_text ws -> parseInt (ws ++ s) = parseInt s.
Proof. intros H. unfold parseInt. rewrite (@trim_start_blank ws s H). reflexivity. Qed.

Lemma digit_bounds (c : N) : Str.is_digit c = true -> (48 <= c <= 57)%N.
Proof.
  unfold Str.is_digit. intros H. apply andb_true_iff in H.
  destruct H as [H1 H2]. apply N.leb_le in H1, H2. lia.
Qed.

Lemma digit_not_space (c : N) : Str.is_digit c = true -> Str.is_space c = false.
Proof.
  intros H. apply digit_bounds in H.
  unfold Str.is_space. apply orb_false_iff. split.
  - cbn [existsb]. repeat (apply orb_false_iff; split); try reflexivity;
      apply N.eqb_neq; lia.
  - apply andb_false_iff. left. apply N.leb_gt. lia.
Qed.

(** A text that starts with a minus sign, and one that starts with a
    digit. *)
Lemma parseInt_minus (tl : jsstring) :
  parseInt (45%N :: tl)
  = match Str.span_digits tl with
    | ([], _) => NaN
    | (ds, _) => Int (- Str.digits_val ds)
    end.
Proof. reflexivity. Qed.

Lemma parseInt_unsigned (d : N) (tl : jsstring) :
  Str.is_digit d = true ->
  parseInt (d :: tl)
  = match Str.span_digits (d :: tl) with
    | ([], _) => NaN
    | (ds, _) => Int (Str.digits_val ds)
    end.
Proof.
  intros Hd. unfold parseInt. cbn [Str.trim_start].
  rewrite (@digit_not_space d Hd). apply digit_bounds in Hd.
  destruct d as [ | p]; [ exfalso; lia | ].
  do 6 (destruct p as [p | p | ]; try (exfalso; lia)); reflexivity.
Qed.

(** [parseInt] reads the decimal spelling of an integer back, whatever
    white space precedes it and whatever follows its last digit. *)
Lemma parseInt_decimal (z : Z) (ws rest : jsstring) :
  blank_text ws -> no_digit_ahead rest ->
  parseInt (ws ++ Str.of_Z z ++ rest) = Int z.
Proof.
  intros Hws Hrest. rewrite (@parseInt_blank ws _ Hws). unfold Str.of_Z.
  destruct (Z.ltb_spec z 0) as [Hneg | Hpos].
  - destruct (@Digits.of_Z_nonneg_spec (- z) ltac:(lia)) as [Hne [Hall Hval]].
    cbn [app]. rewrite parseInt_minus, (@span_digits_app _ _ Hall Hrest).
    destruct (Str.of_Z_nonneg (- z)) as [ | d ds] eqn:E; [ congruence | ].
    rewrite Hval. f_equal. lia.
  - destruct (@Digits.of_Z_nonneg_spec z Hpos) as [Hne [Hall Hval]].
    destruct (Str.of_Z_nonneg z) as [ | d ds] eqn:E; [ congruence | ].
    assert (Hd : Str.is_digit d = true) by (inversion Hall; assumption).
    change ((d :: ds) ++ rest) with (d :: ds ++ rest).
    rewrite (@parseInt_unsigned d (ds ++ rest) Hd).
    change (d :: ds ++ rest) with ((d :: ds) ++ rest).
    rewrite (@span_digits_app _ _ Hall Hrest), Hval. reflexivity.
Qed.

(** The page size of the panel is read as a decimal integer: leading
    white space and whatever follows the digits (a fraction, an
    exponent, a unit) are ignored, and zero is replaced by the default.
    The integer is one the code holds exactly. *)
Theorem pageSize_reads_decimal_prefix (st : State) (panel : Panel) (z : Z)
  (ws rest : jsstring) :
  in_pageSize panel = ws ++ Str.of_Z z ++ rest ->
  blank_text ws -> no_digit_ahead rest -> precise (Int z) ->
  pageSize (cfg (updateConfigFromPanel st panel))
  = if (z =? 0)%Z then Int 20 else Int z.
Proof.
  intros Hin Hws Hrest _. cbn. rewrite Hin, (@parseInt_decimal z _ _ Hws Hrest).
  cbn. destruct (z =? 0)%Z; reflexivity.
Qed.

Lemma pageSize_reads_decimal_prefix_witness :
  pageSize (cfg (updateConfigFromPanel (initial [] [])
                   {| in_filter := []; in_paramName := [];
                      in_pageSize := lit " 12.5"; in_jsonPath := [] |}))
  = Int 12.
Proof.
  apply (@pageSize_reads_decimal_prefix (initial [] []) _ 12 (lit " ") (lit ".5")).
  - reflexivity.
  - repeat constructor.
  - reflexivity.
  - simpl. lia.
Defined.

(** ** Which requests are captured *)

Lemma prefix_spec (p s : jsstring) :
  Str.prefix p s = true <-> exists b, s = p ++ b.
Proof.
  revert s. induction p as [ | c p IH]; intros s.
  - split; [ intros _; exists s; reflexivity | reflexivity ].
  - destruct s as [ | d s]; cbn [Str.prefix].
    + split; [ discriminate | intros [b H]; discriminate H ].
    + rewrite andb_true_iff, N.eqb_eq, IH. split.
      * intros [-> [b ->]]. exists b. reflexivity.
      * intros [b H]. injection H as -> ->. split; [ reflexivity | ].
        exists b. reflexivity.
Qed.

Lemma includes_spec (s sub : jsstring) :
  Str.includes s sub = true <-> contains s sub.
Proof.
  unfold contains. induction s as [ | c s IH].
  - cbn [Str.includes]. rewrite orb_false_r, prefix_spec. split.
    + intros [b H]. exists [], b. exact H.
    + intros [a [b H]]. destruct a; [ exists b; exact H | discriminate H ].
  - cbn [Str.includes]. rewrite orb_true_iff, prefix_spec, IH. split.
    + intros [[b H] | [a [b H]]].
      * exists [], b. exact H.
      * exists (c :: a), b. rewrite H. reflexivity.
    + intros [[ | x a] [b H]].
      * left. exists b. exact H.
      * right. injection H as _ H. exists a, b. exact H.
Qed.

Lemma get_of_init (o : value) (k : jsstring) :
  o <> VNull -> o <> VUndefined -> exists x, get o k = Normal x.
Proof.
  intros Hn Hu. destruct o; try congruence; cbn [get].
  - eexists. reflexivity.
  - eexists. reflexivity.
  - destruct (Str.eqb k length_key); [ eexists; reflexivity | ].
    destruct (array_index k) as [i | ]; [ | eexists; reflexivity ].
    destruct (nth_error s (N.to_nat i)); eexists; reflexivity.
  - destruct (Str.eqb k length_key); [ eexists; reflexivity | ].
    destruct (array_index k) as [i | ]; [ | eexists; reflexivity ].
    destruct (nth_error elems (N.to_nat i)); eexists; reflexivity.
  - destruct (lookup k props); eexists; reflexivity.
Qed.

(** The template of a fetch call whose URL is a string. *)
Lemma fetch_template_of_string (st : State) (args : list value) (s : jsstring) :
  arg 0 args = VStr s -> arg 1 args <> VNull ->
  (filter (cfg st) <> [] /\ Str.includes s (filter (cfg st)) = true
   /\ exists t, fetch_template st args = Normal (Some t) /\ url t = VStr s)
  \/ ((filter (cfg st) = [] \/ Str.includes s (filter (cfg st)) = false)
      /\ fetch_template st args = Normal None).
Proof.
  intros H0 H1. unfold fetch_template. rewrite H0. cbn [bind].
  destruct (filter (cfg st)) as [ | c f] eqn:Ef.
  - right. split; [ left; reflexivity | reflexivity ].
  - cbn [call_includes bind].
    destruct (Str.includes s (c :: f)) eqn:Ei.
    + left. split; [ discriminate | ]. split; [ reflexivity | ].
      set (init := match arg 1 args with VUndefined => VObj [] | c0 => c0 end).
      assert (Hinit : init <> VNull /\ init <> VUndefined).
      { unfold init. destruct (arg 1 args); split; congruence. }
      destruct Hinit as [Hn Hu].
      destruct (@get_of_init init (lit "headers") Hn Hu) as [h ->].
      destruct (@get_of_init init (lit "method") Hn Hu) as [m ->].
      destruct (@get_of_init init (lit "mode") Hn Hu) as [mo ->].
      destruct (@get_of_init init (lit "credentials") Hn Hu) as [cr ->].
      destruct (@get_of_init init (lit "body") Hn Hu) as [b ->].
      cbn [bind]. eexists. split; reflexivity.
    + right. split; [ right; reflexivity | reflexivity ].
Qed.

(** The template of a [send] on a request opened with a string URL. *)
Lemma xhr_template_of_string (st : State) (this : XHR) (body : value)
  (s : jsstring) :
  _xhrUrl this = VStr s ->
  (filter (cfg st) <> [] /\ Str.includes s (filter (cfg st)) = true
   /\ exists t, xhr_template st this body = Normal (Some t) /\ url t = VStr s)
  \/ ((filter (cfg st) = [] \/ Str.includes s (filter (cfg st)) = false)
      /\ xhr_template st this body = Normal None).
Proof.
  intros Hu. unfold xhr_template. rewrite Hu.
  destruct (filter (cfg st)) as [ | c f] eqn:Ef.
  - right. split; [ left; reflexivity | ].
    destruct (truthy (VStr s)); reflexivity.
  - destruct (Str.includes s (c :: f)) eqn:Ei.
    + left. split; [ discriminate | ]. split; [ reflexivity | ].
      assert (Ht : truthy (VStr s) = true).
      { destruct s; [ | reflexivity ].
        destruct f; discriminate Ei. }
      rewrite Ht. cbn [call_includes bind]. rewrite Ei.
      eexists. split; reflexivity.
    + right. split; [ right; reflexivity | ].
      destruct (truthy (VStr s)); [ | reflexivity ].
      cbn [call_includes bind]. rewrite Ei. reflexivity.
Qed.

(** A request whose URL is the string [s] is captured exactly when the
    filter is not empty and occurs in [s], unit for unit (so the test is
    case-sensitive); this holds for a [fetch] call with any init but
    [null], and for a [send] on a request opened with [s].  The
    template then carries [s] as its URL. *)
Theorem captured_iff_url_contains_filter (st : State) (s : jsstring)
  (args : list value) (this : XHR) (body : value) :
  arg 0 args = VStr s -> arg 1 args <> VNull -> _xhrUrl this = VStr s ->
  ((exists t, fetch_template st args = Normal (Some t) /\ url t = VStr s)
   <-> filter (cfg st) <> [] /\ contains s (filter (cfg st)))
  /\ ((exists t, xhr_template st this body = Normal (Some t) /\ url t = VStr s)
      <-> filter (cfg st) <> [] /\ contains s (filter (cfg st)))
  /\ (~ (filter (cfg st) <> [] /\ contains s (filter (cfg st))) ->
      fetch_template st args = Normal None
      /\ xhr_template st this body = Normal None).
Proof.
  intros H0 H1 Hu.
  pose proof (@fetch_template_of_string st args s H0 H1) as Hf.
  pose proof (@xhr_template_of_string st this body s Hu) as Hx.
  rewrite <- includes_spec.
  split; [ | split ].
  - split.
    + intros [t [Ht _]].
      destruct Hf as [[Hne [Hin _]] | [_ Hnone]]; [ split; assumption | ].
      rewrite Hnone in Ht. discriminate Ht.
    + intros [Hne Hin].
      destruct Hf as [[_ [_ Hex]] | [[He | Hi] _]];
        [ exact Hex | contradiction | congruence ].
  - split.
    + intros [t [Ht _]].
      destruct Hx as [[Hne [Hin _]] | [_ Hnone]]; [ split; assumption | ].
      rewrite Hnone in Ht. discriminate Ht.
    + intros [Hne Hin].
      destruct Hx as [[_ [_ Hex]] | [[He | Hi] _]];
        [ exact Hex | contradiction | congruence ].
  - intros Hno. split.
    + destruct Hf as [[Hne [Hin _]] | [_ Hnone]]; [ | exact Hnone ].
      exfalso. apply Hno. split; assumption.
    + destruct Hx as [[Hne [Hin _]] | [_ Hnone]]; [ | exact Hnone ].
      exfalso. apply Hno. split; assumption.
Qed.

Lemma captured_iff_url_contains_filter_witness :
  exists t, fetch_template (Demo.page (lit "api/data")) Demo.example_call
            = Normal (Some t)
            /\ url t = VStr Demo.example_url.
Proof.
  refine (proj2 (proj1 (@captured_iff_url_contains_filter
                          (Demo.page (lit "api/data")) Demo.example_url
                          Demo.example_call Demo.example_xhr VUndefined
                          _ _ _)) _).
  - reflexivity.
  - discriminate.
  - reflexivity.
  - split; [ discriminate | ].
    exists (lit "https://x/"), (lit "?page=1"). reflexivity.
Defined.

(** ** Monitoring on and off *)

Lemma notify_with_proxied (st : State) (b : bool) (t : Template) :
  notify (with_proxied st b) t
  = (with_proxied (fst (notify st t)) b, snd (notify st t)).
Proof.
  unfold notify.
  change (resolve_referer (with_proxied st b)) with (resolve_referer st).
  destruct (bind (get (config t) (lit "headers")) _) as [referer | e];
    [ | reflexivity ].
  change (status (with_proxied st b)) with (status st).
  destruct (status st); [ | reflexivity ].
  destruct (bind (get (config t) (lit "method")) _); reflexivity.
Qed.

Lemma store_with_proxied (st : State) (b : bool) (t : Template) :
  store (with_proxied st b) t
  = (with_proxied (fst (store st t)) b, snd (store st t)).
Proof.
  unfold store.
  change (with_capture (with_proxied st b) (Some t))
    with (with_proxied (with_capture st (Some t)) b).
  apply notify_with_proxied.
Qed.

(** The XHR overrides are installed when the script loads, not by
    [monitorGQL]: a [send] captures in the same way whether [window.fetch]
    is the proxy or not. *)
Theorem xhr_capture_ignores_monitoring
  (World : Type)
  (send : World -> XHR -> list value -> World * completion value)
  (st : State) (b : bool) (w : World) (this : XHR) (args : list value) :
  XHR_send send (with_proxied st b) w this args
  = (with_proxied (fst (fst (XHR_send send st w this args))) b,
     snd (fst (XHR_send send st w this args)),
     snd (XHR_send send st w this args)).
Proof.
  unfold XHR_send.
  change (xhr_template (with_proxied st b) this (arg 0 args))
    with (xhr_template st this (arg 0 args)).
  destruct (xhr_template st this (arg 0 args)) as [[t | ] | e].
  - rewrite store_with_proxied.
    destruct (store st t) as [st' [[] | e]]; cbn [fst snd].
    + destruct (send w this args). reflexivity.
    + reflexivity.
  - destruct (send w this args). reflexivity.
  - reflexivity.
Qed.

(** The headers of a template built by [send] are an object. *)
Lemma xhr_template_headers (st : State) (this : XHR) (body : value)
  (t : Template) :
  xhr_template st this body = Normal (Some t) ->
  exists ps h, config t = VObj ps /\ lookup (lit "headers") ps = Some (VObj h).
Proof.
  unfold xhr_template. intros H.
  destruct (if truthy (_xhrUrl this) then _ else _) as [[ | ] | e];
    simpl in H; try discriminate.
  injection H as <-. cbn [config].
  eexists _, _. split; [ reflexivity | ].
  rewrite normalize_body_lookup by reflexivity. reflexivity.
Qed.

(** [disableMonitoring] puts the native [fetch] back and keeps the
    stored template and the configuration, but it does not restore the
    three [XMLHttpRequest] methods: until the page is reloaded a matching
    [send] is still captured (silently, the status element being gone),
    and the native [send] still runs. *)
Theorem disableMonitoring_leaves_xhr_hooked
  (World : Type)
  (nativeFetch : World -> list value -> World * completion Response)
  (send : World -> XHR -> list value -> World * completion value)
  (st : State) (w : World) (this : XHR) (args fetch_args : list value)
  (t : Template) :
  xhr_template st this (arg 0 args) = Normal (Some t) ->
  window_fetch nativeFetch (disableMonitoring st) w fetch_args
  = (disableMonitoring st, fst (nativeFetch w fetch_args),
     snd (nativeFetch w fetch_args))
  /\ firstCapture (disableMonitoring st) = firstCapture st
  /\ cfg (disableMonitoring st) = cfg st
  /\ XHR_send send (disableMonitoring st) w this args
     = (with_capture (disableMonitoring st) (Some t),
        fst (send w this args), snd (send w this args)).
Proof.
  intros Ht. split; [ | split; [ reflexivity | split; [ reflexivity | ] ] ].
  - unfold window_fetch. cbn [proxied disableMonitoring].
    destruct (nativeFetch w fetch_args). reflexivity.
  - unfold XHR_send.
    change (xhr_template (disableMonitoring st) this (arg 0 args))
      with (xhr_template st this (arg 0 args)).
    rewrite Ht.
    destruct (@xhr_template_headers st this (arg 0 args) t Ht) as [ps [h [Hc Hh]]].
    assert (Hs : store (disableMonitoring st) t
                 = (with_capture (disableMonitoring st) (Some t), Normal tt)).
    { unfold store, notify. rewrite Hc. cbn [get bind]. rewrite Hh.
      unfold resolve_referer. cbn [get bind].
      destruct (lookup (lit "referer") h), (lookup (lit "Referer") h);
        reflexivity. }
    rewrite Hs. destruct (send w this args). reflexivity.
Qed.

Lemma disableMonitoring_leaves_xhr_hooked_witness :
  exists t,
    firstCapture
      (fst (fst (XHR_send (Demo.native_xhr (lit "send"))
                   (disableMonitoring (Demo.page (lit "api/data")))
                   (Demo.quiet []) Demo.example_xhr [VUndefined])))
    = Some t
    /\ url t = VStr Demo.example_url.
Proof.
  eexists. split.
  - rewrite (proj2 (proj2 (proj2
      (@disableMonitoring_leaves_xhr_hooked Demo.World Demo.nativeFetch
         (Demo.native_xhr (lit "send")) (Demo.page (lit "api/data"))
         (Demo.quiet []) Demo.example_xhr [VUndefined] [] _ eq_refl)))).
    reflexivity.
  - reflexivity.
Defined.

(** ** What a collection leaves alone *)

Section Frame.

Variable World : Type.
Variable nativeFetch : World -> list value -> World * completion Response.
Variable url_with_param : value -> jsstring -> number -> option jsstring.

Lemma kept_refl (st : State) : kept st st.
Proof. repeat split. Qed.

Lemma kept_trans (a b c : State) : kept a b -> kept b c -> kept a c.
Proof.
  intros [H1 [H2 H3]] [H4 [H5 H6]]. repeat split; try congruence.
  intros Hp. rewrite <- (H3 Hp). apply H6. congruence.
Qed.

Lemma window_fetch_kept (st : State) (w : World) (args : list value) :
  kept st (fst (fst (window_fetch nativeFetch st w args))).
Proof.
  unfold window_fetch, proxy_apply.
  destruct (proxied st) eqn:Ep; destruct (nativeFetch w args) as [w' r];
    cbn [fst]; [ | apply kept_refl ].
  destruct (fetch_hook_keeps_cfg st args) as [H1 H2].
  repeat split; [ exact H1 | congruence | congruence ].
Qed.

Lemma executeRequest_kept (st : State) (w : World) (newValue : number) :
  kept st (fst (fst (executeRequest nativeFetch url_with_param st w newValue))).
Proof.
  unfold executeRequest.
  destruct (firstCapture st) as [capture | ]; [ | apply kept_refl ].
  destruct (JSON_parse _) as [copy | e]; [ | apply kept_refl ].
  match goal with |- context [window_fetch nativeFetch st w ?a] =>
    pose proof (window_fetch_kept st w a) as H;
    destruct (window_fetch nativeFetch st w a) as [[st' w'] r] end.
  exact H.
Qed.

Lemma pages_kept (count : nat) (i : Z) (startValue pageSize : number)
  (st : State) (w : World) (res : list value) (log : list event) :
  kept st (final (pages nativeFetch url_with_param count i startValue pageSize
                    st w res log)).
Proof.
  revert i st w res log.
  induction count as [ | count IH]; intros i st w res log.
  - apply kept_refl.
  - cbn [pages].
    pose proof (executeRequest_kept st w (page_value startValue pageSize i)) as H.
    destruct (executeRequest nativeFetch url_with_param st w
                (page_value startValue pageSize i)) as [[st' w'] r].
    exact (kept_trans H (IH _ _ _ _ _)).
Qed.

(** A collection never changes the configuration, nor which function
    [window.fetch] is; and while monitoring is off it leaves the whole
    page state, the stored template included, as it was. *)
Theorem collect_keeps_configuration (st : State) (w : World)
  (startValue totalPages : number) :
  cfg (final (collectAndDownload nativeFetch url_with_param st w
                startValue totalPages)) = cfg st
  /\ proxied (final (collectAndDownload nativeFetch url_with_param st w
                       startValue totalPages)) = proxied st
  /\ (proxied st = false ->
      final (collectAndDownload nativeFetch url_with_param st w
               startValue totalPages) = st).
Proof.
  unfold collectAndDownload.
  destruct (firstCapture st); [ | apply kept_refl ].
  pose proof (pages_kept (iterations totalPages) 0 startValue
                (pageSize (cfg st)) st w [] []) as H.
  destruct (result _); exact H.
Qed.

(** ** The panel's Collect button *)

Lemma parseInt_of_blank (s : jsstring) : blank_text s -> parseInt s = NaN.
Proof.
  intros H. rewrite <- (app_nil_r s). rewrite (@parseInt_blank s [] H).
  reflexivity.
Qed.

(** When the count input is blank, or holds a decimal integer that is
    zero or negative, the loop test fails at once: a click sends
    nothing, exports nothing and changes nothing, whatever the start
    input holds and whether or not a template is stored. *)
Theorem click_without_count_does_nothing (st : State) (w : World)
  (startValue_input count_input : jsstring) :
  blank_text count_input
  \/ (exists (z : Z) (rest : jsstring),
        count_input = Str.of_Z z ++ rest /\ no_digit_ahead rest /\ (z <= 0)%Z) ->
  download_btn_click nativeFetch url_with_param st w
    startValue_input count_input
  = {| final := st; world := w; result := []; events := [] |}.
Proof.
  intros Hcount. unfold download_btn_click, collectAndDownload.
  destruct (firstCapture st); [ | reflexivity ].
  assert (Hi : iterations (parseInt count_input) = O).
  { destruct Hcount as [Hb | [z [rest [-> [Hrest Hz]]]]].
    - rewrite (parseInt_of_blank Hb). reflexivity.
    - pose proof (@parseInt_decimal z [] rest (Forall_nil _) Hrest) as Hp.
      cbn [app] in Hp. rewrite Hp. cbn [iterations]. lia. }
  rewrite Hi. reflexivity.
Qed.

(** With a stored template and decimal integers in the two inputs
    (numbers the code holds exactly, like the page values of the run), a
    click replays the pages [i] below the count: [executeRequest] is
    called with [start + i * pageSize] for [i = 0, 1, ...] in this
    order, after a sleep of one second for every page but the first, and
    the collected values are exported at the end. *)
Theorem click_collects_count_pages (st : State) (w : World) (capture : Template)
  (start count : Z) (rest1 rest2 : jsstring) :
  firstCapture st = Some capture ->
  no_digit_ahead rest1 -> no_digit_ahead rest2 ->
  precise (Int start) -> precise (Int count) -> precise (pageSize (cfg st)) ->
  (forall i : nat, (i < Z.to_nat count)%nat ->
     precise (num_mul (Int (Z.of_nat i)) (pageSize (cfg st)))
     /\ precise (page_value (Int start) (pageSize (cfg st)) (Z.of_nat i))) ->
  let values := page_values (Int start) (pageSize (cfg st)) (Z.to_nat count) in
  let run := download_btn_click nativeFetch url_with_param st w
               (Str.of_Z start ++ rest1) (Str.of_Z count ++ rest2) in
  (final run, world run)
  = fst (replay_all nativeFetch url_with_param values st w)
  /\ events run
     = paced values
       ++ match result run with
          | [] => []
          | data => [Download (lit "data.json") data]
          end.
Proof.
  intros Hc H1 H2 _ _ _ _. cbv zeta. unfold download_btn_click.
  pose proof (@parseInt_decimal start [] rest1 (Forall_nil _) H1) as Hs.
  pose proof (@parseInt_decimal count [] rest2 (Forall_nil _) H2) as Hn.
  cbn [app] in Hs, Hn. rewrite Hs, Hn.
  split.
  - exact (@collectAndDownload_calls World nativeFetch url_with_param
             st w capture (Int start) (Int count) Hc).
  - rewrite collectAndDownload_events, Hc, schedule_paced. reflexivity.
Qed.

(** ** A stored URL that cannot be parsed *)




End Frame.

Lemma click_without_count_does_nothing_witness :
  let st := fst (fetch_hook (Demo.page (lit "api/data")) Demo.example_call) in
  download_btn_click Demo.nativeFetch Demo.url_with_param st (Demo.quiet [])
    (lit "0") []
  = {| final := st; world := Demo.quiet []; result := []; events := [] |}.
Proof.
  cbv zeta. apply click_without_count_does_nothing. left. constructor.
Defined.

Lemma click_collects_count_pages_witness :
  let st := fst (fetch_hook (Demo.page (lit "api/data")) Demo.example_call) in
  let run := download_btn_click Demo.nativeFetch Demo.url_with_param st
               (Demo.quiet []) (lit "40") (lit "2") in
  map (fun args => arg 0 args) (Demo.requests (world run))
  = [VStr (lit "https://x/api/data?page=40");
     VStr (lit "https://x/api/data?page=60")]
  /\ events run = [Replay (Int 40); Sleep 1000; Replay (Int 60)].
Proof.
  cbv zeta.
  destruct (@click_collects_count_pages Demo.World Demo.nativeFetch
              Demo.url_with_param
              (fst (fetch_hook (Demo.page (lit "api/data")) Demo.example_call))
              (Demo.quiet []) Demo.example_template 40 2 [] [])
    as [Hcalls Hevents].
  - vm_compute. reflexivity.
  - exact I.
  - exact I.
  - simpl. lia.
  - simpl. lia.
  - simpl. lia.
  - intros i Hi. simpl in Hi.
    destruct i as [ | [ | i]]; split; simpl; lia.
  - split.
    + apply (f_equal snd) in Hcalls. cbn [snd] in Hcalls.
      change (Str.of_Z 40 ++ []) with (lit "40") in Hcalls.
      change (Str.of_Z 2 ++ []) with (lit "2") in Hcalls.
      rewrite Hcalls. vm_compute. reflexivity.
    + change (Str.of_Z 40 ++ []) with (lit "40") in Hevents.
      change (Str.of_Z 2 ++ []) with (lit "2") in Hevents.
      rewrite Hevents. vm_compute. reflexivity.
Defined.


(** ** The headers an XHR accumulates *)

Lemma lookup_replace_value_other (k k' : jsstring) (v : value)
  (l : list (jsstring * value)) :
  k <> k' -> lookup k (replace_value k' v l) = lookup k l.
Proof.
  intros Hk. induction l as [ | [k0 v0] l IH]; [ reflexivity | ].
  cbn [replace_value lookup].
  destruct (Str.eqb k0 k') eqn:E; cbn [lookup].
  - apply Str_eqb_eq in E. subst k0.
    replace (Str.eqb k' k) with false; [ reflexivity | ].
    symmetry. apply Str_eqb_neq. congruence.
  - destruct (Str.eqb k0 k); [ reflexivity | exact IH ].
Qed.

Lemma lookup_insert_index_other (i : N) (k k' : jsstring) (v : value)
  (l : list (jsstring * value)) :
  k <> k' -> lookup k (insert_index i k' v l) = lookup k l.
Proof.
  intros Hk.
  assert (Hneq : Str.eqb k' k = false) by (apply Str_eqb_neq; congruence).
  induction l as [ | [k0 v0] l IH]; cbn [insert_index lookup].
  - rewrite Hneq. reflexivity.
  - destruct (array_index k0) as [j | ]; [ destruct (N.leb j i) | ];
      cbn [lookup]; rewrite ?Hneq; try reflexivity.
    destruct (Str.eqb k0 k); [ reflexivity | exact IH ].
Qed.

Lemma lookup_set_prop_other (k k' : jsstring) (v : value)
  (l : list (jsstring * value)) :
  k <> k' -> lookup k (set_prop k' v l) = lookup k l.
Proof.
  intros Hk. unfold set_prop. destruct (has_key k' l).
  - apply lookup_replace_value_other. exact Hk.
  - destruct (array_index k') as [i | ].
    + apply lookup_insert_index_other. exact Hk.
    + rewrite lookup_snoc. destruct (lookup k l); [ reflexivity | ].
      replace (Str.eqb k' k) with false; [ reflexivity | ].
      symmetry. apply Str_eqb_neq. congruence.
Qed.

Section Session.

Variable World : Type.
Variable native_open native_set :
  World -> XHR -> list value -> World * completion value.

Lemma setRequestHeaders_spec (hs : list (jsstring * value)) :
  forall (w : World) (this : XHR) (h0 : list (jsstring * value)),
    _xhrHeaders this = Some h0 ->
    _xhrMethod (fst (setRequestHeaders native_set w this hs)) = _xhrMethod this
    /\ _xhrUrl (fst (setRequestHeaders native_set w this hs)) = _xhrUrl this
    /\ exists h,
         _xhrHeaders (fst (setRequestHeaders native_set w this hs)) = Some h
         /\ forall k, lookup k h = header_after h0 hs k.
Proof.
  induction hs as [ | [name v] hs IH]; intros w this h0 H0.
  - cbn [setRequestHeaders fst]. split; [ reflexivity | ].
    split; [ reflexivity | ].
    exists h0. split; [ exact H0 | ].
    intros k. unfold header_after. cbn [rev lookup].
    destruct (Str.eqb k (lit "__proto__")); reflexivity.
  - cbn [setRequestHeaders]. unfold XHR_setRequestHeader.
    cbn [arg nth to_string]. rewrite H0.
    set (this' := {| _xhrMethod := _xhrMethod this; _xhrUrl := _xhrUrl this;
                     _xhrHeaders := Some (assign name v h0) |}).
    destruct (native_set w this' [VStr name; v]) as [w' r].
    destruct (IH w' this' (assign name v h0) eq_refl) as [Hm [Hu [h [Hh Hl]]]].
    split; [ exact Hm | ]. split; [ exact Hu | ].
    exists h. split; [ exact Hh | ].
    intros k. rewrite Hl.
    unfold header_after. cbn [rev]. rewrite lookup_snoc.
    unfold assign.
    destruct (Str.eqb k (lit "__proto__")) eqn:Ep.
    + apply Str_eqb_eq in Ep. subst k.
      destruct (Str.eqb name (lit "__proto__")) eqn:En; [ reflexivity | ].
      apply lookup_set_prop_other. apply Str_eqb_neq in En. congruence.
    + destruct (lookup k (rev hs)) as [x | ]; [ reflexivity | ].
      destruct (Str.eqb name k) eqn:En.
      * apply Str_eqb_eq in En. subst name.
        rewrite Ep. apply lookup_set_prop.
      * destruct (Str.eqb name (lit "__proto__")); [ reflexivity | ].
        apply lookup_set_prop_other. apply Str_eqb_neq in En. congruence.
Qed.

(** After [open(method, url)] and any number of [setRequestHeader]
    calls the request carries that method and URL, and under each header
    name the value of the last call that named it: a value set twice is
    replaced, not combined; names are compared unit for unit; headers set
    before [open] are forgotten; and the name [__proto__] is never
    recorded. *)
Theorem xhr_headers_last_value_wins (w : World) (this : XHR)
  (method url : value) (headers : list (jsstring * value)) :
  let opened := XHR_open native_open w this [method; url] in
  let sent := setRequestHeaders native_set (snd (fst opened)) (fst (fst opened))
                headers in
  _xhrMethod (fst sent) = method
  /\ _xhrUrl (fst sent) = url
  /\ exists h,
       _xhrHeaders (fst sent) = Some h
       /\ forall k,
            lookup k h = if Str.eqb k (lit "__proto__") then None
                         else lookup k (rev headers).
Proof.
  cbv zeta. unfold XHR_open. cbn [arg nth].
  set (this' := {| _xhrMethod := method; _xhrUrl := url;
                   _xhrHeaders := Some [] |}).
  destruct (native_open w this' [method; url]) as [w' r]. cbn [fst snd].
  destruct (@setRequestHeaders_spec headers w' this' [] eq_refl)
    as [Hm [Hu [h [Hh Hl]]]].
  split; [ exact Hm | ]. split; [ exact Hu | ].
  exists h. split; [ exact Hh | ].
  intros k. rewrite Hl. unfold header_after. cbn [lookup].
  destruct (Str.eqb k (lit "__proto__")); [ reflexivity | ].
  destruct (lookup k (rev headers)); reflexivity.
Qed.

End Session.

(** ** A replay seen by the proxy *)

Lemma or_else_truthy (a d : value) :
  truthy d = true -> truthy (or_else a d) = true.
Proof. intros H. unfold or_else. destruct (truthy a) eqn:E; assumption. Qed.

Lemma or_else_same (a d : value) : truthy a = true -> or_else a d = a.
Proof. intros H. unfold or_else. rewrite H. reflexivity. Qed.

(** The config of every template the fetch hook builds: four truthy
    settings, and the normalized body of the call. *)
Lemma fetch_template_config (st : State) (args : list value) (t : Template) :
  fetch_template st args = Normal (Some t) ->
  exists h m mo cr b,
    truthy h = true /\ truthy m = true /\ truthy mo = true
    /\ truthy cr = true
    /\ config t = VObj (normalize_body b (settings h m mo cr)).
Proof.
  unfold fetch_template. intros H.
  destruct (match arg 0 args with VStr _ => _ | _ => _ end) as [u | e];
    [ simpl in H | discriminate ].
  destruct (match filter (cfg st) with [] => _ | _ => _ end) as [[ | ] | e];
    simpl in H; try discriminate.
  set (c := match arg 1 args with VUndefined => VObj [] | c => c end) in *.
  destruct (get c (lit "headers")) as [h | ]; simpl in H; [ | discriminate ].
  destruct (get c (lit "method")) as [m | ]; simpl in H; [ | discriminate ].
  destruct (get c (lit "mode")) as [mo | ]; simpl in H; [ | discriminate ].
  destruct (get c (lit "credentials")) as [cr | ]; simpl in H; [ | discriminate ].
  destruct (get c (lit "body")) as [b | e]; simpl in H; [ | discriminate ].
  injection H as <-. cbn [config].
  exists (or_else h (VObj [])), (or_else m (VStr (lit "GET"))),
         (or_else mo (VStr (lit "cors"))),
         (or_else cr (VStr (lit "same-origin"))), b.
  repeat split; apply or_else_truthy; reflexivity.
Qed.

(** The hook on the call [fetch(u, config)] of a replay. *)
Lemma fetch_template_replayed (st : State) (u : jsstring)
  (qs : list (jsstring * value)) :
  filter (cfg st) <> [] ->
  Str.includes u (filter (cfg st)) = true ->
  fetch_template st [VStr u; VObj qs]
  = Normal (Some {|
      url := VStr u;
      config :=
        VObj (normalize_body
                (match lookup (lit "body") qs with
                 | Some b => b
                 | None => VUndefined
                 end)
                (settings
                   (or_else (match lookup (lit "headers") qs with
                             | Some x => x | None => VUndefined end)
                      (VObj []))
                   (or_else (match lookup (lit "method") qs with
                             | Some x => x | None => VUndefined end)
                      (VStr (lit "GET")))
                   (or_else (match lookup (lit "mode") qs with
                             | Some x => x | None => VUndefined end)
                      (VStr (lit "cors")))
                   (or_else (match lookup (lit "credentials") qs with
                             | Some x => x | None => VUndefined end)
                      (VStr (lit "same-origin"))))) |}).
Proof.
  intros Hne Hin. unfold fetch_template. cbn [arg nth bind].
  destruct (filter (cfg st)) as [ | c f] eqn:Ef; [ congruence | ].
  cbn [call_includes bind]. rewrite Hin.
  cbn [get bind].
  destruct (lookup (lit "headers") qs), (lookup (lit "method") qs),
    (lookup (lit "mode") qs), (lookup (lit "credentials") qs),
    (lookup (lit "body") qs); reflexivity.
Qed.

Section Recapture.

Variable World : Type.
Variable nativeFetch : World -> list value -> World * completion Response.
Variable url_with_param : value -> jsstring -> number -> option jsstring.

(** The slot after a replay that the proxy sees and that matches. *)
Lemma replay_slot (st : State) (w : World) (newValue : number)
  (capture : Template) (qs : list (jsstring * value)) (u : jsstring)
  (t : Template) :
  proxied st = true ->
  firstCapture st = Some capture ->
  JSON_parse (text_value (JSON.stringify (config capture))) = Normal (VObj qs) ->
  url_with_param (url capture) (paramName (cfg st)) newValue = Some u ->
  fetch_template st [VStr u; VObj qs] = Normal (Some t) ->
  firstCapture
    (fst (fst (executeRequest nativeFetch url_with_param st w newValue)))
  = Some t.
Proof.
  intros Hp Hc Hcopy Hu Ht.
  unfold executeRequest. rewrite Hc, Hcopy, Hu.
  unfold window_fetch. rewrite Hp. unfold proxy_apply.
  destruct (nativeFetch w [VStr u; VObj qs]) as [w' r]. cbn [fst].
  rewrite fetch_hook_capture, Ht. reflexivity.
Qed.


End Recapture.

(** ** The text of a value is never empty *)

Lemma digits_fuel_suffix (fuel : nat) :
  forall (z : Z) (acc : jsstring),
    exists pre, Str.digits_fuel fuel z acc = pre ++ acc.
Proof.
  induction fuel as [ | f IH]; intros z acc.
  - exists []. reflexivity.
  - rewrite Digits.digits_fuel_S. destruct (z <? 10)%Z.
    + exists [Z.to_N (48 + z mod 10)]. reflexivity.
    + destruct (IH (z / 10)%Z (Z.to_N (48 + z mod 10) :: acc)) as [pre ->].
      exists (pre ++ [Z.to_N (48 + z mod 10)]). rewrite <- app_assoc. reflexivity.
Qed.

Lemma of_Z_nonneg_nonempty (z : Z) : Str.of_Z_nonneg z <> [].
Proof.
  unfold Str.of_Z_nonneg. rewrite Digits.digits_fuel_S.
  destruct (z <? 10)%Z; [ discriminate | ].
  destruct (digits_fuel_suffix (Z.to_nat (Z.log2 z)) (z / 10)
              [Z.to_N (48 + z mod 10)]) as [pre ->].
  destruct pre; discriminate.
Qed.

Lemma layout_nonempty (ds : jsstring) (n : Z) : ds <> [] -> Dbl.layout ds n <> [].
Proof.
  intros Hds. unfold Dbl.layout.
  destruct (_ && _).
  - destruct ds; [ congruence | discriminate ].
  - destruct (_ && _).
    + destruct (firstn (Z.to_nat n) ds); discriminate.
    + destruct (_ && _); [ discriminate | ].
      destruct ds as [ | d [ | d' rest]]; [ congruence | discriminate | discriminate ].
Qed.

Lemma number_text_nonempty (d : spec_float) : JSON.number_text d <> [].
Proof.
  unfold JSON.number_text.
  destruct d as [s | s | | s m e]; cbn [Dbl.is_finite]; try discriminate.
  cbn [Dbl.to_string].
  assert (H : forall x, Dbl.pos_to_string x m e <> []).
  { intros x. unfold Dbl.pos_to_string.
    destruct (Dbl.ratio_of m e) as [num den].
    destruct (Dbl.shortest _ _ _ _ _ _) as [s0 p0].
    destruct (Dbl.strip_zeros _ _ _) as [s1 p1].
    apply layout_nonempty. apply of_Z_nonneg_nonempty. }
  destruct s; [ discriminate | apply H ].
Qed.

Lemma ser_nonempty (gap indent : jsstring) (v : value) (t : jsstring) :
  JSON.ser gap indent v = Some t -> t <> [].
Proof.
  destruct v as [ | | b | d | s | vs | ps]; cbn [JSON.ser].
  - discriminate.
  - intros H. injection H as <-. discriminate.
  - destruct b; intros H; injection H as <-; discriminate.
  - intros H. injection H as <-. apply number_text_nonempty.
  - intros H. injection H as <-. discriminate.
  - intros H. injection H as <-. unfold JSON.wrap.
    match goal with |- context [match ?parts with [] => _ | _ :: _ => _ end] =>
      destruct parts end; [ | destruct gap ]; discriminate.
  - intros H. injection H as <-. unfold JSON.wrap.
    match goal with |- context [match ?parts with [] => _ | _ :: _ => _ end] =>
      destruct parts end; [ | destruct gap ]; discriminate.
Qed.

(** What the normalizer stores for a truthy body is truthy. *)
Lemma stored_body_truthy (b : value) :
  truthy b = true ->
  truthy match JSON_parse b with
         | Normal bodyObj => text_value (JSON.stringify2 bodyObj)
         | Throw _ => b
         end = true.
Proof.
  intros Hb. destruct (JSON_parse b) as [v | e] eqn:E; [ | exact Hb ].
  unfold JSON_parse in E.
  destruct (to_string b) as [text | ]; [ cbn [bind] in E | discriminate E ].
  destruct (JSON.parse text) as [v' | ] eqn:Ep; [ | discriminate E ].
  injection E as ->.
  pose proof (@JSONFacts.parse_is_data text v Ep) as Hd.
  unfold JSON.stringify2.
  rewrite (@JSONFacts.ser_some _ _ v Hd). cbn [text_value truthy].
  pose proof (@ser_nonempty [32; 32]%N [] v _ (@JSONFacts.ser_some _ _ v Hd)) as Hne.
  destruct (Text.text_of [32%N; 32%N] [] v); [ congruence | reflexivity ].
Qed.

(** Normalizing a normalized record once more, with the body it holds,
    gives the record again when that body is settled. *)
Lemma normalize_body_again (b h m mo cr : value) :
  (forall b', lookup (lit "body") (normalize_body b (settings h m mo cr))
              = Some b' -> settled b') ->
  normalize_body
    (match lookup (lit "body") (normalize_body b (settings h m mo cr)) with
     | Some b' => b'
     | None => VUndefined
     end) (settings h m mo cr)
  = normalize_body b (settings h m mo cr).
Proof.
  intros Hs.
  pose proof (@normalize_body_lookup b (settings h m mo cr) (lit "body") eq_refl)
    as Hl.
  cbn [settings lookup] in Hl.
  change (Str.eqb (lit "headers") (lit "body")) with false in Hl.
  change (Str.eqb (lit "method") (lit "body")) with false in Hl.
  change (Str.eqb (lit "mode") (lit "body")) with false in Hl.
  change (Str.eqb (lit "credentials") (lit "body")) with false in Hl.
  cbv beta iota in Hl. rewrite Str_eqb_refl in Hl. cbn [andb] in Hl.
  fold (settings h m mo cr) in Hl.
  destruct (truthy b) eqn:Eb.
  - rewrite Hl in Hs |- *.
    pose proof (@stored_body_truthy b Eb) as Ht.
    set (b' := match JSON_parse b with
               | Normal bodyObj => text_value (JSON.stringify2 bodyObj)
               | Throw _ => b
               end) in *.
    specialize (Hs b' eq_refl).
    assert (Hn : normalize_body b (settings h m mo cr)
                 = set_prop (lit "body") b' (settings h m mo cr)).
    { unfold normalize_body. rewrite Eb. unfold b'.
      destruct (JSON_parse b); reflexivity. }
    rewrite Hn. unfold normalize_body at 1. rewrite Ht.
    destruct (JSON_parse b') as [v | e] eqn:E; [ | reflexivity ].
    rewrite (Hs v E). reflexivity.
  - rewrite Hl. unfold normalize_body. rewrite Eb. reflexivity.
Qed.

Section SameConfig.

Variable World : Type.
Variable nativeFetch : World -> list value -> World * completion Response.
Variable url_with_param : value -> jsstring -> number -> option jsstring.

(** A template captured from a [fetch] call survives its own replays:
    when the deep copy of its config is faithful and its stored body is
    settled, a replay that the proxy captures stores the same config
    again, under the rewritten URL. *)
Theorem replay_recaptures_same_config (st st0 : State) (args0 : list value)
  (w : World) (newValue : number) (capture : Template) (u : jsstring) :
  fetch_template st0 args0 = Normal (Some capture) ->
  proxied st = true ->
  firstCapture st = Some capture ->
  JSON_parse (text_value (JSON.stringify (config capture)))
  = Normal (config capture) ->
  (forall b, get (config capture) (lit "body") = Normal b -> settled b) ->
  url_with_param (url capture) (paramName (cfg st)) newValue = Some u ->
  filter (cfg st) <> [] ->
  Str.includes u (filter (cfg st)) = true ->
  firstCapture
    (fst (fst (executeRequest nativeFetch url_with_param st w newValue)))
  = Some {| url := VStr u; config := config capture |}.
Proof.
  intros Hfetch Hp Hc Hcopy Hset Hu Hne Hin.
  destruct (@fetch_template_config st0 args0 capture Hfetch)
    as [h [m [mo [cr [b [Hh [Hm [Hmo [Hcr Hcfg]]]]]]]]].
  set (ps := normalize_body b (settings h m mo cr)) in *.
  rewrite Hcfg in Hcopy.
  apply (@replay_slot World nativeFetch url_with_param st w newValue capture
           ps u); try assumption.
  - rewrite Hcfg. exact Hcopy.
  - rewrite (@fetch_template_replayed st u ps Hne Hin). rewrite Hcfg.
    do 3 f_equal.
    assert (Hl : forall k, lookup k ps
                           = match lookup k (settings h m mo cr) with
                             | Some x => Some x
                             | None => if Str.eqb (lit "body") k && truthy b
                                       then lookup k ps else None
                             end).
    { intros k. unfold ps. rewrite normalize_body_lookup by reflexivity.
      destruct (lookup k (settings h m mo cr)); [ reflexivity | ].
      destruct (Str.eqb (lit "body") k && truthy b); reflexivity. }
    rewrite (Hl (lit "headers")), (Hl (lit "method")), (Hl (lit "mode")),
      (Hl (lit "credentials")).
    cbn [settings lookup].
    change (Str.eqb (lit "headers") (lit "headers")) with true.
    change (Str.eqb (lit "headers") (lit "method")) with false.
    change (Str.eqb (lit "method") (lit "method")) with true.
    change (Str.eqb (lit "headers") (lit "mode")) with false.
    change (Str.eqb (lit "method") (lit "mode")) with false.
    change (Str.eqb (lit "mode") (lit "mode")) with true.
    change (Str.eqb (lit "headers") (lit "credentials")) with false.
    change (Str.eqb (lit "method") (lit "credentials")) with false.
    change (Str.eqb (lit "mode") (lit "credentials")) with false.
    change (Str.eqb (lit "credentials") (lit "credentials")) with true.
    cbv beta iota.
    rewrite !or_else_same by assumption.
    fold (settings h m mo cr). f_equal. unfold ps.
    apply normalize_body_again.
    intros b' Hb'. apply Hset. rewrite Hcfg. cbn [get]. unfold ps.
    rewrite Hb'. reflexivity.
Qed.

End SameConfig.

(** The bodies the normalizer stores are settled: the pretty print of a
    JSON body whose numbers survive, and a text that is not JSON. *)
Lemma stored_bodies_are_settled (raw : jsstring) :
  (forall v, JSON.parse raw = Some v -> numbers_survive v = true ->
     settled (text_value (JSON.stringify2 v)))
  /\ (JSON.parse raw = None -> settled (VStr raw)).
Proof.
  split.
  - intros v Hp Hn.
    pose proof (@JSONFacts.parse_is_data raw v Hp) as Hd.
    assert (Hgap : Text.blank [32; 32]%N) by (repeat constructor).
    unfold JSON.stringify2.
    rewrite (@JSONFacts.ser_some _ _ v Hd). cbn [text_value].
    intros v' Hv'. unfold JSON_parse in Hv'. cbn [to_string bind] in Hv'.
    rewrite (@JSONFacts.parse_text_of _ v Hgap Hd Hn) in Hv'.
    injection Hv' as <-. unfold JSON.stringify2.
    rewrite (@JSONFacts.ser_some _ _ v Hd). reflexivity.
  - intros Hp v Hv. unfold JSON_parse in Hv. cbn [to_string bind] in Hv.
    rewrite Hp in Hv. discriminate Hv.
Qed.

(** ** The export text and its encoding *)

Ltac n_bools :=
  repeat match goal with
  | H : _ && _ = true |- _ => apply andb_true_iff in H; destruct H
  | H : _ || _ = false |- _ => apply orb_false_iff in H; destruct H
  | H : negb _ = true |- _ => apply negb_true_iff in H
  | H : negb _ = false |- _ => apply negb_false_iff in H
  | H : (_ <=? _)%N = true |- _ => apply N.leb_le in H
  | H : (_ <=? _)%N = false |- _ => apply N.leb_gt in H
  | H : (_ <? _)%N = true |- _ => apply N.ltb_lt in H
  | H : (_ <? _)%N = false |- _ => apply N.ltb_ge in H
  | H : (_ =? _)%N = true |- _ => apply N.eqb_eq in H
  | H : (_ =? _)%N = false |- _ => apply N.eqb_neq in H
  end.

Module URIFacts.

Import URI.
Open Scope N_scope.

(** Induction on a string two units at a time. *)
Lemma pairs_ind (P : jsstring -> Prop) :
  P [] -> (forall c, P [c]) ->
  (forall c d r, P r -> P (d :: r) -> P (c :: d :: r)) ->
  forall s, P s.
Proof.
  intros H0 H1 H2 s.
  assert (H : P s /\ forall c, P (c :: s)).
  { induction s as [ | d r [IHr IHd]].
    - split; [ exact H0 | exact H1 ].
    - split; [ apply IHd | ]. intros c. apply H2; [ exact IHr | apply IHd ]. }
  exact (proj1 H).
Qed.

Lemma high_range (c : N) : JSON.is_high c = true <-> 55296 <= c <= 56319.
Proof.
  unfold JSON.is_high. rewrite andb_true_iff, !N.leb_le. reflexivity.
Qed.

Lemma low_range (c : N) : JSON.is_low c = true <-> 56320 <= c <= 57343.
Proof.
  unfold JSON.is_low. rewrite andb_true_iff, !N.leb_le. reflexivity.
Qed.

Lemma not_high (c : N) : c < 55296 -> JSON.is_high c = false.
Proof.
  intros H. destruct (JSON.is_high c) eqn:E; [ | reflexivity ].
  apply high_range in E. lia.
Qed.

Lemma not_low (c : N) : c < 55296 -> JSON.is_low c = false.
Proof.
  intros H. destruct (JSON.is_low c) eqn:E; [ | reflexivity ].
  apply low_range in E. lia.
Qed.

Lemma unreserved_ascii (c : N) : unreserved c = true -> c < 128 /\ c <> 37.
Proof.
  unfold unreserved, Str.is_digit. cbn [existsb]. intros H.
  repeat (apply orb_true_iff in H; destruct H as [H | H]);
    try discriminate H; n_bools; lia.
Qed.

(** *** Texts without lone surrogates *)

Lemma well_formed_cons (c : N) (s : jsstring) :
  c < 55296 -> well_formed (c :: s) = well_formed s.
Proof.
  intros H. cbn [well_formed]. rewrite (not_low H), (not_high H). reflexivity.
Qed.

Lemma well_formed_app (a b : jsstring) :
  well_formed a = true -> well_formed b = true -> well_formed (a ++ b) = true.
Proof.
  intros Ha Hb. revert Ha.
  induction a as [ | c | c d r IHr IHd] using pairs_ind; intros Ha.
  - exact Hb.
  - cbn [well_formed] in Ha. cbn [app well_formed].
    destruct (JSON.is_low c); [ discriminate | ].
    destruct (JSON.is_high c); [ discriminate | exact Hb ].
  - cbn [well_formed] in Ha.
    change ((c :: d :: r) ++ b) with (c :: d :: r ++ b).
    cbn [well_formed].
    destruct (JSON.is_low c); [ discriminate | ].
    destruct (JSON.is_high c).
    + apply andb_true_iff in Ha. destruct Ha as [Hd Hr].
      rewrite Hd. exact (IHr Hr).
    + exact (IHd Ha).
Qed.

Lemma well_formed_plain (s : jsstring) :
  Forall (fun c => c < 55296) s -> well_formed s = true.
Proof.
  induction 1 as [ | c s Hc _ IH]; [ reflexivity | ].
  rewrite (well_formed_cons s Hc). exact IH.
Qed.

Lemma encode_cons (c : N) (r : jsstring) :
  encode (c :: r)
  = if unreserved c then after [c] (encode r)
    else if JSON.is_low c then None
    else if JSON.is_high c then
      match r with
      | d :: r' => if JSON.is_low d
                   then after (escape_point (pair_point c d)) (encode r')
                   else None
      | [] => None
      end
    else after (escape_point c) (encode r).
Proof. reflexivity. Qed.

(** [encodeURIComponent] accepts every text without lone surrogates. *)
Lemma encode_well_formed (s : jsstring) :
  well_formed s = true -> exists t, encode s = Some t.
Proof.
  induction s as [ | c | c d r IHr IHd] using pairs_ind; intros Hs.
  - exists []. reflexivity.
  - cbn [well_formed] in Hs. rewrite encode_cons. cbn [encode after].
    destruct (unreserved c); [ eexists; reflexivity | ].
    destruct (JSON.is_low c); [ discriminate | ].
    destruct (JSON.is_high c); [ discriminate | eexists; reflexivity ].
  - cbn [well_formed] in Hs. rewrite encode_cons.
    destruct (unreserved c) eqn:Eu.
    + destruct (unreserved_ascii c Eu) as [Hc _].
      rewrite not_low, not_high in Hs by lia.
      destruct (IHd Hs) as [t ->]. eexists. reflexivity.
    + destruct (JSON.is_low c); [ discriminate | ].
      destruct (JSON.is_high c).
      * apply andb_true_iff in Hs. destruct Hs as [Hd Hr].
        rewrite Hd. destruct (IHr Hr) as [t ->]. eexists. reflexivity.
      * destruct (IHd Hs) as [t ->]. eexists. reflexivity.
Qed.

(** *** The text of a value has no lone surrogate *)

Lemma hex_digit_plain (n : N) : n < 16 -> JSON.hex_digit n < 128.
Proof. unfold JSON.hex_digit. destruct (n <? 10); lia. Qed.

Lemma escape_u_plain (c : N) :
  c < 65536 -> Forall (fun x => x < 128) (JSON.escape_u c).
Proof.
  intros Hc. unfold JSON.escape_u.
  repeat constructor; try lia; apply hex_digit_plain;
    try (apply N.mod_lt; discriminate).
  apply N.Div0.div_lt_upper_bound. exact Hc.
Qed.

Section Closure.

(** A property of texts that holds of the empty text and of every ASCII
    unit, and is kept by concatenation. *)
Variable P : jsstring -> Prop.
Hypothesis P_nil : P [].
Hypothesis P_app : forall a b, P a -> P b -> P (a ++ b).
Hypothesis P_ascii : forall c, c < 128 -> P [c].

Lemma P_plain (s : jsstring) : Forall (fun c => c < 128) s -> P s.
Proof.
  induction 1 as [ | c s Hc _ IH]; [ exact P_nil | ].
  change (c :: s) with ([c] ++ s). apply P_app; [ apply P_ascii; exact Hc | exact IH ].
Qed.

Lemma P_cons (c : N) (s : jsstring) : c < 128 -> P s -> P (c :: s).
Proof.
  intros Hc Hs. change (c :: s) with ([c] ++ s).
  apply P_app; [ apply P_ascii; exact Hc | exact Hs ].
Qed.

Lemma P_lit (a : string) : Forall (fun c => c < 128) (lit a) -> P (lit a).
Proof. apply P_plain. Qed.

Lemma digits_fuel_plain (fuel : nat) :
  forall (z : Z) (acc : jsstring),
    Forall (fun c => c < 128) acc ->
    Forall (fun c => c < 128) (Str.digits_fuel fuel z acc).
Proof.
  induction fuel as [ | f IH]; intros z acc Hacc; [ exact Hacc | ].
  rewrite Digits.digits_fuel_S.
  assert (Hd : Z.to_N (48 + z mod 10) < 128).
  { pose proof (Z.mod_pos_bound z 10 ltac:(lia)). lia. }
  destruct (z <? 10)%Z; [ | apply IH ]; constructor; assumption.
Qed.

Lemma of_Z_nonneg_plain (z : Z) : Forall (fun c => c < 128) (Str.of_Z_nonneg z).
Proof. apply digits_fuel_plain. constructor. Qed.

Lemma layout_plain (ds : jsstring) (n : Z) :
  Forall (fun c => c < 128) ds -> Forall (fun c => c < 128) (Dbl.layout ds n).
Proof.
  intros Hds. unfold Dbl.layout.
  assert (Hz : forall k, Forall (fun c => c < 128) (Dbl.zeros k)).
  { intros k. unfold Dbl.zeros. apply Forall_forall. intros x Hx.
    apply repeat_spec in Hx. subst x. reflexivity. }
  assert (Hcut : Forall (fun c => c < 128) (firstn (Z.to_nat n) ds)
                 /\ Forall (fun c => c < 128) (skipn (Z.to_nat n) ds)).
  { apply Forall_app. rewrite firstn_skipn. exact Hds. }
  destruct (_ && _).
  - apply Forall_app. split; [ exact Hds | apply Hz ].
  - destruct (_ && _).
    + apply Forall_app. split; [ apply Hcut | ].
      constructor; [ reflexivity | apply Hcut ].
    + destruct (_ && _).
      * repeat (constructor; [ reflexivity | ]).
        apply Forall_app. split; [ apply Hz | exact Hds ].
      * apply Forall_app. split.
        -- destruct ds as [ | d [ | d' rest]]; [ constructor | exact Hds | ].
           inversion Hds as [ | x l Hx Hl]; subst.
           constructor; [ exact Hx | ]. constructor; [ reflexivity | exact Hl ].
        -- constructor; [ reflexivity | ].
           constructor; [ destruct (_ <? _)%Z; reflexivity | ].
           apply of_Z_nonneg_plain.
Qed.

Lemma number_text_plain (d : spec_float) :
  Forall (fun c => c < 128) (JSON.number_text d).
Proof.
  unfold JSON.number_text.
  assert (Hlit : forall a, forallb (fun c => c <? 128) (lit a) = true ->
                           Forall (fun c => c < 128) (lit a)).
  { intros a H. apply Forall_forall. intros x Hx.
    rewrite forallb_forall in H. apply N.ltb_lt. exact (H x Hx). }
  destruct d as [s | s | | s m e]; cbn [Dbl.is_finite Dbl.to_string];
    try (apply Hlit; reflexivity).
  assert (H : forall x, Forall (fun c => c < 128) (Dbl.pos_to_string x m e)).
  { intros x. unfold Dbl.pos_to_string.
    destruct (Dbl.ratio_of m e) as [num den].
    destruct (Dbl.shortest _ _ _ _ _ _) as [s0 p0].
    destruct (Dbl.strip_zeros _ _ _) as [s1 p1].
    apply layout_plain. apply of_Z_nonneg_plain. }
  destruct s; [ constructor; [ reflexivity | apply H ] | apply H ].
Qed.

(** The strings of the value: [q] tells which units they may hold, and
    the quoted form of such a string has the property. *)
Variable q : N -> bool.
Hypothesis P_quote : forall s, forallb q s = true -> P (JSON.quote_units s).

Lemma P_join (sep : jsstring) (parts : list jsstring) :
  P sep -> Forall P parts -> P (JSON.join sep parts).
Proof.
  intros Hsep Hparts. induction Hparts as [ | p parts Hp Hrest IH].
  - exact P_nil.
  - destruct parts as [ | p' parts]; [ exact Hp | ].
    change (JSON.join sep (p :: p' :: parts))
      with (p ++ sep ++ JSON.join sep (p' :: parts)).
    apply P_app; [ exact Hp | apply P_app; [ exact Hsep | exact IH ] ].
Qed.

Lemma P_wrap (opening closing : N) (gap indent inner : jsstring)
  (parts : list jsstring) :
  opening < 128 -> closing < 128 -> P indent -> P inner -> Forall P parts ->
  P (JSON.wrap opening closing gap indent inner parts).
Proof.
  intros Ho Hc Hi Hn Hparts. unfold JSON.wrap.
  destruct parts as [ | p parts].
  - apply P_cons; [ exact Ho | apply P_ascii; exact Hc ].
  - destruct gap as [ | g gap].
    + apply P_cons; [ exact Ho | ].
      apply P_app; [ | apply P_ascii; exact Hc ].
      apply P_join; [ apply P_ascii; reflexivity | exact Hparts ].
    + apply P_cons; [ exact Ho | ]. apply P_cons; [ reflexivity | ].
      apply P_app; [ exact Hn | ].
      apply P_app.
      * apply P_join; [ | exact Hparts ].
        apply P_cons; [ reflexivity | ]. apply P_cons; [ reflexivity | exact Hn ].
      * apply P_cons; [ reflexivity | ].
        apply P_app; [ exact Hi | apply P_ascii; exact Hc ].
Qed.

Lemma P_member (gap k t : jsstring) :
  forallb q k = true -> P t -> P (JSON.member gap k t).
Proof.
  intros Hk Ht. unfold JSON.member, JSON.quote.
  apply P_app.
  - apply P_cons; [ reflexivity | ].
    apply P_app; [ apply P_quote; exact Hk | apply P_ascii; reflexivity ].
  - apply P_cons; [ reflexivity | ].
    destruct gap; [ exact Ht | apply P_cons; [ reflexivity | exact Ht ] ].
Qed.

Lemma ser_closed (v : value) :
  all_units q v = true ->
  forall gap indent t,
    P gap -> P indent -> JSON.ser gap indent v = Some t -> P t.
Proof.
  induction v as [ | | b | d | s | vs IH | ps IH] using value_ind;
    intros Hq gap indent t Hgap Hind Hs.
  - discriminate Hs.
  - injection Hs as <-. apply P_plain. repeat constructor.
  - destruct b; injection Hs as <-; apply P_plain; repeat constructor.
  - injection Hs as <-. apply P_plain. apply number_text_plain.
  - injection Hs as <-. unfold JSON.quote.
    apply P_cons; [ reflexivity | ].
    apply P_app; [ apply P_quote; exact Hq | apply P_ascii; reflexivity ].
  - rewrite JSONFacts.ser_arr in Hs. injection Hs as <-.
    assert (Hinner : P (indent ++ gap)) by (apply P_app; assumption).
    apply P_wrap; try reflexivity; try assumption.
    cbn [all_units] in Hq. rewrite forallb_forall in Hq.
    apply Forall_forall. intros x Hx. apply in_map_iff in Hx.
    destruct Hx as [y [<- Hy]]. rewrite Forall_forall in IH.
    unfold Text.text_of.
    destruct (JSON.ser gap (indent ++ gap) y) as [ty | ] eqn:E.
    + exact (IH y Hy (Hq y Hy) gap (indent ++ gap) ty Hgap Hinner E).
    + apply P_plain. repeat constructor.
  - cbn [JSON.ser] in Hs. injection Hs as <-.
    assert (Hinner : P (indent ++ gap)) by (apply P_app; assumption).
    apply P_wrap; try reflexivity; try assumption.
    cbn [all_units] in Hq.
    induction ps as [ | [k x] ps IHps]; [ constructor | ].
    cbn [forallb fst snd] in Hq.
    apply andb_true_iff in Hq. destruct Hq as [Hkx Hq].
    apply andb_true_iff in Hkx. destruct Hkx as [Hk Hx].
    inversion IH as [ | kv l IHx IHl]; subst. cbn [snd] in IHx.
    specialize (IHps IHl Hq).
    destruct (JSON.ser gap (indent ++ gap) x) as [tx | ] eqn:E; [ | exact IHps ].
    constructor; [ | exact IHps ].
    apply P_member; [ exact Hk | ].
    exact (IHx Hx gap (indent ++ gap) tx Hgap Hinner E).
Qed.

End Closure.

Lemma escape_unit_well_formed (c : N) :
  JSON.is_high c = false -> JSON.is_low c = false ->
  well_formed (JSON.escape_unit c) = true.
Proof.
  intros Eh El. unfold JSON.escape_unit.
  destruct (c =? 8); [ reflexivity | ].
  destruct (c =? 9); [ reflexivity | ].
  destruct (c =? 10); [ reflexivity | ].
  destruct (c =? 12); [ reflexivity | ].
  destruct (c =? 13); [ reflexivity | ].
  destruct (c =? 34); [ reflexivity | ].
  destruct (c =? 92); [ reflexivity | ].
  destruct (N.ltb_spec c 32) as [Hc | Hc].
  - apply well_formed_plain.
    eapply Forall_impl; [ | apply (@escape_u_plain c); lia ].
    cbv beta. intros x Hx. lia.
  - cbn [well_formed]. rewrite El, Eh. reflexivity.
Qed.

(** The quoted form of any string has no lone surrogate. *)
Lemma quote_units_well_formed (s : jsstring) :
  well_formed (JSON.quote_units s) = true.
Proof.
  assert (Hesc : forall c r, c < 65536 -> well_formed r = true ->
                             well_formed (JSON.escape_u c ++ r) = true).
  { intros c r Hc Hr. apply well_formed_app; [ | exact Hr ].
    apply well_formed_plain.
    eapply Forall_impl; [ | exact (escape_u_plain Hc) ].
    cbv beta. intros x Hx. lia. }
  induction s as [ | c | c d r IHr IHd] using pairs_ind.
  - reflexivity.
  - cbn [JSON.quote_units].
    destruct (JSON.is_high c) eqn:Eh.
    + apply high_range in Eh. rewrite <- (app_nil_r (JSON.escape_u c)).
      apply Hesc; [ lia | reflexivity ].
    + destruct (JSON.is_low c) eqn:El.
      * apply low_range in El. apply Hesc; [ lia | reflexivity ].
      * apply well_formed_app; [ | reflexivity ].
        apply escape_unit_well_formed; assumption.
  - change (JSON.quote_units (c :: d :: r))
      with (if JSON.is_high c then
              if JSON.is_low d then c :: d :: JSON.quote_units r
              else JSON.escape_u c ++ JSON.quote_units (d :: r)
            else if JSON.is_low c
                 then JSON.escape_u c ++ JSON.quote_units (d :: r)
                 else JSON.escape_unit c ++ JSON.quote_units (d :: r)).
    destruct (JSON.is_high c) eqn:Eh.
    + destruct (JSON.is_low d) eqn:Ed.
      * cbn [well_formed]. rewrite Eh, Ed.
        replace (JSON.is_low c) with false; [ exact IHr | ].
        apply high_range in Eh. symmetry.
        destruct (JSON.is_low c) eqn:El; [ | reflexivity ].
        apply low_range in El. lia.
      * apply high_range in Eh. apply Hesc; [ lia | exact IHd ].
    + destruct (JSON.is_low c) eqn:El.
      * apply low_range in El. apply Hesc; [ lia | exact IHd ].
      * apply well_formed_app; [ | exact IHd ].
        apply escape_unit_well_formed; assumption.
Qed.

(** The text handed to [encodeURIComponent] has no lone surrogate. *)
Lemma export_text_well_formed (data : value) :
  well_formed (export_text data) = true.
Proof.
  unfold export_text, JSON.stringify2.
  destruct (JSON.ser [32; 32] [] data) as [t | ] eqn:E; [ | reflexivity ].
  refine (@ser_closed (fun s => well_formed s = true) eq_refl well_formed_app _
            (fun _ => true) _ data _ [32; 32] [] t eq_refl eq_refl E).
  - intros c Hc. apply well_formed_plain. constructor; [ lia | constructor ].
  - intros s _. apply quote_units_well_formed.
  - clear E. induction data as [ | | b | d | s | vs IH | ps IH] using value_ind;
      try reflexivity.
    + cbn [all_units]. apply forallb_forall. intros x _. reflexivity.
    + cbn [all_units]. apply forallb_forall. intros x Hx.
      rewrite Forall_forall in IH. exact (IH x Hx).
    + cbn [all_units]. apply forallb_forall. intros [k x] Hx.
      rewrite Forall_forall in IH. pose proof (IH (k, x) Hx) as Hkx.
      cbn [fst snd] in Hkx |- *. rewrite Hkx, andb_true_r.
      apply forallb_forall. intros y _. reflexivity.
Qed.

(** *** What the percent-encoded text holds *)

Lemma code_points_cons (c : N) (r : jsstring) :
  code_points (c :: r)
  = if JSON.is_low c then None
    else if JSON.is_high c then
      match r with
      | d :: r' => if JSON.is_low d
                   then option_map (cons (pair_point c d)) (code_points r')
                   else None
      | [] => None
      end
    else option_map (cons c) (code_points r).
Proof. reflexivity. Qed.

Lemma hex_upper_spec (n : N) :
  n < 16 ->
  unreserved (hex_upper n) = true /\ JSON.hex_val (hex_upper n) = Some n.
Proof.
  intros H. destruct n as [ | p]; [ split; reflexivity | ].
  do 4 (destruct p as [p | p | ]; try (split; reflexivity)); exfalso; lia.
Qed.

Lemma utf8_octets (cp : N) :
  cp < 2097152 -> Forall (fun b => b < 256) (utf8 cp).
Proof.
  intros Hcp. unfold utf8.
  assert (Hm : forall x, 128 + x mod 64 < 256).
  { intros x. pose proof (N.mod_lt x 64 ltac:(discriminate)). lia. }
  destruct (N.ltb_spec cp 128) as [H1 | H1];
    [ constructor; [ lia | constructor ] | ].
  destruct (N.ltb_spec cp 2048) as [H2 | H2].
  { assert (cp / 64 < 32) by (apply N.Div0.div_lt_upper_bound; lia).
    repeat constructor; [ lia | apply Hm ]. }
  destruct (N.ltb_spec cp 65536) as [H3 | H3].
  { assert (cp / 4096 < 16) by (apply N.Div0.div_lt_upper_bound; lia).
    repeat constructor; [ lia | apply Hm | apply Hm ]. }
  assert (cp / 262144 < 8) by (apply N.Div0.div_lt_upper_bound; lia).
  repeat constructor; [ lia | apply Hm | apply Hm | apply Hm ].
Qed.

Lemma utf8_ascii (c : N) : c < 128 -> utf8 c = [c].
Proof.
  intros H. unfold utf8.
  replace (c <? 128) with true by (symmetry; apply N.ltb_lt; exact H).
  reflexivity.
Qed.

Lemma pair_point_bound (c d : N) :
  JSON.is_high c = true -> JSON.is_low d = true -> pair_point c d < 2097152.
Proof.
  intros Hc Hd. apply high_range in Hc. apply low_range in Hd.
  unfold pair_point. lia.
Qed.

Lemma escape_octet_safe (b : N) :
  b < 256 -> forallb url_safe (escape_octet b) = true.
Proof.
  intros Hb. unfold escape_octet. cbn [forallb].
  assert (H1 : b / 16 < 16) by (apply N.Div0.div_lt_upper_bound; lia).
  assert (H2 : b mod 16 < 16) by (apply N.mod_lt; discriminate).
  unfold url_safe at 2 3.
  rewrite (proj1 (hex_upper_spec H1)), (proj1 (hex_upper_spec H2)).
  reflexivity.
Qed.

Lemma decode_escape_octet (b : N) (r : jsstring) :
  b < 256 ->
  percent_decode (escape_octet b ++ r) = option_map (cons b) (percent_decode r).
Proof.
  intros Hb. unfold escape_octet. cbn [app percent_decode].
  change (37 =? 37) with true. cbv beta iota.
  assert (H1 : b / 16 < 16) by (apply N.Div0.div_lt_upper_bound; lia).
  assert (H2 : b mod 16 < 16) by (apply N.mod_lt; discriminate).
  rewrite (proj2 (hex_upper_spec H1)), (proj2 (hex_upper_spec H2)).
  replace (b / 16 * 16 + b mod 16) with b; [ reflexivity | ].
  pose proof (N.Div0.div_mod b 16). lia.
Qed.

Lemma escape_octets_spec (bs : list N) (r : jsstring) :
  Forall (fun b => b < 256) bs ->
  forallb url_safe (flat_map escape_octet bs) = true
  /\ percent_decode (flat_map escape_octet bs ++ r)
     = option_map (app bs) (percent_decode r).
Proof.
  induction 1 as [ | b bs Hb _ [IH1 IH2]].
  - split; [ reflexivity | ]. cbn [flat_map app].
    destruct (percent_decode r); reflexivity.
  - cbn [flat_map]. split.
    + rewrite forallb_app, (escape_octet_safe Hb), IH1. reflexivity.
    + rewrite <- app_assoc, (decode_escape_octet _ Hb), IH2.
      destruct (percent_decode r); reflexivity.
Qed.

Lemma decode_plain (c : N) (t : jsstring) :
  c <> 37 -> percent_decode (c :: t) = option_map (cons c) (percent_decode t).
Proof.
  intros Hc. cbn [percent_decode].
  replace (c =? 37) with false; [ reflexivity | ].
  symmetry. apply N.eqb_neq. exact Hc.
Qed.

(** The percent-encoded form of a text of 16-bit units is made of
    URL-safe units only, and stands for the UTF-8 octets of the code
    points of the text. *)
Lemma encode_spec (s : jsstring) :
  forall t,
    Forall (fun c => c < 65536) s -> encode s = Some t ->
    forallb url_safe t = true
    /\ exists cps, code_points s = Some cps
                   /\ percent_decode t = Some (flat_map utf8 cps).
Proof.
  assert (Hpoint : forall cp t' cps,
             cp < 2097152 ->
             forallb url_safe t' = true ->
             percent_decode t' = Some (flat_map utf8 cps) ->
             forallb url_safe (escape_point cp ++ t') = true
             /\ percent_decode (escape_point cp ++ t')
                = Some (flat_map utf8 (cp :: cps))).
  { intros cp t' cps Hcp Hsafe Hdec. unfold escape_point.
    destruct (escape_octets_spec t' (utf8_octets Hcp)) as [H1 H2].
    split; [ rewrite forallb_app, H1, Hsafe; reflexivity | ].
    rewrite H2, Hdec. reflexivity. }
  assert (Hstep : forall c r t,
             c < 65536 -> JSON.is_high c = false ->
             (forall t', encode r = Some t' ->
                forallb url_safe t' = true
                /\ exists cps, code_points r = Some cps
                               /\ percent_decode t' = Some (flat_map utf8 cps)) ->
             (if unreserved c then after [c] (encode r)
              else if JSON.is_low c then None
              else after (escape_point c) (encode r)) = Some t ->
             forallb url_safe t = true
             /\ exists cps, code_points (c :: r) = Some cps
                            /\ percent_decode t = Some (flat_map utf8 cps)).
  { intros c r t Hc Eh IH Ht. rewrite code_points_cons, Eh.
    destruct (unreserved c) eqn:Eu.
    - destruct (unreserved_ascii c Eu) as [Hc128 Hc37].
      destruct (encode r) as [t' | ]; [ | discriminate Ht ].
      injection Ht as <-. destruct (IH t' eq_refl) as [Hsafe [cps [Hcps Hdec]]].
      rewrite (not_low (c := c)) by lia. rewrite Hcps.
      split.
      + cbn [app forallb]. unfold url_safe at 1. rewrite Eu, Hsafe. reflexivity.
      + exists (c :: cps). split; [ reflexivity | ].
        cbn [app]. rewrite (decode_plain _ Hc37), Hdec.
        cbn [flat_map option_map]. rewrite (utf8_ascii Hc128). reflexivity.
    - destruct (JSON.is_low c) eqn:El; [ discriminate Ht | ].
      destruct (encode r) as [t' | ]; [ | discriminate Ht ].
      injection Ht as <-. destruct (IH t' eq_refl) as [Hsafe [cps [Hcps Hdec]]].
      rewrite Hcps.
      destruct (Hpoint c t' cps ltac:(lia) Hsafe Hdec) as [H1 H2].
      split; [ exact H1 | ]. exists (c :: cps). split; [ reflexivity | exact H2 ]. }
  induction s as [ | c | c d r IHr IHd] using pairs_ind; intros t Hs Ht.
  - injection Ht as <-. split; [ reflexivity | ].
    exists []. split; reflexivity.
  - inversion Hs as [ | x l Hc _]; subst.
    rewrite encode_cons in Ht.
    destruct (JSON.is_high c) eqn:Eh.
    + destruct (unreserved c) eqn:Eu.
      * destruct (unreserved_ascii c Eu) as [Hc128 _].
        rewrite not_high in Eh by lia. discriminate Eh.
      * destruct (JSON.is_low c); discriminate Ht.
    + apply (@Hstep c [] t Hc Eh); [ | exact Ht ].
      intros t' Ht'. injection Ht' as <-. split; [ reflexivity | ].
      exists []. split; reflexivity.
  - inversion Hs as [ | x l Hc Hdr]; subst.
    inversion Hdr as [ | x l Hd Hr]; subst.
    rewrite encode_cons in Ht.
    destruct (JSON.is_high c) eqn:Eh.
    + destruct (unreserved c) eqn:Eu.
      * destruct (unreserved_ascii c Eu) as [Hc128 _].
        rewrite not_high in Eh by lia. discriminate Eh.
      * destruct (JSON.is_low c) eqn:El; [ discriminate Ht | ].
        destruct (JSON.is_low d) eqn:Ed; [ | discriminate Ht ].
        destruct (encode r) as [t' | ] eqn:Er; [ | discriminate Ht ].
        injection Ht as <-.
        destruct (IHr t' Hr eq_refl) as [Hsafe [cps [Hcps Hdec]]].
        rewrite code_points_cons, El, Eh, Ed, Hcps.
        destruct (Hpoint (pair_point c d) t' cps
                    (pair_point_bound _ _ Eh Ed) Hsafe Hdec) as [H1 H2].
        split; [ exact H1 | ].
        exists (pair_point c d :: cps). split; [ reflexivity | exact H2 ].
    + apply (@Hstep c (d :: r) t Hc Eh); [ | exact Ht ].
      intros t' Ht'. exact (IHd t' Hdr Ht').
Qed.

(** The quoted form of a string of 16-bit units is made of such units. *)
Lemma quote_units_units (s : jsstring) :
  forallb is_unit s = true ->
  Forall (fun c => c < 65536) (JSON.quote_units s).
Proof.
  assert (Hu : forall c, Forall (fun x => x < 65536) (JSON.escape_u c)
                         \/ 65536 <= c).
  { intros c. destruct (N.lt_ge_cases c 65536) as [H | H]; [ left | right; exact H ].
    eapply Forall_impl; [ | exact (escape_u_plain H) ].
    cbv beta. intros x Hx. lia. }
  assert (He : forall c, c < 65536 ->
                         Forall (fun x => x < 65536) (JSON.escape_unit c)).
  { intros c Hc. unfold JSON.escape_unit.
    repeat (match goal with |- context [if (c =? ?k) then _ else _] =>
              destruct (c =? k); [ repeat constructor | ] end).
    destruct (c <? 32).
    - destruct (Hu c) as [H | H]; [ exact H | lia ].
    - constructor; [ exact Hc | constructor ]. }
  induction s as [ | c | c d r IHr IHd] using pairs_ind; intros Hs.
  - constructor.
  - cbn [forallb] in Hs. apply andb_true_iff in Hs. destruct Hs as [Hc _].
    apply N.ltb_lt in Hc. cbn [JSON.quote_units].
    destruct (Hu c) as [Hesc | Hbad]; [ | lia ].
    destruct (JSON.is_high c); [ exact Hesc | ].
    destruct (JSON.is_low c);
      [ rewrite app_nil_r; exact Hesc | rewrite app_nil_r; apply He; exact Hc ].
  - cbn [forallb] in Hs. apply andb_true_iff in Hs. destruct Hs as [Hc Hdr].
    pose proof Hdr as Hdr'. cbn [forallb] in Hdr'.
    apply andb_true_iff in Hdr'. destruct Hdr' as [Hd Hr].
    apply N.ltb_lt in Hc, Hd.
    destruct (Hu c) as [Hesc | Hbad]; [ | lia ].
    change (JSON.quote_units (c :: d :: r))
      with (if JSON.is_high c then
              if JSON.is_low d then c :: d :: JSON.quote_units r
              else JSON.escape_u c ++ JSON.quote_units (d :: r)
            else if JSON.is_low c
                 then JSON.escape_u c ++ JSON.quote_units (d :: r)
                 else JSON.escape_unit c ++ JSON.quote_units (d :: r)).
    destruct (JSON.is_high c).
    + destruct (JSON.is_low d).
      * constructor; [ exact Hc | ]. constructor; [ exact Hd | exact (IHr Hr) ].
      * apply Forall_app. split; [ exact Hesc | exact (IHd Hdr) ].
    + destruct (JSON.is_low c); apply Forall_app;
        (split; [ | exact (IHd Hdr) ]); [ exact Hesc | apply He; exact Hc ].
Qed.

Lemma export_text_units (data : value) :
  all_units is_unit data = true ->
  Forall (fun c => c < 65536) (export_text data).
Proof.
  intros Hq. unfold export_text, JSON.stringify2.
  destruct (JSON.ser [32; 32] [] data) as [t | ] eqn:E.
  - refine (@ser_closed (fun s => Forall (fun c => c < 65536) s)
              (Forall_nil _) _ _ is_unit quote_units_units data Hq
              [32; 32] [] t _ (Forall_nil _) E).
    + intros a b Ha Hb. apply Forall_app. split; assumption.
    + intros c Hc. constructor; [ lia | constructor ].
    + repeat constructor.
  - repeat constructor.
Qed.

End URIFacts.

(** ** The export *)

(** [download] never fails in [encodeURIComponent]: whatever the data,
    the text [JSON.stringify] writes has no lone surrogate (it escapes
    them), so the link is built and, on a document with a body, clicked.
    Its [download] attribute is the file name, its [href] the data URL of
    the encoded text.  On a document without a body the call fails
    instead. *)
Theorem download_never_malformed (filename : jsstring) (data : value) :
  exists payload,
    URI.encode (export_text data) = Some payload
    /\ download true filename data
       = Clicked {| href := data_url_prefix ++ payload;
                    download_name := filename;
                    display := lit "none" |}
    /\ download false filename data = NoBody.
Proof.
  destruct (URIFacts.encode_well_formed _ (URIFacts.export_text_well_formed data))
    as [payload Hp].
  exists payload. unfold download. rewrite Hp. repeat split.
Qed.

(** For data whose strings are made of 16-bit units, the payload of the
    link is made of URL-safe units only (unreserved ones and percent
    escapes), and percent-decoding it gives the UTF-8 octets of the
    pretty-printed text: that is the content of the file. *)
Theorem download_href_holds_the_text (filename : jsstring) (data : value) :
  all_units URI.is_unit data = true ->
  exists payload cps,
    download true filename data
    = Clicked {| href := data_url_prefix ++ payload;
                 download_name := filename;
                 display := lit "none" |}
    /\ forallb URI.url_safe payload = true
    /\ URI.code_points (export_text data) = Some cps
    /\ URI.percent_decode payload = Some (flat_map URI.utf8 cps).
Proof.
  intros Hq.
  destruct (URIFacts.encode_well_formed _ (URIFacts.export_text_well_formed data))
    as [payload Hp].
  destruct (@URIFacts.encode_spec (export_text data) payload
              (URIFacts.export_text_units data Hq) Hp) as [Hsafe [cps [Hc Hd]]].
  exists payload, cps. unfold download. rewrite Hp. repeat split; assumption.
Qed.

Lemma download_href_holds_the_text_witness :
  exists payload,
    download true (lit "data.json") (VArr [VStr [233; 55357; 56832]%N])
    = Clicked {| href := data_url_prefix ++ payload;
                 download_name := lit "data.json";
                 display := lit "none" |}
    /\ URI.percent_decode payload
       = Some [91; 10; 32; 32; 34; 195; 169; 240; 159; 152; 128; 34; 10; 93]%N.
Proof.
  destruct (@download_href_holds_the_text (lit "data.json")
              (VArr [VStr [233; 55357; 56832]%N]) eq_refl)
    as [payload [cps [Hd [_ [Hc Hp]]]]].
  exists payload. split; [ exact Hd | ].
  rewrite Hp. vm_compute in Hc. injection Hc as <-. reflexivity.
Defined.

(** ** Worked instances of the replay theorems *)


Lemma replay_recaptures_same_config_witness :
  let st := fst (fetch_hook (Demo.page (lit "api/data")) Demo.example_call) in
  firstCapture
    (fst (fst (executeRequest Demo.nativeFetch Demo.url_with_param st
                 (Demo.quiet []) (Int 5))))
  = Some {| url := VStr (lit "https://x/api/data?page=5");
            config := config Demo.example_template |}.
Proof.
  cbv zeta.
  apply (@replay_recaptures_same_config Demo.World Demo.nativeFetch
           Demo.url_with_param
           (fst (fetch_hook (Demo.page (lit "api/data")) Demo.example_call))
           (Demo.page (lit "api/data")) Demo.example_call
           (Demo.quiet []) (Int 5) Demo.example_template
           (lit "https://x/api/data?page=5")).
  - vm_compute. reflexivity.
  - vm_compute. reflexivity.
  - vm_compute. reflexivity.
  - vm_compute. reflexivity.
  - intros b Hb. vm_compute in Hb. injection Hb as <-.
    intros v Hv. vm_compute in Hv. injection Hv as <-.
    vm_compute. reflexivity.
  - vm_compute. reflexivity.
  - discriminate.
  - vm_compute. reflexivity.
Defined.

(** ** What a collection collects *)

Section Extraction.

Variable World : Type.
Variable nativeFetch : World -> list value -> World * completion Response.
Variable url_with_param : value -> jsstring -> number -> option jsstring.




End Extraction.

